(** * timestreamlib: regions, pot handlers, archives, traverser and driver

    A shallow embedding of the parts of timestreamlib that its design
    document makes statements about:

    - [timestream/manipulate/pot.py]: [ImagePotRectangle],
      [ImagePotHandler], [ImagePotMatrix];
    - [timestream/__init__.py]: [TimeStream], [TimeStreamTraverser],
      [TimeStreamImage];
    - [scripts/run_pipeline.py]: [PipelineRunner.runPipeline].

    Python objects that are mutated through shared references live in an
    explicit store; functions that can raise return a [result]. *)

From stdpp Require Import gmap strings list pretty.
From Stdlib Require Import ZArith Lia Ascii.

Open Scope Z_scope.

(** ** Python exceptions and results *)

Inductive exn :=
  | TypeError (msg : string)
  | IndexError (msg : string)
  | ValueError (msg : string)
  | RuntimeError (msg : string)
  | AttributeError (msg : string)
  | NameError (msg : string)
  | OSError (msg : string)
  | NotImplementedError (msg : string)
  | IOError (msg : string)
  | KeyError (msg : string)
  | PCException (msg : string).

Inductive result (A : Type) :=
  | Ok (a : A)
  | Raise (e : exn).
Arguments Ok {A} a.
Arguments Raise {A} e.

Definition rbind {A B} (r : result A) (k : A -> result B) : result B :=
  match r with
  | Ok a => k a
  | Raise e => Raise e
  end.

(** ** Statements: state passing with exceptions

    A statement runs on a state and either returns or raises; what it
    wrote before raising stays written. *)

Definition SE (S A : Type) : Type := S -> S * result A.

Definition ret {S A} (a : A) : SE S A := fun s => (s, Ok a).
Definition raise {S A} (e : exn) : SE S A := fun s => (s, Raise e).
Definition bind {S A B} (m : SE S A) (k : A -> SE S B) : SE S B :=
  fun s => match m s with
           | (s', Ok a) => k a s'
           | (s', Raise e) => (s', Raise e)
           end.
(** Lifting a pure result. *)
Definition lift {S A} (r : result A) : SE S A := fun s => (s, r).

Declare Scope py_scope.
Delimit Scope py_scope with py.
Notation "x <- m ;; k" := (bind m (fun x => k))
  (at level 100, m at next level, right associativity) : py_scope.
Notation "m ;;; k" := (bind m (fun _ => k))
  (at level 100, right associativity) : py_scope.
Open Scope py_scope.

(** Values of the two sequence types the rectangle code tells apart with
    [isinstance]: a Python [list] and a numpy [ndarray] (of integers). *)
Inductive pyseq :=
  | PyList (l : list Z)
  | NdArray (l : list Z).

Definition seq_items (s : pyseq) : list Z :=
  match s with PyList l | NdArray l => l end.

(** numpy: [a + b] and [a - k] on one-dimensional integer arrays. *)
Definition np_add (a b : list Z) : list Z := zip_with Z.add a b.
Definition np_sub_scalar (a : list Z) (k : Z) : list Z := (fun x => x - k) <$> a.
Definition np_add_scalar (a : list Z) (k : Z) : list Z := (fun x => x + k) <$> a.

(** numpy: [sum(a < 0) > 0], [sum(a > k) > 0]. *)
Definition np_any_lt (a : list Z) (k : Z) : bool := existsb (fun x => x <? k) a.
Definition np_any_gt (a : list Z) (k : Z) : bool := existsb (fun x => k <? x) a.

(** numpy: [a[i]] for an integer [i] on a one-dimensional array: negative
    indices count from the end, anything outside raises [IndexError]. *)
Definition np_index_msg : string := "index out of bounds".

Definition np_getitem (a : list Z) (i : Z) : result Z :=
  let n := Z.of_nat (length a) in
  let j := if i <? 0 then i + n else i in
  if (j <? 0) || (n <=? j) then Raise (IndexError np_index_msg)
  else match a !! Z.to_nat j with
       | Some x => Ok x
       | None => Raise (IndexError np_index_msg)
       end.

(** numpy fancy indexing [a[[i, j]]] at two in-range positions. *)
Definition np_take2 (a : list Z) (i j : nat) : list Z :=
  match a !! i, a !! j with
  | Some x, Some y => [x; y]
  | _, _ => []
  end.

(** ** [ImagePotRectangle] (pot.py, lines 23-81) *)

Module Rect.

Record ImagePotRectangle := mkRect {
  _rect : list Z;
  _imgwidth : Z;
  _imgheight : Z
}.

Definition growM_default : Z := 100.

Definition msg_imgsize_len : string := "ImgSize must be a tuple of at least len 2".
Definition msg_imgsize_pos : string := "ImgSize elements must be >0".
Definition msg_desc : string := "Rectangle Descriptor must be a list of len 2 or 4".
Definition msg_outside : string := "Rectangle is outside containing image dims.".
Definition msg_isinstance_arg2 : string :=
  "isinstance() arg 2 must be a class, type, or tuple of classes and types".
Definition msg_range : string := "Rectangle index should be [0,3]".

(** The closing check of [__init__]. *)
Definition outside (r : list Z) (imgwidth imgheight : Z) : bool :=
  np_any_lt r 0
  || np_any_gt (np_take2 r 1 3) imgheight
  || np_any_gt (np_take2 r 0 2) imgwidth.

(** [__init__(self, rectDesc, imgSize, growM=100)].  [imgSize] is a tuple
    of integers (whatever [img.shape] returns).  A [rectDesc] that is not
    a [list] reaches [isinstance(rectDesc, np.array)], which raises
    [TypeError] because [np.array] is a function and not a type. *)
Definition init (rectDesc : pyseq) (imgSize : list Z) (growM : Z)
  : result ImagePotRectangle :=
  match imgSize with
  | h :: w :: _ =>
      if (h <? 1) || (w <? 1) then Raise (TypeError msg_imgsize_pos)
      else
        match rectDesc with
        | NdArray _ => Raise (TypeError msg_isinstance_arg2)
        | PyList d =>
            let n := length d in
            if negb (Nat.eqb n 2) && negb (Nat.eqb n 4)
            then Raise (TypeError msg_desc)
            else
              let r :=
                if Nat.eqb n 4 then d
                else np_sub_scalar d growM ++ np_add_scalar d growM in
              if outside r w h then Raise (TypeError msg_outside)
              else Ok (mkRect r w h)
        end
  | _ => Raise (TypeError msg_imgsize_len)
  end.

(** [__getitem__(self, item)]. *)
Definition getitem (self : ImagePotRectangle) (item : Z) : result Z :=
  if (4 <? item) || (item <? 0) then Raise (IndexError msg_range)
  else np_getitem (_rect self) item.

Definition asList (self : ImagePotRectangle) : pyseq := NdArray (_rect self).

(** Element [i] of the stored array, for the in-range constant indices
    the class uses on itself. *)
Definition at_ (self : ImagePotRectangle) (i : nat) : Z := (_rect self) !!! i.

Definition width (self : ImagePotRectangle) : Z := Z.abs (at_ self 2 - at_ self 0).
Definition height (self : ImagePotRectangle) : Z := Z.abs (at_ self 3 - at_ self 1).

Definition left (self : ImagePotRectangle) : Z := at_ self 0.
Definition top (self : ImagePotRectangle) : Z := at_ self 1.
Definition right (self : ImagePotRectangle) : Z := at_ self 2.
Definition bottom (self : ImagePotRectangle) : Z := at_ self 3.

End Rect.


(** ** Two-dimensional numpy arrays *)

Module Arr.

(** The rows of the array and its second dimension, which an array with
    no rows still has.  Masks hold the float64 values -1.0, 0.0 and 1.0,
    written here as integers; no arithmetic is done on them. *)
Record ndarray2 (A : Type) := mkArr {
  rows : list (list A);
  ncols : nat
}.
Arguments mkArr {A} rows ncols.
Arguments rows {A} _.
Arguments ncols {A} _.

(** Every row has [ncols] elements: what numpy guarantees of any array. *)
Definition wf {A} (a : ndarray2 A) : Prop :=
  Forall (fun r => length r = ncols a) (rows a).

(** [a.shape] *)
Definition shape {A} (a : ndarray2 A) : nat * nat := (length (rows a), ncols a).

(** [np.zeros([h, w])] and [np.zeros([h, w]) - 1] *)
Definition full (h w : nat) (v : Z) : ndarray2 Z :=
  mkArr (replicate h (replicate w v)) w.
Definition zeros (h w : nat) : ndarray2 Z := full h w 0.

(** [v in a] *)
Definition contains (v : Z) (a : ndarray2 Z) : bool :=
  existsb (existsb (Z.eqb v)) (rows a).

(** Python [l[1:]] and [l[:-1]] *)
Definition but_first {A} (l : list A) : list A := drop 1 l.
Definition but_last {A} (l : list A) : list A := take (length l - 1) l.

(** [a[1:,:]], [a[:-1,:]], [a[:,1:]], [a[:,:-1]] *)
Definition rows_from1 {A} (a : ndarray2 A) : ndarray2 A :=
  mkArr (but_first (rows a)) (ncols a).
Definition rows_to_last {A} (a : ndarray2 A) : ndarray2 A :=
  mkArr (but_last (rows a)) (ncols a).
Definition cols_from1 {A} (a : ndarray2 A) : ndarray2 A :=
  mkArr (but_first <$> rows a) (ncols a - 1).
Definition cols_to_last {A} (a : ndarray2 A) : ndarray2 A :=
  mkArr (but_last <$> rows a) (ncols a - 1).

(** [np.lib.pad(a, ((b, e), (0, 0)), 'constant', constant_values=0)] and
    [np.lib.pad(a, ((0, 0), (b, e)), 'constant', constant_values=0)] *)
Definition pad_rows (b e : nat) (a : ndarray2 Z) : ndarray2 Z :=
  mkArr (replicate b (replicate (ncols a) 0) ++ rows a
         ++ replicate e (replicate (ncols a) 0)) (ncols a).
Definition pad_cols (b e : nat) (a : ndarray2 Z) : ndarray2 Z :=
  mkArr ((fun r => replicate b 0 ++ r ++ replicate e 0) <$> rows a)
        (b + ncols a + e).

(** Python [l[a:b]] for non-negative [a] and [b]. *)
Definition pyslice {A} (a b : nat) (l : list A) : list A :=
  take (b - a) (drop a l).

(** [a[y1:y2, x1:x2]] for non-negative bounds. *)
Definition crop {A} (y1 y2 x1 x2 : nat) (a : ndarray2 A) : ndarray2 A :=
  mkArr (pyslice x1 x2 <$> pyslice y1 y2 (rows a))
        (Nat.min x2 (ncols a) - Nat.min x1 (ncols a)).

End Arr.

(** ** [ImagePotHandler] and [ImagePotMatrix] (pot.py, lines 83-475) *)

Module Pots.
Import Arr.

(** A pixel is its list of channel values; the super image is the
    [(height, width, depth)] array every pot of a frame is cut from. *)
Definition pixel := list Z.
Record ndarray3 := mkImage {
  pix : ndarray2 pixel;
  depth : nat
}.

(** [si.shape] *)
Definition image_shape (im : ndarray3) : list Z :=
  [Z.of_nat (length (rows (pix im))); Z.of_nat (ncols (pix im)); Z.of_nat (depth im)].

(** A [PotSegmenter]: its [segment] method, from the cropped image to the
    mask (the hints it also returns are dropped by the caller). *)
Definition PotSegmenter := ndarray2 pixel -> ndarray2 Z.

Definition addr := nat.
Bind Scope nat_scope with addr.

(** The handler's feature calculator and its dictionaries of features
    and of meta ids, which nothing below reads, are left out. *)
Record ImagePotHandler := mkIPH {
  _id : Z;
  si : ndarray3;
  _rect : Rect.ImagePotRectangle;
  _ps : option PotSegmenter;
  _iphPrev : option addr;
  _mask : ndarray2 Z
}.

(** [ImagePotMatrix.__init__] stores the link and the pot dictionary. *)
Record ImagePotMatrix := mkIPM {
  ipmPrev : option addr;
  _pots : gmap Z addr
}.

(** The objects of both classes, by address. *)
Record store := mkStore {
  handlers : gmap addr ImagePotHandler;
  matrices : gmap addr ImagePotMatrix
}.

Definition empty_store : store := mkStore ∅ ∅.

(** A reference passed where the code tests [== None] and [isinstance]. *)
Inductive pyref :=
  | RNone
  | RHandler (a : addr)
  | RMatrix (a : addr)
  | ROther.

Definition M (A : Type) : Type := SE store A.

Definition msg_none_attr : string := "'NoneType' object has no attribute".
Definition msg_no_object : string := "no object at this address".

(** Reading and writing the attributes of the handler at [a]. *)
Definition get_handler (a : addr) : M ImagePotHandler :=
  fun s => match handlers s !! a with
           | Some h => (s, Ok h)
           | None => (s, Raise (RuntimeError msg_no_object))
           end.

Definition put_handler (a : addr) (h : ImagePotHandler) : M unit :=
  fun s => (mkStore (<[a := h]> (handlers s)) (matrices s), Ok tt).

Definition with_iphPrev (v : option addr) (h : ImagePotHandler) : ImagePotHandler :=
  mkIPH (_id h) (si h) (_rect h) (_ps h) v (_mask h).
Definition with_ps (v : option PotSegmenter) (h : ImagePotHandler) : ImagePotHandler :=
  mkIPH (_id h) (si h) (_rect h) v (_iphPrev h) (_mask h).
Definition with_mask (v : ndarray2 Z) (h : ImagePotHandler) : ImagePotHandler :=
  mkIPH (_id h) (si h) (_rect h) (_ps h) (_iphPrev h) v.
Definition with_rect_mask (r : Rect.ImagePotRectangle) (v : ndarray2 Z)
    (h : ImagePotHandler) : ImagePotHandler :=
  mkIPH (_id h) (si h) r (_ps h) (_iphPrev h) v.

Definition modify_handler (a : addr) (f : ImagePotHandler -> ImagePotHandler) : M unit :=
  h <- get_handler a ;; put_handler a (f h).

(** [o._iphPrev = v] and [o._ps = v] on the object at [a]. *)
Definition store_iphPrev (a : addr) (v : option addr) : M unit :=
  modify_handler a (with_iphPrev v).
Definition store_ps (a : addr) (v : option PotSegmenter) : M unit :=
  modify_handler a (with_ps v).

(** [self._iphPrev.iphPrev = None]: the attribute is read again from
    [self], and assigning through [None] raises. *)
Definition clear_prev_of_prev (self : addr) : M unit :=
  h <- get_handler self ;;
  match _iphPrev h with
  | Some p => store_iphPrev p None
  | None => raise (AttributeError msg_none_attr)
  end.

(** [self._iphPrev.ps = None] *)
Definition clear_ps_of_prev (self : addr) : M unit :=
  h <- get_handler self ;;
  match _iphPrev h with
  | Some p => store_ps p None
  | None => raise (AttributeError msg_none_attr)
  end.

Definition msg_iphPrev_type : string := "iphPrev must be an instance of ImagePotHandler".

(** The [iphPrev] setter (lines 165-177). *)
Definition set_iphPrev (self : addr) (v : pyref) : M unit :=
  match v with
  | RNone => store_iphPrev self None
  | RHandler b =>
      store_iphPrev self (Some b) ;;;
      clear_prev_of_prev self ;;;
      clear_ps_of_prev self
  | _ => raise (TypeError msg_iphPrev_type)
  end.

(** The [ps] setter (lines 183-185). *)
Definition set_ps (self : addr) (ps : option PotSegmenter) : M unit :=
  store_ps self ps.

(** [np.zeros([self._rect.height, self._rect.width]) - 1] *)
Definition unset_mask (r : Rect.ImagePotRectangle) : ndarray2 Z :=
  full (Z.to_nat (Rect.height r)) (Z.to_nat (Rect.width r)) (-1).

(** The first address no handler lives at. *)
Definition fresh_handler (s : store) : addr := fresh (dom (handlers s)).
Definition fresh_matrix (s : store) : addr := fresh (dom (matrices s)).

(** [ImagePotHandler.__init__] (lines 84-159), returning the address of
    the new object.  [superImage] is an [ndarray], [rect] an
    [ImagePotRectangle] and [ps] a [PotSegmenter] or [None]. *)
Definition iph_init (potID : Z) (rect : Rect.ImagePotRectangle) (superImage : ndarray3)
    (ps : option PotSegmenter) (iphPrev : pyref) : M addr :=
  fun s =>
    let self := fresh_handler s in
    let new prev := mkIPH potID superImage rect ps prev (unset_mask rect) in
    match iphPrev with
    | RNone => (put_handler self (new None) ;;; ret self) s
    | RHandler b =>
        (put_handler self (new (Some b)) ;;;
         clear_prev_of_prev self ;;;
         clear_ps_of_prev self ;;;
         ret self) s
    | _ => (s, Raise (TypeError msg_iphPrev_type))
    end.

(** The [image] property (lines 195-198): the crop of the super image the
    rectangle selects.  The bounds of a constructed rectangle are never
    negative, so the slices are plain prefix-and-suffix cuts. *)
Definition image (h : ImagePotHandler) : result (ndarray2 pixel) :=
  rbind (Rect.getitem (_rect h) 1) (fun y1 =>
  rbind (Rect.getitem (_rect h) 3) (fun y2 =>
  rbind (Rect.getitem (_rect h) 0) (fun x1 =>
  rbind (Rect.getitem (_rect h) 2) (fun x2 =>
  Ok (crop (Z.to_nat y1) (Z.to_nat y2) (Z.to_nat x1) (Z.to_nat x2) (pix (si h))))))).

(** The four loops of [getSegmented] (lines 216-248).  Trimming starts
    with [side = True] and flips it after every row or column. *)
Fixpoint trim_rows (n : nat) (side : bool) (pm : ndarray2 Z) : ndarray2 Z :=
  match n with
  | O => pm
  | S k => trim_rows k (negb side) (if side then rows_from1 pm else rows_to_last pm)
  end.

Fixpoint trim_cols (n : nat) (side : bool) (pm : ndarray2 Z) : ndarray2 Z :=
  match n with
  | O => pm
  | S k => trim_cols k (negb side) (if side then cols_from1 pm else cols_to_last pm)
  end.

(** [padS = -(padS-1)] on the two-element array [padS]. *)
Definition pad_next (padS : Z * Z) : Z * Z := (- (fst padS - 1), - (snd padS - 1)).

(** The pad descriptor only ever is [[1, 0]] or [[0, 1]]. *)
Definition pad_side (padS : Z * Z) : Prop := padS = (1, 0) \/ padS = (0, 1).

Fixpoint grow_rows (n : nat) (padS : Z * Z) (pm : ndarray2 Z) : ndarray2 Z :=
  match n with
  | O => pm
  | S k => grow_rows k (pad_next padS)
             (pad_rows (Z.to_nat (fst padS)) (Z.to_nat (snd padS)) pm)
  end.

Fixpoint grow_cols (n : nat) (padS : Z * Z) (pm : ndarray2 Z) : ndarray2 Z :=
  match n with
  | O => pm
  | S k => grow_cols k (pad_next padS)
             (pad_cols (Z.to_nat (fst padS)) (Z.to_nat (snd padS)) pm)
  end.

(** Lines 216-231: fit [pm] vertically to [msk]. *)
Definition fit_vertical (msk pm : ndarray2 Z) : ndarray2 Z :=
  let vDiff := Z.of_nat (fst (shape msk)) - Z.of_nat (fst (shape pm)) in
  let pm1 := if vDiff <? 0 then trim_rows (Z.abs_nat vDiff) true pm else pm in
  if 0 <? vDiff then grow_rows (Z.abs_nat vDiff) (1, 0) pm1 else pm1.

(** Lines 233-248: fit [pm] horizontally to [msk]. *)
Definition fit_horizontal (msk pm : ndarray2 Z) : ndarray2 Z :=
  let hDiff := Z.of_nat (snd (shape msk)) - Z.of_nat (snd (shape pm)) in
  let pm1 := if hDiff <? 0 then trim_cols (Z.abs_nat hDiff) true pm else pm in
  if 0 <? hDiff then grow_cols (Z.abs_nat hDiff) (1, 0) pm1 else pm1.

(** The previous mask fitted into the shape of [msk]. *)
Definition fit_prev_mask (msk pm : ndarray2 Z) : ndarray2 Z :=
  fit_horizontal msk (fit_vertical msk pm).

Definition msg_none_segment : string := "'NoneType' object has no attribute 'segment'".
Definition msg_recursion : string := "maximum recursion depth exceeded".

(** [getSegmented] (lines 200-252), given how the previous handler's
    [mask] property is evaluated. *)
Definition getSegmented_with (mask_of : addr -> M (ndarray2 Z)) (self : addr)
  : M (ndarray2 Z) :=
  h <- get_handler self ;;
  match _ps h with
  | None => raise (AttributeError msg_none_segment)
  | Some seg =>
      img <- lift (image h) ;;
      let msk := seg img in
      match _iphPrev h with
      | Some p =>
          if negb (contains 1 msk)
          then pm <- mask_of p ;; ret (fit_prev_mask msk pm)
          else ret msk
      | None => ret msk
      end
  end.

(** The [mask] property (lines 254-263).  It calls [getSegmented], which
    reads the [mask] property of the previous handler: [depth] bounds the
    nesting of these calls, as the interpreter's recursion limit does. *)
Fixpoint mask (depth : nat) (self : addr) : M (ndarray2 Z) :=
  match depth with
  | O => raise (RuntimeError msg_recursion)
  | S d =>
      h <- get_handler self ;;
      if negb (contains (-1) (_mask h)) then ret (_mask h)
      else match _ps h with
           | None => ret (zeros (fst (shape (_mask h))) (snd (shape (_mask h))))
           | Some _ =>
               m <- getSegmented_with (mask d) self ;;
               modify_handler self (with_mask m) ;;;
               ret m
           end
  end.

Definition getSegmented (depth : nat) (self : addr) : M (ndarray2 Z) :=
  getSegmented_with (mask depth) self.

(** What can be assigned to the [rect] property. *)
Inductive rect_value :=
  | RVSeq (s : pyseq)
  | RVRect (r : Rect.ImagePotRectangle)
  | RVOther.

Definition msg_rect_len : string := "Pass a list of len 4 to set a rectangle".
Definition msg_isinstance_arity : string := "isinstance expected 2 arguments, got 1".

(** The [rect] setter (lines 277-297).  Anything that is not a [list]
    reaches [isinstance(ImagePotRectangle)], a call with one argument,
    which raises [TypeError]. *)
Definition set_rect (self : addr) (r : rect_value) : M unit :=
  h <- get_handler self ;;
  match r with
  | RVSeq (PyList l) =>
      if negb (Nat.eqb (length l) 4) then raise (TypeError msg_rect_len)
      else
        nr <- lift (Rect.init (PyList l) (image_shape (si h)) Rect.growM_default) ;;
        put_handler self (with_rect_mask nr (unset_mask nr) h)
  | _ => raise (TypeError msg_isinstance_arity)
  end.

(** [increaseRect] and [reduceRect] (lines 328-336): [asList()] is an
    [ndarray], and so is its sum with [np.array([-by, -by, by, by])]. *)
Definition increaseRect (self : addr) (by_ : Z) : M unit :=
  h <- get_handler self ;;
  let r := NdArray (np_add (seq_items (Rect.asList (_rect h))) [- by_; - by_; by_; by_]) in
  set_rect self (RVSeq r).

Definition reduceRect (self : addr) (by_ : Z) : M unit :=
  h <- get_handler self ;;
  let r := NdArray (np_add (seq_items (Rect.asList (_rect h))) [by_; by_; - by_; - by_]) in
  set_rect self (RVSeq r).

(** *** [ImagePotMatrix] *)

Definition get_matrix (m : addr) : M ImagePotMatrix :=
  fun s => match matrices s !! m with
           | Some x => (s, Ok x)
           | None => (s, Raise (RuntimeError msg_no_object))
           end.

Definition put_matrix (m : addr) (x : ImagePotMatrix) : M unit :=
  fun s => (mkStore (handlers s) (<[m := x]> (matrices s)), Ok tt).

(** [o.ipmPrev = v] on the matrix at [m]. *)
Definition store_ipmPrev (m : addr) (v : option addr) : M unit :=
  x <- get_matrix m ;; put_matrix m (mkIPM v (_pots x)).

Definition msg_potNum : string := "global name 'potNum' is not defined".
Definition msg_pot : string := "global name 'pot' is not defined".
Definition msg_no_id : string := "'ImagePotMatrix' object has no attribute 'id'".
Definition msg_ipmPrev_type : string := "ipmPrev must be an instance of ImagePotMatrix".
Definition msg_pot_type : string := "Pot must be of type ImagePotHandler".

(** [getPot] (lines 423-427): the message of the [IndexError] it means to
    raise names [potNum], which is not defined. *)
Definition getPot (m : addr) (potId : Z) : M addr :=
  x <- get_matrix m ;;
  match _pots x !! potId with
  | Some a => ret a
  | None => raise (NameError msg_potNum)
  end.

(** An element of the [pots] list of the constructor. *)
Inductive potarg :=
  | PMatrixArg (m : addr)
  | PListArg (l : list Z)
  | POtherArg.

(** The loop of lines 406-421.  An [ImagePotMatrix] element has no [id];
    a list element reaches [ImagePotRectangle(pot, ...)], where [pot] is
    not defined; for anything else the [TypeError] is built but not raised. *)
Fixpoint pots_loop (link : option addr) (potIndex : Z) (pots : list potarg) : M unit :=
  match pots with
  | [] => ret tt
  | PMatrixArg _ :: _ => raise (AttributeError msg_no_id)
  | PListArg l :: rest =>
      if Nat.eqb (length l) 2 || Nat.eqb (length l) 4 then
        match link with
        | Some pm => _ <- getPot pm potIndex ;; raise (NameError msg_pot)
        | None => raise (NameError msg_pot)
        end
      else pots_loop link potIndex rest
  | POtherArg :: rest => pots_loop link potIndex rest
  end.

(** [ImagePotMatrix.__init__] (lines 371-421). *)
Definition ipm_init (im : ndarray3) (pots : list potarg) (growM : Z) (prev : pyref)
  : M addr :=
  link <- match prev with
          | RNone => ret None
          | RMatrix m => store_ipmPrev m None ;;; ret (Some m)
          | _ => raise (TypeError msg_ipmPrev_type)
          end ;;
  pots_loop link (-1) pots ;;;
  fun s => let self := fresh_matrix s in
           (put_matrix self (mkIPM link ∅) ;;; ret self) s.

(** [addPot] (lines 429-436). *)
Definition addPot (self : addr) (pot : pyref) : M unit :=
  match pot with
  | RHandler p =>
      x <- get_matrix self ;;
      hp <- get_handler p ;;
      iphPrev <- match ipmPrev x with
                 | Some pm => a <- getPot pm (_id hp) ;; ret (RHandler a)
                 | None => ret RNone
                 end ;;
      set_iphPrev p iphPrev ;;;
      x' <- get_matrix self ;;
      put_matrix self (mkIPM (ipmPrev x') (<[_id hp := p]> (_pots x')))
  | _ => raise (TypeError msg_pot_type)
  end.

(** The calls a client of the two classes can make, and the stores they
    lead to from the empty one. *)
Inductive call :=
  | NewHandler (potID : Z) (rect : Rect.ImagePotRectangle) (superImage : ndarray3)
      (ps : option PotSegmenter) (iphPrev : pyref)
  | SetIphPrev (self : addr) (v : pyref)
  | SetPs (self : addr) (ps : option PotSegmenter)
  | SetRect (self : addr) (r : rect_value)
  | IncreaseRect (self : addr) (by_ : Z)
  | ReduceRect (self : addr) (by_ : Z)
  | ReadMask (depth : nat) (self : addr)
  | NewMatrix (im : ndarray3) (pots : list potarg) (growM : Z) (prev : pyref)
  | AddPot (self : addr) (pot : pyref).

Definition run_call (c : call) (s : store) : store :=
  match c with
  | NewHandler potID rect superImage ps iphPrev =>
      fst (iph_init potID rect superImage ps iphPrev s)
  | SetIphPrev self v => fst (set_iphPrev self v s)
  | SetPs self ps => fst (set_ps self ps s)
  | SetRect self r => fst (set_rect self r s)
  | IncreaseRect self by_ => fst (increaseRect self by_ s)
  | ReduceRect self by_ => fst (reduceRect self by_ s)
  | ReadMask depth self => fst (mask depth self s)
  | NewMatrix im pots growM prev => fst (ipm_init im pots growM prev s)
  | AddPot self pot => fst (addPot self pot s)
  end.

Definition run_calls (cs : list call) (s : store) : store :=
  foldl (fun s c => run_call c s) s cs.

Inductive reachable : store -> Prop :=
  | reachable_empty : reachable empty_store
  | reachable_call s c : reachable s -> reachable (run_call c s).

(** No object's predecessor has a predecessor of its own. *)
Definition handler_chain_le_one (s : store) : Prop :=
  forall a ha b hb,
    handlers s !! a = Some ha -> _iphPrev ha = Some b ->
    handlers s !! b = Some hb -> _iphPrev hb = None.

Definition matrix_chain_le_one (s : store) : Prop :=
  forall a xa b xb,
    matrices s !! a = Some xa -> ipmPrev xa = Some b ->
    matrices s !! b = Some xb -> ipmPrev xb = None.

(** Every link points at an object of the store, as references do. *)
Definition handler_links_closed (s : store) : Prop :=
  forall a ha b,
    handlers s !! a = Some ha -> _iphPrev ha = Some b ->
    is_Some (handlers s !! b).

Definition matrix_links_closed (s : store) : Prop :=
  forall a xa b,
    matrices s !! a = Some xa -> ipmPrev xa = Some b ->
    is_Some (matrices s !! b).

(** The links between matrices, which is all the chain bound reads. *)
Definition mlinks (s : store) : gmap addr (option addr) := ipmPrev <$> matrices s.

Definition keeps_mlinks {A} (m : M A) : Prop :=
  forall s, mlinks (fst (m s)) = mlinks s.

(** Every link leads to an object without a link of its own. *)
Definition links_ok (L : gmap addr (option addr)) : Prop :=
  forall a b, L !! a = Some (Some b) -> L !! b = Some None.

(** A predecessor as linking leaves it: no predecessor, no segmenter. *)
Definition linked (hb : ImagePotHandler) : ImagePotHandler :=
  with_ps None (with_iphPrev None hb).

End Pots.

(** ** Paths and files *)

Module OS.

(** [os.sep] on the platforms the scripts run on. *)
Definition sep : ascii := "/"%char.
Definition is_sep (c : ascii) : bool := Ascii.eqb c sep.

Definition is_empty (s : string) : bool :=
  match s with EmptyString => true | _ => false end.

Fixpoint contains_char (c : ascii) (s : string) : bool :=
  match s with
  | EmptyString => false
  | String d r => Ascii.eqb c d || contains_char c r
  end.

(** [s.rstrip(os.sep)] *)
Fixpoint rstrip_sep (s : string) : string :=
  match s with
  | EmptyString => EmptyString
  | String c r =>
      let r' := rstrip_sep r in
      if is_sep c && is_empty r' then EmptyString else String c r'
  end.

(** [s.startswith(pre)] *)
Definition startswith (pre s : string) : bool := String.prefix pre s.

Fixpoint endswith_sep (s : string) : bool :=
  match s with
  | EmptyString => false
  | String c EmptyString => is_sep c
  | String _ r => endswith_sep r
  end.

(** [posixpath.basename]: what follows the last separator. *)
Fixpoint basename (p : string) : string :=
  match p with
  | EmptyString => EmptyString
  | String c r =>
      if contains_char sep r then basename r
      else if is_sep c then r else p
  end.

(** The part of [p] up to and including its last separator. *)
Fixpoint head_of (p : string) : string :=
  match p with
  | EmptyString => EmptyString
  | String c r =>
      if contains_char sep r then String c (head_of r)
      else if is_sep c then String c EmptyString else EmptyString
  end.

(** [posixpath.dirname]: the head, without its trailing separators unless
    it consists of separators only. *)
Definition dirname (p : string) : string :=
  let head := head_of p in
  if is_empty (rstrip_sep head) then head else rstrip_sep head.

(** [posixpath.join(a, b)] *)
Definition join (a b : string) : string :=
  if startswith (String sep EmptyString) b then b
  else if is_empty a || endswith_sep a then a ++ b
  else a ++ String sep b.

End OS.

(** ** [TimeStreamImage], files and the helpers of [timestream.parse]
    ([timestream/__init__.py], lines 573-867) *)

Module Frame.
Import OS.

(** A [datetime], as a count of seconds. *)
Definition datetime := Z.

(** The values the archive code tests with [isinstance] or [is None]. *)
Inductive pyval :=
  | PyNone
  | PyInt (n : Z)
  | PyStr (s : string)
  | PyDatetime (d : datetime).

Definition of_opt_str (o : option string) : pyval :=
  match o with Some s => PyStr s | None => PyNone end.

(** A [dict] of image metadata. *)
Definition metadata := gmap string string.

Record TimeStreamImage := mkTSI {
  _datetime : option datetime;
  _timestream : option nat;
  _path : option string;
  _pixels : option Pots.ndarray3;
  _ipm : option Pots.addr;
  data : metadata
}.

(** [TimeStreamImage()] with no timestamp (lines 587-600). *)
Definition blank_image : TimeStreamImage :=
  mkTSI None None None None None ∅.

(** What a file holds. *)
Inductive fcontent :=
  | FImage (px : Pots.ndarray3)
  | FImageData (d : gmap string metadata)
  | FData (d : metadata)
  | FPickle (img : TimeStreamImage)
  | FOther.

Record filesystem := mkFS {
  dirs : gset string;
  files : gmap string fcontent
}.

Definition isdir (f : filesystem) (p : string) : bool := bool_decide (p ∈ dirs f).
Definition isfile (f : filesystem) (p : string) : bool :=
  match files f !! p with Some _ => true | None => false end.
Definition exists_ (f : filesystem) (p : string) : bool := isdir f p || isfile f p.

Definition msg_exists : string := "File exists".
Definition msg_noent : string := "No such file or directory".
Definition msg_isdir : string := "Is a directory".

(** [os.mkdir(p)] *)
Definition mkdir (p : string) (f : filesystem) : result filesystem :=
  if exists_ f p then Raise (OSError msg_exists)
  else if isdir f (dirname p) then Ok (mkFS ({[p]} ∪ dirs f) (files f))
  else Raise (OSError msg_noent).

(** [os.makedirs(p)], called only on a path that does not exist: [p]
    and every missing ancestor become directories. *)
Fixpoint makedirs_upto (n : nat) (p : string) (f : filesystem) : filesystem :=
  match n with
  | O => f
  | S k =>
      if exists_ f p || is_empty p then f
      else let f' := makedirs_upto k (dirname p) f in
           mkFS ({[p]} ∪ dirs f') (files f')
  end.
Definition makedirs (p : string) (f : filesystem) : filesystem :=
  makedirs_upto (S (String.length p)) p f.

(** [open(p, "w")] followed by a dump of [c]. *)
Definition write_file (p : string) (c : fcontent) (f : filesystem) : result filesystem :=
  if isdir f p then Raise (IOError msg_isdir)
  else if isdir f (dirname p) then Ok (mkFS (dirs f) (<[p := c]> (files f)))
  else Raise (IOError msg_noent).

(** [os.remove(p)] on a file. *)
Definition remove (p : string) (f : filesystem) : filesystem :=
  mkFS (dirs f) (delete p (files f)).

(** The functions and the table of [timestream.parse],
    [timestream.parse.validate] and [timestream.util.imgmeta] that the
    archive code calls, and the lazy read behind the [pixels] property,
    which goes through the image codecs.  They are taken as given. *)
Class Externals := {
  (** [_ts_date_to_path(ts_name, ts_ext, date, n=0)] *)
  ts_date_to_path : pyval -> pyval -> pyval -> Z -> result string;
  (** [ts_format_date(date)] *)
  ts_format_date : pyval -> result string;
  (** [ts_parse_date(date)] *)
  ts_parse_date : pyval -> result datetime;
  (** [ts_parse_date_path(path)], and [get_exif_date(path)] when that
      raises [ValueError] *)
  date_of_path : filesystem -> string -> result (option datetime);
  (** [IMAGE_EXT_TO_TYPE] *)
  IMAGE_EXT_TO_TYPE : string -> option string;
  (** the [pixels] property of an image whose [_pixels] is [None]
      (lines 797-805): it reads files and changes the image only *)
  load_pixels : filesystem -> TimeStreamImage
                -> TimeStreamImage * result (option Pots.ndarray3)
}.

Definition with_datetime v (i : TimeStreamImage) : TimeStreamImage :=
  mkTSI v (_timestream i) (_path i) (_pixels i) (_ipm i) (data i).
Definition with_timestream v (i : TimeStreamImage) : TimeStreamImage :=
  mkTSI (_datetime i) v (_path i) (_pixels i) (_ipm i) (data i).
Definition with_path v (i : TimeStreamImage) : TimeStreamImage :=
  mkTSI (_datetime i) (_timestream i) v (_pixels i) (_ipm i) (data i).
Definition with_pixels v (i : TimeStreamImage) : TimeStreamImage :=
  mkTSI (_datetime i) (_timestream i) (_path i) v (_ipm i) (data i).
Definition with_data v (i : TimeStreamImage) : TimeStreamImage :=
  mkTSI (_datetime i) (_timestream i) (_path i) (_pixels i) (_ipm i) v.

(** Python truth of a string-or-[None] attribute, and of a value. *)
Definition truthy (o : option string) : bool :=
  match o with Some s => negb (is_empty s) | None => false end.
Definition truthy_val (v : pyval) : bool :=
  match v with
  | PyNone => false
  | PyInt n => negb (n =? 0)
  | PyStr s => negb (is_empty s)
  | PyDatetime _ => true
  end.

(** An image and the file system its methods read and write. *)
Record image_state := mkIS {
  ifs : filesystem;
  img : TimeStreamImage
}.
Definition ImageM (T : Type) : Type := SE image_state T.

Definition get_img : ImageM TimeStreamImage := fun s => (s, Ok (img s)).
Definition modify_img (f : TimeStreamImage -> TimeStreamImage) : ImageM unit :=
  fun s => (mkIS (ifs s) (f (img s)), Ok tt).
Definition get_ifs : ImageM filesystem := fun s => (s, Ok (ifs s)).
Definition put_ifs (f : filesystem) : ImageM unit := fun s => (mkIS f (img s), Ok tt).

Definition msg_img_path_str : string := "Image path must be an instance of str.".
Definition msg_pixels_unset : string := "Image pixels must be set to write".
Definition msg_path_exists : string := "Path exists and overwrite is False".
Definition msg_no_strip : string := "'ImagePotMatrix' object has no attribute 'strip'".
Definition msg_none_path : string := "expected a path, got None".
Definition msg_none_attr_path : string := "'NoneType' object has no attribute 'endswith'".

Section WithExternals.
Context {E : Externals}.

(** [TimeStreamImage(dt=dt)] (lines 587-600). *)
Definition image_init (dt : pyval) : result TimeStreamImage :=
  if truthy_val dt
  then rbind (ts_parse_date dt) (fun d => Ok (with_datetime (Some d) blank_image))
  else Ok blank_image.

(** The [datetime] property (lines 760-772). *)
Definition datetime_get : ImageM pyval :=
  i <- get_img ;;
  match _datetime i with
  | Some d => ret (PyDatetime d)
  | None =>
      match _path i with
      | Some p =>
          if is_empty p then ret PyNone
          else
            f <- get_ifs ;;
            od <- lift (date_of_path f p) ;;
            modify_img (with_datetime od) ;;;
            ret (match od with Some d => PyDatetime d | None => PyNone end)
      | None => ret PyNone
      end
  end.

(** The [pixels] property (lines 783-805). *)
Definition pixels_get : ImageM (option Pots.ndarray3) :=
  fun s =>
    match _pixels (img s) with
    | Some px => (s, Ok (Some px))
    | None => let (i', r) := load_pixels (ifs s) (img s) in (mkIS (ifs s) i', r)
    end.

End WithExternals.

(** The [path] setter (lines 712-720). *)
Definition image_set_path (img_path : pyval) : ImageM unit :=
  match img_path with
  | PyStr p => modify_img (with_path (Some p))
  | _ => raise (TypeError msg_img_path_str)
  end.

(** The [parent_timestream] setter (lines 745-758); [ts] is the archive
    object, by its identity, or [None]. *)
Definition set_parent_timestream (ts : option nat) : ImageM unit :=
  match ts with
  | Some _ => modify_img (with_path None) ;;; modify_img (with_timestream ts)
  | None => modify_img (with_timestream None)
  end.

(** [strip] (lines 820-824): pot.py gives [ImagePotMatrix] no [strip]. *)
Definition strip : ImageM unit :=
  modify_img (with_pixels None) ;;;
  i <- get_img ;;
  match _ipm i with
  | Some _ => raise (AttributeError msg_no_strip)
  | None => ret tt
  end.

(** [write(fpath, overwrite)] (lines 628-662), for an [fpath] that is a
    string.  [cv2.imwrite] stores the pixels when the target is not a
    directory and reports failure without raising. *)
Definition image_write (fpath : string) (overwrite : bool) : ImageM unit :=
  i <- get_img ;;
  target <- (if is_empty fpath then
               match _path i with
               | Some p => ret p
               | None => raise (TypeError msg_none_path)
               end
             else ret fpath) ;;
  match _pixels i with
  | None => raise (RuntimeError msg_pixels_unset)
  | Some px =>
      f <- get_ifs ;;
      if exists_ f target && negb overwrite then raise (RuntimeError msg_path_exists)
      else
        (if isfile f target then put_ifs (remove target f) else ret tt) ;;;
        f1 <- get_ifs ;;
        (if negb (exists_ f1 (dirname target)) then
           if is_empty (dirname target) then raise (OSError msg_noent)
           else put_ifs (makedirs (dirname target) f1)
         else ret tt) ;;;
        f2 <- get_ifs ;;
        (if isdir f2 target then ret tt
         else put_ifs (mkFS (dirs f2) (<[target := FImage px]> (files f2)))) ;;;
        image_set_path (PyStr target)
  end.

End Frame.

(** ** [TimeStream] ([timestream/__init__.py], lines 82-470) *)

Module Archive.
Import OS.
Export Frame.

Record TimeStream := mkTS {
  _version : option Z;
  _path : option string;
  _name : option string;
  start_datetime : option datetime;
  end_datetime : option datetime;
  image_type : option string;
  extension : option string;
  interval : option Z;
  image_data : gmap string metadata;
  data : metadata;
  image_db_path : option string;
  db_path : option string;
  data_dir : option string
}.

(** [TimeStream()] (lines 84-101), with no version given. *)
Definition new_timestream : TimeStream :=
  mkTS None None None None None None None None ∅ ∅ None None None.

Definition with_version v (t : TimeStream) : TimeStream :=
  mkTS v (_path t) (_name t) (start_datetime t) (end_datetime t) (image_type t)
       (extension t) (interval t) (image_data t) (data t) (image_db_path t)
       (db_path t) (data_dir t).
Definition with_name v (t : TimeStream) : TimeStream :=
  mkTS (_version t) (_path t) v (start_datetime t) (end_datetime t) (image_type t)
       (extension t) (interval t) (image_data t) (data t) (image_db_path t)
       (db_path t) (data_dir t).
Definition with_path_datadir p d (t : TimeStream) : TimeStream :=
  mkTS (_version t) p (_name t) (start_datetime t) (end_datetime t) (image_type t)
       (extension t) (interval t) (image_data t) (data t) (image_db_path t)
       (db_path t) d.
Definition with_db_paths i d (t : TimeStream) : TimeStream :=
  mkTS (_version t) (_path t) (_name t) (start_datetime t) (end_datetime t)
       (image_type t) (extension t) (interval t) (image_data t) (data t) i d
       (data_dir t).
Definition with_extension v (t : TimeStream) : TimeStream :=
  mkTS (_version t) (_path t) (_name t) (start_datetime t) (end_datetime t)
       (image_type t) v (interval t) (image_data t) (data t) (image_db_path t)
       (db_path t) (data_dir t).
Definition with_start v (t : TimeStream) : TimeStream :=
  mkTS (_version t) (_path t) (_name t) v (end_datetime t) (image_type t)
       (extension t) (interval t) (image_data t) (data t) (image_db_path t)
       (db_path t) (data_dir t).
Definition with_end v (t : TimeStream) : TimeStream :=
  mkTS (_version t) (_path t) (_name t) (start_datetime t) v (image_type t)
       (extension t) (interval t) (image_data t) (data t) (image_db_path t)
       (db_path t) (data_dir t).
Definition with_image_type v (t : TimeStream) : TimeStream :=
  mkTS (_version t) (_path t) (_name t) (start_datetime t) (end_datetime t) v
       (extension t) (interval t) (image_data t) (data t) (image_db_path t)
       (db_path t) (data_dir t).
Definition with_image_data v (t : TimeStream) : TimeStream :=
  mkTS (_version t) (_path t) (_name t) (start_datetime t) (end_datetime t)
       (image_type t) (extension t) (interval t) v (data t) (image_db_path t)
       (db_path t) (data_dir t).

(** The archive object and the file system it lives on. *)
Record archive_state := mkAS {
  ts : TimeStream;
  fs : filesystem
}.

Definition ArchiveM (T : Type) : Type := SE archive_state T.

Definition modify_ts (f : TimeStream -> TimeStream) : ArchiveM unit :=
  fun s => (mkAS (f (ts s)) (fs s), Ok tt).
Definition get_ts : ArchiveM TimeStream := fun s => (s, Ok (ts s)).
Definition get_fs : ArchiveM filesystem := fun s => (s, Ok (fs s)).
Definition put_fs (f : filesystem) : ArchiveM unit := fun s => (mkAS (ts s) f, Ok tt).
(** A file-system call that can raise. *)
Definition fs_call (op : filesystem -> result filesystem) : ArchiveM unit :=
  fun s => match op (fs s) with
           | Ok f => (mkAS (ts s) f, Ok tt)
           | Raise e => (s, Raise e)
           end.

(** A statement that leaves the archive's name as it was. *)
Definition keeps_name {T} (m : ArchiveM T) : Prop :=
  forall s, _name (ts (fst (m s))) = _name (ts s).

Definition msg_version : string := "Invalid TimeStream version. Must be an int, 1 or 2".
Definition msg_name_str : string := "Timestream name must be a str".
Definition msg_name_underscore : string := "Timestream name can't contain _.".
Definition msg_path_str : string := "Timestream path must be a str".
Definition msg_parent : string := "Cannot create. Parent dir doesn't exist".
Definition msg_ext : string := "Invalid image ext".

(** The [version] setter (lines 117-124). *)
Definition set_version (version : pyval) : ArchiveM unit :=
  match version with
  | PyInt v =>
      if (v <? 1) || (2 <? v) then raise (ValueError msg_version)
      else modify_ts (with_version (Some v))
  | _ => raise (ValueError msg_version)
  end.

(** The [name] setter (lines 130-140). *)
Definition set_name (name : pyval) : ArchiveM unit :=
  match name with
  | PyStr n =>
      if contains_char "_"%char n then raise (ValueError msg_name_underscore)
      else modify_ts (with_name (Some n))
  | _ => raise (TypeError msg_name_str)
  end.

(** Lines 154-161 and 201-208: no trailing separator, and a leading
    [./] on a relative path. *)
Definition dotslash : string := String "."%char (String sep EmptyString).
Definition normalize (ts_path : string) : string :=
  let p := rstrip_sep ts_path in
  if startswith (String sep EmptyString) p then p
  else if startswith dotslash p then p
  else dotslash ++ p.

(** The [path] setter (lines 146-168). *)
Definition set_path (ts_path : pyval) : ArchiveM unit :=
  match ts_path with
  | PyStr p0 =>
      let p := normalize p0 in
      let d := join p "_data" in
      modify_ts (with_path_datadir (Some p) (Some d)) ;;;
      f <- get_fs ;;
      (if negb (isdir f d) && isdir f p then fs_call (mkdir d) else ret tt) ;;;
      modify_ts (with_db_paths (Some (join d "image_data.json"))
                               (Some (join d "timestream_data.json")))
  | _ => raise (TypeError msg_path_str)
  end.

Section WithExternals.
Context {E : Externals}.

(** [create] (lines 193-230).  [type_] is a string or [None]; [start]
    and [end_] are datetimes. *)
Definition create (ts_path : pyval) (version : pyval) (ext : string)
    (type_ : option string) (start end_ : datetime) (name : pyval) : ArchiveM unit :=
  set_version version ;;;
  match ts_path with
  | PyStr p0 =>
      let p := normalize p0 in
      f <- get_fs ;;
      if negb (exists_ f (dirname p)) then raise (ValueError msg_parent)
      else
        t <- get_ts ;;
        (if negb (exists_ f p) then
           match _version t with
           | Some 1 => fs_call (mkdir p)
           | _ => ret tt
           end
         else ret tt) ;;;
        set_path (PyStr p) ;;;
        modify_ts (with_extension (Some ext)) ;;;
        modify_ts (with_start (Some start)) ;;;
        modify_ts (with_end (Some end_)) ;;;
        match name with
        | PyNone => set_name (PyStr (basename p))
        | _ => ret tt
        end ;;;
        if truthy type_ then modify_ts (with_image_type type_)
        else match IMAGE_EXT_TO_TYPE ext with
             | Some ty => modify_ts (with_image_type (Some ty))
             | None => raise (ValueError msg_ext)
             end
  | _ => raise (TypeError msg_path_str)
  end.

End WithExternals.

(** *** Writing images *)

(** The archive, its file system, and the image handed to [write_image],
    which the call may change too. *)
Record write_state := mkWS {
  arch : archive_state;
  wimg : TimeStreamImage
}.
Definition WriteM (T : Type) : Type := SE write_state T.

Definition on_archive {T} (m : ArchiveM T) : WriteM T :=
  fun s => let (a', r) := m (arch s) in (mkWS a' (wimg s), r).
Definition on_image {T} (m : ImageM T) : WriteM T :=
  fun s => let (i', r) := m (mkIS (fs (arch s)) (wimg s)) in
           (mkWS (mkAS (ts (arch s)) (ifs i')) (img i'), r).

Definition msg_wi_name : string := "write_image() must be called on instance with valid name".
Definition msg_wi_path : string := "write_image() must be called on instance with valid path".
Definition msg_wi_mode_str : string := "overwrite_mode must be a str".
Definition msg_wi_mode : string := "Invalid overwrite_mode.".
Definition msg_wi_pixels : string := "Image must have pixels to be able to be written".
Definition msg_wi_too_many : string := "Too many images at timepoint".
Definition msg_wi_exists : string := "Image already exists".
Definition msg_v2 : string := "v2 timestreams not implemented yet".
Definition msg_v2_meta : string := "v2 metadata not implemented".
Definition msg_wm_path : string := "write_metadata() must be called on instance with valid path".
Definition msg_cmp : string := "can't compare datetime.datetime to NoneType".
Definition msg_pickle_exists : string := "File exists and overwrite is False".

Definition overwrite_modes : list string := ["skip"; "increment"; "overwrite"; "raise"].

(** [a > b] and [a < b] between [image.datetime] and a bound of the
    archive: a datetime and [None] do not compare. *)
Definition py_gt (a b : pyval) : result bool :=
  match a, b with
  | PyDatetime x, PyDatetime y => Ok (y <? x)
  | PyNone, PyNone => Ok false
  | _, _ => Raise (TypeError msg_cmp)
  end.
Definition py_lt (a b : pyval) : result bool := py_gt b a.

Definition of_opt_dt (o : option datetime) : pyval :=
  match o with Some d => PyDatetime d | None => PyNone end.
Definition to_opt_dt (v : pyval) : option datetime :=
  match v with PyDatetime d => Some d | _ => None end.

(** [path.join(a, b)] where [a] may be [None]. *)
Definition join_opt (a : option string) (b : string) : result string :=
  match a with
  | Some p => Ok (join p b)
  | None => Raise (AttributeError msg_none_attr_path)
  end.

(** [write_metadata] (lines 335-346). *)
Definition write_metadata : ArchiveM unit :=
  t <- get_ts ;;
  if negb (truthy (_path t)) then raise (RuntimeError msg_wm_path)
  else match _version t with
       | Some 1 =>
           match image_db_path t, db_path t with
           | Some ip, Some dp =>
               fs_call (write_file ip (FImageData (image_data t))) ;;;
               fs_call (write_file dp (FData (data t)))
           | _, _ => raise (TypeError msg_none_path)
           end
       | _ => raise (NotImplementedError msg_v2_meta)
       end.

Section WithExternals2.
Context {E : Externals}.

(** [load_pickled_image] (lines 321-333). *)
Definition load_pickled_image (t : TimeStream) (f : filesystem) (dt : pyval)
  : result (option TimeStreamImage) :=
  rbind (ts_date_to_path (of_opt_str (_name t)) (PyStr "p") dt 0) (fun rel =>
  rbind (join_opt (data_dir t) rel) (fun pPath =>
  match files f !! pPath with
  | Some (FPickle i) => Ok (Some i)
  | _ => Ok None
  end)).

(** [write_pickled_image] (lines 297-319). *)
Definition write_pickled_image (overwrite : bool) : WriteM unit :=
  t <- on_archive get_ts ;;
  dt <- on_image datetime_get ;;
  rel <- lift (ts_date_to_path (of_opt_str (_name t)) (PyStr "p") dt 0) ;;
  pPath <- lift (join_opt (data_dir t) rel) ;;
  f <- on_archive get_fs ;;
  if isfile f pPath && negb overwrite then raise (RuntimeError msg_pickle_exists)
  else
    on_image strip ;;;
    (if negb (exists_ f (dirname pPath)) then
       if is_empty (dirname pPath) then raise (OSError msg_noent)
       else on_archive (put_fs (makedirs (dirname pPath) f))
     else ret tt) ;;;
    i <- on_image get_img ;;
    on_archive (fs_call (write_file pPath (FPickle i))).

(** The loop of the [increment] mode (lines 266-270); [n] bounds the
    tests of its condition, which the counter lets pass 100 times at most.  The call in its body passes three arguments: the name,
    [image.datetime] where the extension goes, and the counter where the
    date goes; its result is not joined to [self.path]. *)
Fixpoint increment_loop (n : nat) (subsec : Z) (fpath : string) : WriteM (Z * string) :=
  match n with
  | O => ret (subsec, fpath)
  | S k =>
      f <- on_archive get_fs ;;
      if exists_ f fpath && (subsec <? 100) then
        t <- on_archive get_ts ;;
        dt <- on_image datetime_get ;;
        p <- lift (ts_date_to_path (of_opt_str (_name t)) dt (PyInt (subsec + 1)) 0) ;;
        increment_loop k (subsec + 1) p
      else ret (subsec, fpath)
  end.

(** Lines 283-292: what [write_image] does once it has settled on
    [fpath]. *)
Definition commit_image (fpath : string) : WriteM unit :=
  t <- on_archive get_ts ;;
  dt1 <- on_image datetime_get ;;
  later <- lift (py_gt dt1 (of_opt_dt (end_datetime t))) ;;
  (if later : bool then
     dt <- on_image datetime_get ;;
     on_archive (modify_ts (with_end (to_opt_dt dt)))
   else ret tt) ;;;
  t2 <- on_archive get_ts ;;
  dt2 <- on_image datetime_get ;;
  earlier <- lift (py_lt dt2 (of_opt_dt (start_datetime t2))) ;;
  (if earlier : bool then
     dt <- on_image datetime_get ;;
     on_archive (modify_ts (with_start (to_opt_dt dt)))
   else ret tt) ;;;
  dt3 <- on_image datetime_get ;;
  key <- lift (ts_format_date dt3) ;;
  i <- on_image get_img ;;
  on_archive (modify_ts (fun t => with_image_data (<[key := Frame.data i]> (image_data t)) t)) ;;;
  on_archive write_metadata ;;;
  on_image (image_write fpath true) ;;;
  write_pickled_image true.

(** [write_image(image, overwrite_mode)] (lines 232-295). *)
Definition write_image (overwrite_mode : pyval) : WriteM unit :=
  t <- on_archive get_ts ;;
  if negb (truthy (_name t)) then raise (RuntimeError msg_wi_name)
  else if negb (truthy (_path t)) then raise (RuntimeError msg_wi_path)
  else
    match overwrite_mode with
    | PyStr mode =>
        if negb (bool_decide (mode ∈ overwrite_modes)) then raise (ValueError msg_wi_mode)
        else
          px <- on_image pixels_get ;;
          match px with
          | None => raise (ValueError msg_wi_pixels)
          | Some _ =>
              match _version t with
              | Some 1 =>
                  dt <- on_image datetime_get ;;
                  rel <- lift (ts_date_to_path (of_opt_str (_name t))
                                 (of_opt_str (extension t)) dt 0) ;;
                  fpath <- lift (join_opt (_path t) rel) ;;
                  f <- on_archive get_fs ;;
                  if exists_ f fpath then
                    if String.eqb mode "skip" then ret tt
                    else if String.eqb mode "increment" then
                      r <- increment_loop (S 100) 0 fpath ;;
                      f' <- on_archive get_fs ;;
                      if exists_ f' (snd r) then
                        dt' <- on_image datetime_get ;;
                        _ <- lift (ts_format_date dt') ;;
                        raise (ValueError msg_wi_too_many)
                      else commit_image (snd r)
                    else if String.eqb mode "overwrite" then commit_image fpath
                    else raise (ValueError msg_wi_exists)
                  else commit_image fpath
              | _ => raise (NotImplementedError msg_v2)
              end
          end
    | _ => raise (TypeError msg_wi_mode_str)
    end.

End WithExternals2.

End Archive.

(** ** [TimeStreamTraverser] ([timestream/__init__.py], lines 473-570) *)

Module Traverser.
Import OS Archive.

(** A [TimeStream] with the index of the timestamps found on disk and
    the current offset into it. *)
Record TimeStreamTraverser := mkTrav {
  base : TimeStream;
  _timestamps : list datetime;
  _offset : Z
}.

Definition with_offset (v : Z) (t : TimeStreamTraverser) : TimeStreamTraverser :=
  mkTrav (base t) (_timestamps t) v.

Definition msg_list_index : string := "list index out of range".

(** Python [l[i]] on a list. *)
Definition list_getitem {X} (l : list X) (i : Z) : result X :=
  let n := Z.of_nat (length l) in
  let j := if i <? 0 then i + n else i in
  if (j <? 0) || (n <=? j) then Raise (IndexError msg_list_index)
  else match l !! Z.to_nat j with
       | Some x => Ok x
       | None => Raise (IndexError msg_list_index)
       end.

Definition TravM (X : Type) : Type := SE TimeStreamTraverser X.

Section WithExternals.
Context {E : Externals}.

(** The [try] block of lines 564-568, on the image being prepared. *)
Definition attach_data (image_data : gmap string metadata) : ImageM unit :=
  fun s =>
    match datetime_get s with
    | (s1, Ok dt) =>
        match ts_format_date dt with
        | Ok key =>
            match image_data !! key with
            | Some d => modify_img (with_data d) s1
            | None => modify_img (with_data ∅) s1
            end
        | Raise (KeyError _) => modify_img (with_data ∅) s1
        | Raise e => (s1, Raise e)
        end
    | (s1, Raise (KeyError _)) => modify_img (with_data ∅) s1
    | (s1, Raise e) => (s1, Raise e)
    end.

(** [curr] (lines 552-570).  [self_id] is the identity of the traverser
    object, which the image keeps as its parent; [f] is the file system. *)
Definition curr (self_id : nat) (f : filesystem) : TravM TimeStreamImage :=
  fun self =>
    let t := base self in
    let r :=
      rbind (list_getitem (_timestamps self) (_offset self)) (fun time =>
      rbind (ts_date_to_path (of_opt_str (_name t)) (of_opt_str (extension t))
               (PyDatetime time) 0) (fun relpath =>
      rbind (join_opt (_path t) relpath) (fun img_path =>
      rbind (load_pickled_image t f (PyDatetime time)) (fun loaded =>
      rbind (match loaded with
             | Some i => Ok i
             | None => image_init (PyDatetime time)
             end) (fun i =>
      let prepare :=
        set_parent_timestream (Some self_id) ;;;
        image_set_path (PyStr img_path) ;;;
        attach_data (image_data t) ;;;
        get_img in
      snd (prepare (mkIS f i))))))) in
    (self, r).

(** [next] (lines 540-544). *)
Definition next (self_id : nat) (f : filesystem) : TravM TimeStreamImage :=
  fun self =>
    let self1 :=
      if _offset self =? Z.of_nat (length (_timestamps self)) - 1
      then with_offset 0 self else self in
    curr self_id f self1.

(** [prev] (lines 546-550). *)
Definition prev (self_id : nat) (f : filesystem) : TravM TimeStreamImage :=
  fun self =>
    let self1 :=
      if _offset self =? 0
      then with_offset (Z.of_nat (length (_timestamps self)) - 1) self else self in
    curr self_id f self1.

End WithExternals.

End Traverser.


(** ** [PipelineRunner.runPipeline] ([scripts/run_pipeline.py], lines 240-270) *)

Module Runner.
Import Frame.

(** What travels between stages: the frame, the exception object that
    stands in for a frame that could not be resolved, or any other
    stage output. *)
Inductive value (D : Type) :=
  | VImage (i : TimeStreamImage)
  | VError (e : exn)
  | VData (d : D).
Arguments VImage {D} i.
Arguments VError {D} e.
Arguments VData {D} d.

(** What an observer of a run sees, in order. *)
Inductive event :=
  | Progress (i : nat)
  | LogInfo (msg : string)
  | StageCalled (frame stage : nat)
  | Stopped.

Section Driver.
(** The shared context and the stage outputs. *)
Variables (C D : Type).

Record run_state := mkRS {
  rctx : C;
  trace : list event
}.
Definition RunM (T : Type) : Type := SE run_state T.

Definition emit (e : event) : RunM unit :=
  fun s => (mkRS (rctx s) (trace s ++ [e]), Ok tt).

(** A stage, [PipeComponent.__call__(context, *args)]. *)
Definition stage : Type := C -> list (value D) -> C * result (list (value D)).

Definition call_stage (st : stage) (args : list (value D)) : RunM (list (value D)) :=
  fun s => let (c', r) := st (rctx s) args in (mkRS c' (trace s), r).

(** Modelled from the spec: [ImagePipeline.process]
    ([timestream/manipulate/pipeline.py]) is not under src/.  The
    executor runs the stage list in declared order for one frame: the
    first stage receives [[frame]] as its sole positional input, each
    subsequent stage receives exactly the positional outputs of its
    predecessor, and a stage that fails ends the run for that frame.
    Every call of a stage is recorded. *)
Fixpoint process_from (frame k : nat) (stages : list stage) (args : list (value D))
  : RunM (list (value D)) :=
  match stages with
  | [] => ret args
  | st :: rest =>
      emit (StageCalled frame k) ;;;
      out <- call_stage st args ;;
      process_from frame (S k) rest out
  end.

Definition process (frame : nat) (stages : list stage) (args : list (value D))
  : RunM (list (value D)) :=
  process_from frame 0 stages args.

(** The stages of a list run one after the other on the context, each
    on the outputs of the one before, up to the first that raises. *)
Fixpoint run_stages (stages : list stage) (c : C) (args : list (value D))
  : C * result (list (value D)) :=
  match stages with
  | [] => (c, Ok args)
  | st :: rest =>
      match st c args with
      | (c', Ok out) => run_stages rest c' out
      | (c', Raise e) => (c', Raise e)
      end
  end.

(** The calls of stages [k], ..., [k + n - 1] on one frame. *)
Definition calls (frame k n : nat) : list event :=
  StageCalled frame <$> seq k n.

(** [ts.getImgByTimeStamp(timestamp, update_index=True)], which the
    sources at hand do not define: it returns the frame or raises. *)
Variable getImgByTimeStamp : Z -> result TimeStreamImage.
(** Whether [self.running] is still set when it is tested after frame
    [i]; it is cleared from outside the loop. *)
Variable running_after : nat -> bool.
Variable stages : list stage.

Definition msg_process : string := "Process ...".
Definition msg_done : string := "Done".

(** Lines 251-258: resolving the frame of one timestamp. *)
Definition resolve (timestamp : Z) : RunM (value D) :=
  match getImgByTimeStamp timestamp with
  | Ok im =>
      emit (LogInfo msg_process) ;;;
      ret (VImage (with_timestream None im))
  | Raise (PCException m) => ret (VError (PCException m))
  | Raise e => raise e
  end.

(** The loop of lines 247-267 from index [i] on, over the timestamps
    that remain. *)
Fixpoint run_from (prsig : bool) (i : nat) (timestamps : list Z) : RunM unit :=
  match timestamps with
  | [] => ret tt
  | timestamp :: rest =>
      (if prsig then emit (Progress i) else ret tt) ;;;
      v <- resolve timestamp ;;
      fun s =>
        match process i stages [v] s with
        | (s', Ok _) =>
            if running_after i then run_from prsig (S i) rest s' else (s', Ok tt)
        | (s', Raise (PCException msg)) =>
            (emit (LogInfo msg) ;;; run_from prsig (S i) rest) s'
        | (s', Raise e) => (s', Raise e)
        end
  end.

(** [runPipeline] (lines 245-270). *)
Definition runPipeline (timestamps : list Z) (prsig stsig : bool) : RunM unit :=
  run_from prsig 0 timestamps ;;;
  emit (LogInfo msg_done) ;;;
  if stsig then emit Stopped else ret tt.

End Driver.

End Runner.

(** ** Sample objects *)

Module Samples.
Import Arr Pots.

(** A black 30 x 30 RGB image. *)
Definition im30 : ndarray3 := mkImage (mkArr (replicate 30 (replicate 30 [0; 0; 0])) 30) 3.

(** A segmenter that finds nothing: an all-zero mask over its input. *)
Definition seg_blank : PotSegmenter :=
  fun img => zeros (length (rows img)) (ncols img).

Definition rect_a : Rect.ImagePotRectangle := Rect.mkRect [10; 10; 20; 20] 30 30.
Definition rect_b : Rect.ImagePotRectangle := Rect.mkRect [2; 3; 9; 7] 30 30.

(** One handler, at address 0. *)
Definition store_one : store :=
  run_calls [NewHandler 1 rect_a im30 (Some seg_blank) RNone] empty_store.

(** The handler at address 1 has the one at address 0 as predecessor. *)
Definition store_pair : store :=
  run_calls [NewHandler 1 rect_b im30 (Some seg_blank) RNone;
             NewHandler 1 rect_a im30 (Some seg_blank) (RHandler 0)] empty_store.

(** Three handlers; 2 is linked to 1 at construction, then 0 is set as
    the predecessor of 1. *)
Definition store_chain : store :=
  run_calls [NewHandler 1 rect_a im30 None RNone;
             NewHandler 1 rect_a im30 None RNone;
             NewHandler 1 rect_a im30 None (RHandler 1);
             SetIphPrev 1 (RHandler 0)] empty_store.

(** Two matrices; 1 is constructed on top of 0. *)
Definition store_matrices : store :=
  run_calls [NewMatrix im30 [] 100 RNone;
             NewMatrix im30 [] 100 (RMatrix 0)] empty_store.

(** *** A reference instance of the helpers *)

Import OS Frame Archive Traverser.

(** Modelled from the spec: [_ts_date_to_path] ([timestream.parse]) is
    not under src/.  It is the deterministic timestamp-to-filename
    encoding of format version 1: the name, the timestamp, the
    sub-second counter and the extension make the file name.  Here it
    accepts a string name, a string extension and a datetime, and
    refuses anything else. *)
Definition sample_date_to_path (ts_name ts_ext date : pyval) (n : Z) : result string :=
  match ts_name, ts_ext, date with
  | PyStr nm, PyStr ext, PyDatetime d =>
      Ok (nm +:+ "_" +:+ pretty d +:+ "_" +:+ pretty n +:+ "." +:+ ext)
  | _, _, _ => Raise (AttributeError "object has no attribute 'strftime'")
  end.

(** Modelled from the spec: [ts_format_date] gives the formatted
    timestamp string that keys the per-frame metadata. *)
Definition sample_format_date (date : pyval) : result string :=
  match date with
  | PyDatetime d => Ok (pretty d)
  | _ => Raise (AttributeError "object has no attribute 'strftime'")
  end.

(** Modelled from the spec: the timestamp of a frame is its authoritative
    key; [ts_parse_date] returns a datetime as it is. *)
Definition sample_parse_date (date : pyval) : result datetime :=
  match date with
  | PyDatetime d => Ok d
  | _ => Raise (ValueError "not a date")
  end.

Definition sample_ext_to_type (ext : string) : option string :=
  if String.eqb ext "png" then Some "png"
  else if String.eqb ext "jpg" then Some "jpg"
  else None.

Instance sample_externals : Externals := {
  ts_date_to_path := sample_date_to_path;
  ts_format_date := sample_format_date;
  ts_parse_date := sample_parse_date;
  date_of_path := fun _ _ => Ok None;
  IMAGE_EXT_TO_TYPE := sample_ext_to_type;
  load_pixels := fun _ i => (i, Raise (RuntimeError "no path to read pixels from"))
}.

(** An archive called [ts] at [/data/ts] holding one frame, taken at
    second 60. *)
Definition ts1 : TimeStream :=
  mkTS (Some 1) (Some "/data/ts") (Some "ts") (Some 0) (Some 120) (Some "png")
       (Some "png") (Some 60) ∅ ∅ (Some "/data/ts/_data/image_data.json")
       (Some "/data/ts/_data/timestream_data.json") (Some "/data/ts/_data").

Definition fs1 : filesystem :=
  mkFS {["/"; "/data"; "/data/ts"; "/data/ts/_data"]}
       {["/data/ts/ts_60_0.png" := FImage im30]}.

Definition frame60 : TimeStreamImage :=
  mkTSI (Some 60) None None (Some im30) None ∅.

Definition write1 : write_state := mkWS (mkAS ts1 fs1) frame60.

(** A traverser over the timestamps 0, 60 and 120 of that archive. *)
Definition trav_at (offset : Z) : TimeStreamTraverser := mkTrav ts1 [0; 60; 120] offset.

(** An empty directory tree in which [/data] exists. *)
Definition fs0 : filesystem := mkFS {["/"; "/data"]} ∅.

(** *** A three-stage pipeline whose second stage fails *)

(** The context counts the stages that ran. *)
Definition stage_ok : Runner.stage nat unit := fun c args => (S c, Ok args).
Definition stage_bad : Runner.stage nat unit :=
  fun c _ => (S c, Raise (PCException "stage 2 failed")).
Definition three_stages : list (Runner.stage nat unit) := [stage_ok; stage_bad; stage_ok].
Definition get_blank (timestamp : Z) : result TimeStreamImage :=
  Ok (mkTSI (Some timestamp) (Some 7%nat) None None None ∅).
Definition never_cancelled (i : nat) : bool := true.

End Samples.


(** ** More of [ImagePotHandler] and [ImagePotMatrix] (pot.py) *)

Module PotsMore.
Import Arr Pots.

(** What can be assigned to the [mask] property: an [ndarray] of dtype
    float64, or anything else. *)
Inductive mask_value :=
  | MVFloat64 (m : ndarray2 Z)
  | MVOther.

Definition msg_mask : string := "Invalid mask assigment".

(** The [mask] setter (lines 265-271). *)
Definition set_mask (self : addr) (m : mask_value) : M unit :=
  h <- get_handler self ;;
  match m with
  | MVFloat64 a =>
      if bool_decide (shape a = shape (_mask h))
      then put_handler self (with_mask a h)
      else raise (ValueError msg_mask)
  | MVOther => raise (ValueError msg_mask)
  end.

(** An element of [pots] the loop of the constructor passes over: not
    a matrix, and not a list of two or four numbers. *)
Definition passed_over (p : potarg) : Prop :=
  match p with
  | PMatrixArg _ => False
  | PListArg l => length l <> 2%nat /\ length l <> 4%nat
  | POtherArg => True
  end.

(** A statement that writes no matrix. *)
Definition keeps_matrices {A} (m : M A) : Prop :=
  forall s, matrices (fst (m s)) = matrices s.

End PotsMore.

(** ** More of [TimeStream] *)

Module ArchiveMore.
Import OS Frame Archive.

(** The archive as [create] leaves it before it settles the image type,
    on a path where nothing exists yet. *)
Definition created (p ext : string) (start end_ : datetime) (s : archive_state)
  : archive_state :=
  let d := p +:+ String sep "_data" in
  mkAS (with_name (Some (basename p))
         (with_end (Some end_)
           (with_start (Some start)
             (with_extension (Some ext)
               (with_db_paths (Some (join d "image_data.json"))
                              (Some (join d "timestream_data.json"))
                 (with_path_datadir (Some p) (Some d)
                   (with_version (Some 1) (ts s))))))))
       (mkFS ({[d]} ∪ ({[p]} ∪ dirs (fs s))) (files (fs s))).

End ArchiveMore.

(** ** [TimeStreamImage.pickledump] and [pickleload] *)

Module Pickle.
Import OS Frame.

Definition msg_filepath_str : string := "Filepath should be a string".
Definition msg_no_overwrite : string := "File exists and we should not overwrite".
Definition msg_not_found : string := "File not found".
Definition msg_bad_descriptor : string := "Bad file descriptor".

(** [pickledump(tsi, filepath, overwrite)] (lines 826-846), for a [tsi]
    that is a [TimeStreamImage]. *)
Definition pickledump (filepath : pyval) (overwrite : bool) : ImageM unit :=
  match filepath with
  | PyStr p =>
      f <- get_ifs ;;
      if exists_ f p && negb overwrite then raise (RuntimeError msg_no_overwrite)
      else
        strip ;;;
        i <- get_img ;;
        f1 <- get_ifs ;;
        match write_file p (FPickle i) f1 with
        | Ok f2 => put_ifs f2
        | Raise e => raise e
        end
  | _ => raise (TypeError msg_filepath_str)
  end.

(** [pickleload(filepath)] (lines 848-866).  The file is opened with
    mode ["w"], which empties it, and [cPickle.load] then reads from a
    file that is not open for reading. *)
Definition pickleload (filepath : pyval) : SE filesystem TimeStreamImage :=
  match filepath with
  | PyStr p =>
      fun f =>
        if negb (exists_ f p) then (f, Raise (RuntimeError msg_not_found))
        else match write_file p FOther f with
             | Ok f' => (f', Raise (IOError msg_bad_descriptor))
             | Raise e => (f, Raise e)
             end
  | _ => raise (TypeError msg_filepath_str)
  end.

End Pickle.

(** ** [PipeComponent.__init__] ([timestream/manipulate/pipecomponents.py],
    lines 31-56) *)

Module Component.
Import Frame.

(** An entry of [argNames]: the list [[required, description]] or
    [[required, description, default]]. *)
Record argspec (V : Type) := mkArg {
  arg_required : bool;
  arg_description : string;
  arg_default : option V
}.
Arguments mkArg {V} _ _ _.
Arguments arg_required {V} _.
Arguments arg_description {V} _.
Arguments arg_default {V} _.

Definition msg_index_range : string := "list index out of range".
Definition msg_bad_run_expects : string := "The call should consider its arguments".

Section Init.
(** The values of keyword arguments and attributes. *)
Variable V : Type.

(** One turn of the loop of [__init__] (lines 48-56), on the attributes
    of [self]. *)
Definition init_step (kwargs : gmap string V) (entry : string * argspec V)
  : SE (gmap string V) unit :=
  fun attrs =>
    let (attrKey, attrVal) := entry in
    match kwargs !! attrKey with
    | Some v => (<[attrKey := v]> attrs, Ok tt)
    | None =>
        if negb (arg_required attrVal) then
          match arg_default attrVal with
          | Some d => (<[attrKey := d]> attrs, Ok tt)
          | None => (attrs, Raise (IndexError msg_index_range))
          end
        else (attrs, Raise (PCException msg_bad_run_expects))
    end.

(** [__init__(self, **kwargs)]; [argNames] lists the entries of the
    class dictionary in the order [iteritems] yields them. *)
Fixpoint pc_init (argNames : list (string * argspec V)) (kwargs : gmap string V)
  : SE (gmap string V) unit :=
  match argNames with
  | [] => ret tt
  | entry :: rest => init_step kwargs entry ;;; pc_init rest kwargs
  end.

(** An entry the loop gets past: its argument is given, or it is
    optional and has a default. *)
Definition supplied (kwargs : gmap string V) (entry : string * argspec V) : Prop :=
  is_Some (kwargs !! entry.1)
  \/ (arg_required entry.2 = false /\ is_Some (arg_default entry.2)).

(** The value the attribute of an entry gets. *)
Definition value_of (kwargs : gmap string V) (entry : string * argspec V) : option V :=
  match kwargs !! entry.1 with
  | Some v => Some v
  | None => arg_default entry.2
  end.

End Init.

(** The [argNames] of [Tester] (lines 103-104), [ImageColorCorrector]
    (line 217) and [ResultingImageWriter] (line 512). *)
Definition Tester_argNames : list (string * argspec pyval) :=
  [("arg1", mkArg true "Argument 1 example" None);
   ("arg2", mkArg false "Argument 2 example" (Some (PyInt 4)))].
Definition ImageColorCorrector_argNames : list (string * argspec pyval) :=
  [("mess", mkArg false "Correct image color" None)].
Definition ResultingImageWriter_argNames : list (string * argspec pyval) :=
  [("mess", mkArg false "Output Message" (Some (PyStr "Writing Image")))].

End Component.

(** ** Observations on a run of the driver *)

Module RunnerMore.
Import Runner.

(** The indices the progress signal was emitted with, in order. *)
Definition progress_of (tr : list event) : list nat :=
  omap (fun e => match e with Progress i => Some i | _ => None end) tr.

(** An outcome the loop survives: a result, or a [PCException]. *)
Definition survivable {T} (r : result T) : Prop :=
  match r with
  | Ok _ => True
  | Raise (PCException _) => True
  | Raise _ => False
  end.

End RunnerMore.

(** ** More sample objects *)

Module MoreSamples.
Import Arr Pots OS Frame Archive Traverser Samples.

(** The handler of [store_one]. *)
Definition handler_a : ImagePotHandler :=
  mkIPH 1 im30 rect_a (Some seg_blank) None (unset_mask rect_a).

(** Two trays.  Matrix 0 holds handler 0 as pot 1; matrix 1 is built on
    top of it and is still empty; handlers 1 and 2 have the ids 1 and 2
    and are in no matrix yet. *)
Definition store_trays : store :=
  run_calls [NewMatrix im30 [] 100 RNone;
             NewHandler 1 rect_b im30 (Some seg_blank) RNone;
             AddPot 0 (RHandler 0);
             NewMatrix im30 [] 100 (RMatrix 0);
             NewHandler 1 rect_a im30 (Some seg_blank) RNone;
             NewHandler 2 rect_a im30 (Some seg_blank) RNone] empty_store.

(** The frame of second 60 carrying a pot matrix. *)
Definition frame60_pots : TimeStreamImage :=
  mkTSI (Some 60) None None (Some im30) (Some 0%nat) ∅.

(** An archive without frames at [/data/ts]. *)
Definition fs_empty_archive : filesystem :=
  mkFS {["/"; "/data"; "/data/ts"; "/data/ts/_data"]} ∅.

(** A directory [/data/ts] that is not an archive yet. *)
Definition fs_ts_dir : filesystem := mkFS {["/"; "/data"; "/data/ts"]} ∅.

Definition always_cancelled (i : nat) : bool := false.

End MoreSamples.

(** * Properties *)

(** ** [ImagePotRectangle] *)

Section RectFacts.
Import Rect.

Lemma outside_false_iff a b c d w h :
  outside [a; b; c; d] w h = false <->
  (0 <= a /\ 0 <= b /\ 0 <= c /\ 0 <= d) /\
  (b <= h /\ d <= h) /\ (a <= w /\ c <= w).
Proof.
  unfold outside, np_any_lt, np_any_gt, np_take2. simpl.
  rewrite !orb_false_iff, !Z.ltb_ge. tauto.
Qed.

(** What [__init__] has checked of any rectangle it returns. *)
Lemma init_Ok_inv rectDesc imgSize growM r :
  init rectDesc imgSize growM = Ok r ->
  exists a b c d h w rest,
    _rect r = [a; b; c; d] /\ imgSize = h :: w :: rest /\
    _imgwidth r = w /\ _imgheight r = h /\ 1 <= h /\ 1 <= w /\
    outside [a; b; c; d] w h = false.
Proof.
  unfold init. intros H.
  destruct imgSize as [|h [|w rest]]; try discriminate.
  destruct ((h <? 1) || (w <? 1)) eqn:Hsz; try discriminate.
  apply orb_false_iff in Hsz as [Hh Hw].
  apply Z.ltb_ge in Hh, Hw.
  destruct rectDesc as [d|d]; try discriminate.
  destruct d as [|a [|b [|c [|d [|e l]]]]]; simpl in H; try discriminate.
  - destruct (outside _ w h) eqn:Ho; try discriminate.
    injection H as <-. simpl.
    exists (a - growM), (b - growM), (a + growM), (b + growM), h, w, rest.
    repeat split; auto.
  - destruct (outside _ w h) eqn:Ho; try discriminate.
    injection H as <-. simpl.
    exists a, b, c, d, h, w, rest. repeat split; auto.
Qed.

(** C4, as the code has it: every rectangle [__init__] returns has its
    four bounds inside the image, [0 <= left, right <= width] and
    [0 <= top, bottom <= height]; the order of [left] and [right] and of
    [top] and [bottom] is not checked. *)
Theorem init_bounds_within_image rectDesc imgSize growM r :
  init rectDesc imgSize growM = Ok r ->
  (0 <= left r <= _imgwidth r) /\ (0 <= right r <= _imgwidth r) /\
  (0 <= top r <= _imgheight r) /\ (0 <= bottom r <= _imgheight r).
Proof.
  intros H.
  destruct (init_Ok_inv _ _ _ _ H)
    as (a & b & c & d & h & w & rest & Hr & _ & Hw & Hh & _ & _ & Ho).
  apply outside_false_iff in Ho.
  unfold left, right, top, bottom, at_. rewrite Hr, Hw, Hh. simpl. lia.
Qed.

Lemma init_bounds_within_image_witness :
  exists r, init (PyList [2; 3; 7; 9]) [10; 20; 3] growM_default = Ok r /\
    (0 <= left r <= _imgwidth r) /\ (0 <= right r <= _imgwidth r) /\
    (0 <= top r <= _imgheight r) /\ (0 <= bottom r <= _imgheight r).
Proof.
  exists (mkRect [2; 3; 7; 9] 20 10). split; [reflexivity|].
  apply (init_bounds_within_image (PyList [2; 3; 7; 9]) [10; 20; 3] growM_default).
  reflexivity.
Defined.

(** C4 as stated fails: explicit corners with [left >= right] and
    [top >= bottom] are accepted when they lie inside the image. *)
Lemma init_accepts_reversed_corners :
  init (PyList [5; 5; 3; 3]) [10; 10; 3] growM_default = Ok (mkRect [5; 5; 3; 3] 10 10)
  /\ ~ (forall rectDesc imgSize growM r,
          init rectDesc imgSize growM = Ok r ->
          (0 <= left r /\ left r < right r /\ right r <= _imgwidth r) /\
          (0 <= top r /\ top r < bottom r /\ bottom r <= _imgheight r)).
Proof.
  split; [reflexivity|].
  intros H.
  specialize (H (PyList [5; 5; 3; 3]) [10; 10; 3] growM_default
                (mkRect [5; 5; 3; 3] 10 10) eq_refl).
  unfold left, right, at_ in H. simpl in H. lia.
Qed.

(** C5: a two-element descriptor [[x, y]] with a positive margin [m]
    gives exactly [[x-m, y-m, x+m, y+m]] when the four bounds lie inside
    the image, and [__init__] raises its [TypeError] when a bound is
    negative or larger than the image's width or height. *)
Theorem init_center_grow x y m h w rest :
  0 < m ->
  (0 <= x - m /\ 0 <= y - m /\ x + m <= w /\ y + m <= h ->
   init (PyList [x; y]) (h :: w :: rest) m
   = Ok (mkRect [x - m; y - m; x + m; y + m] w h))
  /\
  (x - m < 0 \/ y - m < 0 \/ x + m < 0 \/ y + m < 0 \/
   w < x - m \/ w < x + m \/ h < y - m \/ h < y + m ->
   exists msg, init (PyList [x; y]) (h :: w :: rest) m = Raise (TypeError msg)).
Proof.
  intros Hm. split.
  - intros (Hx & Hy & Hxw & Hyh).
    unfold init.
    replace ((h <? 1) || (w <? 1)) with false
      by (symmetry; apply orb_false_iff; rewrite !Z.ltb_ge; lia).
    simpl.
    replace (outside _ w h) with false; [reflexivity|].
    symmetry. apply outside_false_iff. lia.
  - intros Hout. unfold init.
    destruct ((h <? 1) || (w <? 1)); [eauto|].
    simpl.
    destruct (outside _ w h) eqn:Ho; [eauto|].
    apply outside_false_iff in Ho. lia.
Qed.

Lemma init_center_grow_witness :
  init (PyList [50; 40]) [100; 200; 3] 10 = Ok (mkRect [40; 30; 60; 50] 200 100)
  /\ exists msg, init (PyList [5; 40]) [100; 200; 3] 10 = Raise (TypeError msg).
Proof.
  split.
  - apply (init_center_grow 50 40 10 100 200 [3]); lia.
  - apply (init_center_grow 5 40 10 100 200 [3]); lia.
Defined.

(** C9: on a constructed rectangle, [__getitem__] raises its own
    [IndexError] exactly for [item < 0] and [item > 4]; index 4 passes the
    guard and is refused only by the four-element array underneath. *)
Theorem getitem_guard_admits_4 rectDesc imgSize growM r :
  init rectDesc imgSize growM = Ok r ->
  length (_rect r) = 4%nat /\
  (forall item, getitem r item = Raise (IndexError msg_range)
                <-> item < 0 \/ 4 < item) /\
  getitem r 4 = Raise (IndexError np_index_msg) /\
  (forall item, 0 <= item <= 3 -> exists v, getitem r item = Ok v).
Proof.
  intros H.
  destruct (init_Ok_inv _ _ _ _ H)
    as (a & b & c & d & h & w & rest & Hr & _).
  split; [rewrite Hr; reflexivity|].
  split; [|split].
  - intros item. unfold getitem.
    destruct ((4 <? item) || (item <? 0)) eqn:Hg.
    + apply orb_true_iff in Hg. rewrite !Z.ltb_lt in Hg. split; [lia|auto].
    + apply orb_false_iff in Hg. rewrite !Z.ltb_ge in Hg.
      split; [|lia]. intros Hne. exfalso.
      unfold np_getitem in Hne. rewrite Hr in Hne.
      assert ((item <? 0) = false) as Hi by (apply Z.ltb_ge; lia).
      rewrite !Hi in Hne. cbn [orb] in Hne.
      unfold np_index_msg, msg_range in Hne.
      destruct (_ <=? item); [discriminate|].
      destruct (_ !! Z.to_nat item); discriminate.
  - unfold getitem, np_getitem. rewrite Hr. reflexivity.
  - intros item Hi. unfold getitem, np_getitem. rewrite Hr. simpl.
    assert (item = 0 \/ item = 1 \/ item = 2 \/ item = 3) as Hc by lia.
    destruct Hc as [-> | [-> | [-> | ->]]]; simpl; eauto.
Qed.

Lemma getitem_guard_admits_4_witness :
  getitem (mkRect [2; 3; 7; 9] 20 10) 4 = Raise (IndexError np_index_msg).
Proof.
  apply (getitem_guard_admits_4 (PyList [2; 3; 7; 9]) [10; 20; 3] growM_default).
  reflexivity.
Defined.

End RectFacts.

(** ** The mask fallback of [getSegmented] *)

Section FitFacts.
Import Arr Pots.

Lemma but_first_length {A} (l : list A) : length (but_first l) = (length l - 1)%nat.
Proof. unfold but_first. apply length_drop. Qed.

Lemma but_last_length {A} (l : list A) : length (but_last l) = (length l - 1)%nat.
Proof. unfold but_last. rewrite length_take. lia. Qed.

Lemma wf_rows_from1 {A} (a : ndarray2 A) : wf a -> wf (rows_from1 a).
Proof. unfold wf, rows_from1, but_first. simpl. apply Forall_drop. Qed.

Lemma wf_rows_to_last {A} (a : ndarray2 A) : wf a -> wf (rows_to_last a).
Proof. unfold wf, rows_to_last, but_last. simpl. apply Forall_take. Qed.

Lemma wf_cols_from1 {A} (a : ndarray2 A) : wf a -> wf (cols_from1 a).
Proof.
  unfold wf, cols_from1. simpl. intros H.
  apply Forall_fmap. eapply Forall_impl; [exact H|].
  intros r Hr. cbn. rewrite but_first_length, Hr. reflexivity.
Qed.

Lemma wf_cols_to_last {A} (a : ndarray2 A) : wf a -> wf (cols_to_last a).
Proof.
  unfold wf, cols_to_last. simpl. intros H.
  apply Forall_fmap. eapply Forall_impl; [exact H|].
  intros r Hr. cbn. rewrite but_last_length, Hr. reflexivity.
Qed.

Lemma wf_pad_rows b e (a : ndarray2 Z) : wf a -> wf (pad_rows b e a).
Proof.
  unfold wf, pad_rows. simpl. intros H.
  rewrite !Forall_app. repeat split; auto;
    apply Forall_replicate; apply length_replicate.
Qed.

Lemma wf_pad_cols b e (a : ndarray2 Z) : wf a -> wf (pad_cols b e a).
Proof.
  unfold wf, pad_cols. simpl. intros H.
  apply Forall_fmap. eapply Forall_impl; [exact H|].
  intros r Hr. cbn. rewrite !length_app, !length_replicate, Hr. lia.
Qed.

(** Trimming [n] rows of an array with at least [n] rows. *)
Lemma trim_rows_spec n : forall side (pm : ndarray2 Z),
  (n <= length (rows pm))%nat -> wf pm ->
  shape (trim_rows n side pm) = ((length (rows pm) - n)%nat, ncols pm)
  /\ wf (trim_rows n side pm).
Proof.
  induction n as [|n IH]; intros side pm Hn Hwf; simpl.
  - unfold shape. split; [f_equal; lia|assumption].
  - destruct side; simpl.
    + destruct (IH false (rows_from1 pm)) as [Hs Hw].
      * simpl. rewrite but_first_length. lia.
      * now apply wf_rows_from1.
      * split; [|assumption]. rewrite Hs. simpl.
        rewrite but_first_length. f_equal. lia.
    + destruct (IH true (rows_to_last pm)) as [Hs Hw].
      * simpl. rewrite but_last_length. lia.
      * now apply wf_rows_to_last.
      * split; [|assumption]. rewrite Hs. simpl.
        rewrite but_last_length. f_equal. lia.
Qed.

Lemma trim_cols_spec n : forall side (pm : ndarray2 Z),
  (n <= ncols pm)%nat -> wf pm ->
  shape (trim_cols n side pm) = (length (rows pm), (ncols pm - n)%nat)
  /\ wf (trim_cols n side pm).
Proof.
  induction n as [|n IH]; intros side pm Hn Hwf; simpl.
  - unfold shape. split; [f_equal; lia|assumption].
  - destruct side; simpl.
    + destruct (IH false (cols_from1 pm)) as [Hs Hw].
      * simpl. lia.
      * now apply wf_cols_from1.
      * split; [|assumption]. rewrite Hs. simpl.
        rewrite length_fmap. f_equal. lia.
    + destruct (IH true (cols_to_last pm)) as [Hs Hw].
      * simpl. lia.
      * now apply wf_cols_to_last.
      * split; [|assumption]. rewrite Hs. simpl.
        rewrite length_fmap. f_equal. lia.
Qed.


Lemma pad_next_side padS : pad_side padS -> pad_side (pad_next padS).
Proof. intros [-> | ->]; [right|left]; reflexivity. Qed.

Lemma pad_side_total padS :
  pad_side padS -> (Z.to_nat (fst padS) + Z.to_nat (snd padS) = 1)%nat.
Proof. intros [-> | ->]; reflexivity. Qed.

Lemma grow_rows_spec n : forall padS (pm : ndarray2 Z),
  pad_side padS -> wf pm ->
  shape (grow_rows n padS pm) = ((length (rows pm) + n)%nat, ncols pm)
  /\ wf (grow_rows n padS pm).
Proof.
  induction n as [|n IH]; intros padS pm Hp Hwf; simpl.
  - unfold shape. split; [f_equal; lia|assumption].
  - destruct (IH (pad_next padS)
                 (pad_rows (Z.to_nat (fst padS)) (Z.to_nat (snd padS)) pm))
      as [Hs Hw].
    + now apply pad_next_side.
    + now apply wf_pad_rows.
    + split; [|assumption]. rewrite Hs. simpl.
      rewrite !length_app, !length_replicate.
      pose proof (pad_side_total _ Hp). f_equal. lia.
Qed.

Lemma grow_cols_spec n : forall padS (pm : ndarray2 Z),
  pad_side padS -> wf pm ->
  shape (grow_cols n padS pm) = (length (rows pm), (ncols pm + n)%nat)
  /\ wf (grow_cols n padS pm).
Proof.
  induction n as [|n IH]; intros padS pm Hp Hwf; simpl.
  - unfold shape. split; [f_equal; lia|assumption].
  - destruct (IH (pad_next padS)
                 (pad_cols (Z.to_nat (fst padS)) (Z.to_nat (snd padS)) pm))
      as [Hs Hw].
    + now apply pad_next_side.
    + now apply wf_pad_cols.
    + split; [|assumption]. rewrite Hs. simpl.
      rewrite length_fmap.
      pose proof (pad_side_total _ Hp). f_equal. lia.
Qed.

Lemma fit_vertical_spec (msk pm : ndarray2 Z) :
  wf pm ->
  shape (fit_vertical msk pm) = (fst (shape msk), ncols pm)
  /\ wf (fit_vertical msk pm).
Proof.
  intros Hwf. unfold fit_vertical. simpl.
  set (h1 := length (rows msk)). set (h2 := length (rows pm)).
  destruct (Z.of_nat h1 - Z.of_nat h2 <? 0) eqn:Hlt;
    destruct (0 <? Z.of_nat h1 - Z.of_nat h2) eqn:Hgt;
    rewrite ?Z.ltb_lt, ?Z.ltb_ge in Hlt, Hgt; try lia.
  - destruct (trim_rows_spec (Z.abs_nat (Z.of_nat h1 - Z.of_nat h2)) true pm)
      as [Hs Hw]; [fold h2; lia|assumption|].
    split; [|assumption]. rewrite Hs. fold h2. f_equal. lia.
  - destruct (grow_rows_spec (Z.abs_nat (Z.of_nat h1 - Z.of_nat h2)) (1, 0) pm)
      as [Hs Hw]; [left; reflexivity|assumption|].
    split; [|assumption]. rewrite Hs. fold h2. f_equal. lia.
  - split; [|assumption]. unfold shape. fold h2. f_equal. lia.
Qed.

Lemma fit_horizontal_spec (msk pm : ndarray2 Z) :
  wf pm ->
  shape (fit_horizontal msk pm) = (length (rows pm), snd (shape msk))
  /\ wf (fit_horizontal msk pm).
Proof.
  intros Hwf. unfold fit_horizontal. simpl.
  set (w1 := ncols msk). set (w2 := ncols pm).
  destruct (Z.of_nat w1 - Z.of_nat w2 <? 0) eqn:Hlt;
    destruct (0 <? Z.of_nat w1 - Z.of_nat w2) eqn:Hgt;
    rewrite ?Z.ltb_lt, ?Z.ltb_ge in Hlt, Hgt; try lia.
  - destruct (trim_cols_spec (Z.abs_nat (Z.of_nat w1 - Z.of_nat w2)) true pm)
      as [Hs Hw]; [fold w2; lia|assumption|].
    split; [|assumption]. rewrite Hs. fold w2. f_equal. lia.
  - destruct (grow_cols_spec (Z.abs_nat (Z.of_nat w1 - Z.of_nat w2)) (1, 0) pm)
      as [Hs Hw]; [left; reflexivity|assumption|].
    split; [|assumption]. rewrite Hs. fold w2. f_equal. lia.
  - split; [|assumption]. unfold shape. fold w2. f_equal. lia.
Qed.

(** The fitted mask has the shape of [msk], whatever the signs of the two
    differences, and all its rows have that many columns. *)
Lemma fit_prev_mask_shape (msk pm : ndarray2 Z) :
  wf pm ->
  shape (fit_prev_mask msk pm) = shape msk /\ wf (fit_prev_mask msk pm).
Proof.
  intros Hwf. unfold fit_prev_mask.
  destruct (fit_vertical_spec msk pm Hwf) as [Hv Hwv].
  destruct (fit_horizontal_spec msk (fit_vertical msk pm) Hwv) as [Hh Hwh].
  split; [|assumption].
  rewrite Hh. unfold shape in Hv. injection Hv as Hrows _.
  rewrite Hrows. reflexivity.
Qed.

End FitFacts.

Section SegmentFacts.
Import Arr Pots.

(** The [mask] property of a handler without a segmenter (as every linked
    predecessor is left) returns at once and writes nothing. *)
Lemma mask_without_segmenter d p s hp :
  handlers s !! p = Some hp -> _ps hp = None ->
  exists pm, mask (S d) p s = (s, Ok pm) /\ shape pm = shape (_mask hp)
             /\ (wf (_mask hp) -> wf pm).
Proof.
  intros Hp Hps. simpl. unfold bind, get_handler. rewrite Hp.
  destruct (negb (contains (-1) (_mask hp))).
  - exists (_mask hp). auto.
  - rewrite Hps. eexists. split; [reflexivity|]. split.
    + unfold shape, zeros, full. simpl. rewrite length_replicate. reflexivity.
    + intros _. unfold wf, zeros, full. simpl.
      apply Forall_replicate, length_replicate.
Qed.

(** C3: when the segmenter's mask [msk] holds no 1 and a predecessor is
    linked, [getSegmented] returns the predecessor's mask fitted to [msk],
    and that result has the shape of [msk]: as many rows, and every row
    as many columns, for any sign of the two differences. *)
Theorem getSegmented_fallback_shape depth s self h seg img p s1 pm :
  handlers s !! self = Some h ->
  _ps h = Some seg ->
  image h = Ok img ->
  contains 1 (seg img) = false ->
  _iphPrev h = Some p ->
  mask depth p s = (s1, Ok pm) ->
  wf pm ->
  exists m, getSegmented depth self s = (s1, Ok m)
            /\ m = fit_prev_mask (seg img) pm
            /\ shape m = shape (seg img)
            /\ wf m.
Proof.
  intros Hself Hps Himg Hbad Hprev Hpm Hwf.
  exists (fit_prev_mask (seg img) pm).
  destruct (fit_prev_mask_shape (seg img) pm Hwf) as [Hs Hw].
  repeat split; auto.
  unfold getSegmented, getSegmented_with, bind, get_handler, lift, ret.
  rewrite Hself, Hps, Himg, Hprev, Hbad. simpl. rewrite Hpm. reflexivity.
Qed.

End SegmentFacts.

(** ** Predecessor links *)

Section LinkFacts.
Import Arr Pots.

Lemma fresh_handler_None s : handlers s !! fresh_handler s = None.
Proof. unfold fresh_handler. apply not_elem_of_dom, is_fresh. Qed.

Lemma fresh_matrix_None s : matrices s !! fresh_matrix s = None.
Proof. unfold fresh_matrix. apply not_elem_of_dom, is_fresh. Qed.

(** The store after the setter links [b] into [a]. *)
Lemma set_iphPrev_link_eq s a b ha hb :
  handlers s !! a = Some ha -> handlers s !! b = Some hb -> a <> b ->
  set_iphPrev a (RHandler b) s
  = (mkStore (<[b := linked hb]> (<[a := with_iphPrev (Some b) ha]> (handlers s)))
             (matrices s), Ok tt).
Proof.
  intros Ha Hb Hab.
  unfold set_iphPrev, clear_prev_of_prev, clear_ps_of_prev, store_iphPrev, store_ps,
    modify_handler, bind, get_handler, put_handler. simpl.
  rewrite Ha. simpl. rewrite lookup_insert_eq. simpl.
  rewrite lookup_insert_ne by done. rewrite Hb. simpl.
  rewrite lookup_insert_ne by done. rewrite lookup_insert_eq. simpl.
  rewrite lookup_insert_eq. simpl.
  rewrite insert_insert_eq. reflexivity.
Qed.

(** The store after the constructor links [b] into the new handler. *)
Lemma iph_init_link_eq potID rect im ps s b hb :
  handlers s !! b = Some hb ->
  iph_init potID rect im ps (RHandler b) s
  = (mkStore (<[b := linked hb]>
                (<[fresh_handler s := mkIPH potID im rect ps (Some b) (unset_mask rect)]>
                   (handlers s)))
             (matrices s), Ok (fresh_handler s)).
Proof.
  intros Hb.
  assert (fresh_handler s <> b) as Hne.
  { intros E. pose proof (fresh_handler_None s) as Hf. rewrite E in Hf. congruence. }
  unfold iph_init, clear_prev_of_prev, clear_ps_of_prev, store_iphPrev, store_ps,
    modify_handler, bind, get_handler, put_handler, ret. simpl.
  rewrite lookup_insert_eq. simpl.
  rewrite lookup_insert_ne by done. rewrite Hb. simpl.
  rewrite lookup_insert_ne by done. rewrite lookup_insert_eq. simpl.
  rewrite lookup_insert_eq. simpl.
  rewrite insert_insert_eq. reflexivity.
Qed.

(** Linking [b] under an object [a] that has the link [newa], in a store
    where nothing but [b] points at [a], keeps links closed and chains
    one generation deep. *)
Lemma link_keeps_chain (hs : gmap addr ImagePotHandler) mats a b newa hb :
  hs !! b = Some hb -> a <> b ->
  _iphPrev newa = Some b ->
  (forall x hx, hs !! x = Some hx -> _iphPrev hx = Some a -> x = b) ->
  handler_links_closed (mkStore hs mats) ->
  handler_chain_le_one (mkStore hs mats) ->
  let s' := mkStore (<[b := linked hb]> (<[a := newa]> hs)) mats in
  handler_links_closed s' /\ handler_chain_le_one s'.
Proof.
  intros Hb Hab Hnew Hnopred Hclosed Hchain s'. subst s'.
  unfold handler_links_closed, handler_chain_le_one in *. simpl in *.
  split.
  - intros x hx y Hx Hxy.
    destruct (decide (y = b)) as [->|Hyb]; [rewrite lookup_insert_eq; eauto|].
    rewrite lookup_insert_ne by done.
    destruct (decide (y = a)) as [->|Hya]; [rewrite lookup_insert_eq; eauto|].
    rewrite lookup_insert_ne by done.
    destruct (decide (x = b)) as [->|Hxb].
    { rewrite lookup_insert_eq in Hx. injection Hx as <-. discriminate. }
    rewrite lookup_insert_ne in Hx by done.
    destruct (decide (x = a)) as [->|Hxa].
    { rewrite lookup_insert_eq in Hx. injection Hx as <-. congruence. }
    rewrite lookup_insert_ne in Hx by done. eauto.
  - intros x hx y hy Hx Hxy Hy.
    destruct (decide (y = b)) as [->|Hyb].
    { rewrite lookup_insert_eq in Hy. injection Hy as <-. reflexivity. }
    rewrite lookup_insert_ne in Hy by done.
    destruct (decide (x = b)) as [->|Hxb].
    { rewrite lookup_insert_eq in Hx. injection Hx as <-. discriminate. }
    rewrite lookup_insert_ne in Hx by done.
    destruct (decide (x = a)) as [->|Hxa].
    { rewrite lookup_insert_eq in Hx. injection Hx as <-. congruence. }
    rewrite lookup_insert_ne in Hx by done.
    destruct (decide (y = a)) as [->|Hya].
    { exfalso. apply Hxb. eauto. }
    rewrite lookup_insert_ne in Hy by done. eauto.
Qed.

End LinkFacts.

(** ** Chains of matrices *)

Section MatrixFacts.
Import Arr Pots.


Lemma keeps_ret {A} (a : A) : keeps_mlinks (ret a).
Proof. intros s. reflexivity. Qed.

Lemma keeps_raise {A} e : keeps_mlinks (raise (A := A) e).
Proof. intros s. reflexivity. Qed.

Lemma keeps_lift {A} (r : result A) : keeps_mlinks (lift r).
Proof. intros s. reflexivity. Qed.

Lemma keeps_bind {A B} (m : M A) (k : A -> M B) :
  keeps_mlinks m -> (forall a, keeps_mlinks (k a)) -> keeps_mlinks (bind m k).
Proof.
  intros Hm Hk s. unfold bind. specialize (Hm s).
  destruct (m s) as [s' [a|e]]; simpl in *; [|assumption].
  rewrite Hk. assumption.
Qed.

Lemma keeps_get_handler a : keeps_mlinks (get_handler a).
Proof. intros s. unfold get_handler. destruct (handlers s !! a); reflexivity. Qed.

Lemma keeps_put_handler a h : keeps_mlinks (put_handler a h).
Proof. intros s. reflexivity. Qed.

Lemma keeps_get_matrix a : keeps_mlinks (get_matrix a).
Proof. intros s. unfold get_matrix. destruct (matrices s !! a); reflexivity. Qed.

Ltac keeps_step :=
  first
    [ apply keeps_ret | apply keeps_raise | apply keeps_lift
    | apply keeps_get_handler | apply keeps_put_handler | apply keeps_get_matrix
    | assumption
    | apply keeps_bind; [|intros ?]
    | match goal with
      | |- keeps_mlinks (match ?x with _ => _ end) => destruct x
      end ].
Ltac keeps := repeat keeps_step.

Lemma keeps_set_iphPrev a v : keeps_mlinks (set_iphPrev a v).
Proof.
  unfold set_iphPrev, clear_prev_of_prev, clear_ps_of_prev, store_iphPrev,
    store_ps, modify_handler.
  keeps.
Qed.

Lemma keeps_set_ps a v : keeps_mlinks (set_ps a v).
Proof. unfold set_ps, store_ps, modify_handler. keeps. Qed.

Lemma keeps_set_rect a r : keeps_mlinks (set_rect a r).
Proof. unfold set_rect. keeps. Qed.

Lemma keeps_increaseRect a k : keeps_mlinks (increaseRect a k).
Proof. unfold increaseRect. keeps. Qed.

Lemma keeps_reduceRect a k : keeps_mlinks (reduceRect a k).
Proof. unfold reduceRect. keeps. Qed.

Lemma keeps_mlinks_mask d : forall a, keeps_mlinks (mask d a).
Proof.
  induction d as [|d IH]; intros a; simpl.
  - keeps.
  - unfold getSegmented_with, modify_handler. keeps. apply IH.
Qed.

Lemma keeps_iph_init potID rect im ps prev :
  keeps_mlinks (iph_init potID rect im ps prev).
Proof.
  intros s. unfold iph_init. generalize (fresh_handler s). intros self.
  destruct prev; try reflexivity.
  assert (keeps_mlinks
              (put_handler self (mkIPH potID im rect ps (Some a) (unset_mask rect)) ;;;
               clear_prev_of_prev self ;;; clear_ps_of_prev self ;;; ret self)) as K.
    { unfold clear_prev_of_prev, clear_ps_of_prev, store_iphPrev, store_ps,
      modify_handler. keeps. }
  apply K.
Qed.

Lemma keeps_getPot m i : keeps_mlinks (getPot m i).
Proof. unfold getPot. keeps. Qed.

Lemma keeps_pots_loop link pots : forall i, keeps_mlinks (pots_loop link i pots).
Proof.
  induction pots as [|p pots IH]; intros i; simpl.
  - keeps.
  - destruct p; keeps; auto using keeps_getPot.
Qed.

Lemma keeps_put_same_link self P :
  keeps_mlinks (x <- get_matrix self ;; put_matrix self (mkIPM (ipmPrev x) (P x))).
Proof.
  intros s. unfold bind, get_matrix, put_matrix.
  destruct (matrices s !! self) as [x|] eqn:Hx; simpl; [|reflexivity].
  unfold mlinks. simpl. rewrite fmap_insert. simpl.
  apply insert_id. rewrite lookup_fmap, Hx. reflexivity.
Qed.

Lemma keeps_addPot self pot : keeps_mlinks (addPot self pot).
Proof.
  unfold addPot. destruct pot as [|p| |]; try apply keeps_raise.
  apply keeps_bind; [apply keeps_get_matrix|intros x].
  apply keeps_bind; [apply keeps_get_handler|intros hp].
  apply keeps_bind; [|intros v].
  { destruct (ipmPrev x); keeps. }
  apply keeps_bind; [apply keeps_set_iphPrev|intros _].
  apply (keeps_put_same_link self (fun x' => <[_id hp := p]> (_pots x'))).
Qed.


Lemma links_ok_matrix s :
  links_ok (mlinks s) <-> matrix_links_closed s /\ matrix_chain_le_one s.
Proof.
  unfold links_ok, mlinks, matrix_links_closed, matrix_chain_le_one. split.
  - intros H. split.
    + intros a xa b Ha Hab. specialize (H a b).
      rewrite !lookup_fmap, Ha in H. simpl in H. rewrite Hab in H.
      specialize (H eq_refl). destruct (matrices s !! b); [eauto|discriminate].
    + intros a xa b xb Ha Hab Hb. specialize (H a b).
      rewrite !lookup_fmap, Ha, Hb in H. simpl in H. rewrite Hab in H.
      specialize (H eq_refl). congruence.
  - intros [Hc Hd] a b Hab. rewrite lookup_fmap in *.
    destruct (matrices s !! a) as [xa|] eqn:Ha; [|discriminate].
    simpl in Hab. injection Hab as Hab.
    destruct (Hc a xa b Ha Hab) as [xb Hb]. rewrite Hb. simpl.
    f_equal. eauto.
Qed.

Lemma links_ok_clear L m : links_ok L -> links_ok (<[m := None]> L).
Proof.
  intros H a b Hab.
  destruct (decide (a = m)) as [->|Ham].
  { rewrite lookup_insert_eq in Hab. discriminate. }
  rewrite lookup_insert_ne in Hab by done.
  destruct (decide (b = m)) as [->|Hbm]; [apply lookup_insert_eq|].
  rewrite lookup_insert_ne by done. eauto.
Qed.

Lemma links_ok_new L n link :
  links_ok L -> L !! n = None ->
  (forall m, link = Some m -> L !! m = Some None) ->
  links_ok (<[n := link]> L).
Proof.
  intros H Hn Hlink a b Hab.
  destruct (decide (a = n)) as [->|Han].
  - rewrite lookup_insert_eq in Hab. injection Hab as Hab.
    specialize (Hlink b Hab).
    rewrite lookup_insert_ne by congruence. assumption.
  - rewrite lookup_insert_ne in Hab by done.
    specialize (H a b Hab).
    rewrite lookup_insert_ne by congruence. assumption.
Qed.

Lemma mlinks_fresh s : mlinks s !! fresh_matrix s = None.
Proof.
  unfold mlinks. rewrite lookup_fmap.
  unfold fresh_matrix.
  rewrite (proj1 (not_elem_of_dom (matrices s) _) (is_fresh _)). reflexivity.
Qed.

(** Allocating the new matrix after the loop of the constructor. *)
Lemma ipm_alloc_links_ok link pots s :
  links_ok (mlinks s) ->
  (forall m, link = Some m -> mlinks s !! m = Some None) ->
  links_ok (mlinks (fst ((pots_loop link (-1) pots ;;;
             fun s => let self := fresh_matrix s in
                      (put_matrix self (mkIPM link ∅) ;;; ret self) s) s))).
Proof.
  intros Hok Hlink. unfold bind.
  pose proof (keeps_pots_loop link pots (-1) s) as Hk.
  destruct (pots_loop link (-1) pots s) as [s1 [[]|e]]; simpl in *.
  - unfold mlinks at 1. simpl. rewrite fmap_insert. simpl.
    fold (mlinks s1).
    apply links_ok_new.
    + rewrite Hk. assumption.
    + apply mlinks_fresh.
    + rewrite Hk. assumption.
  - rewrite Hk. assumption.
Qed.

(** The constructor of [ImagePotMatrix] keeps every chain of matrices
    one generation deep, whatever it is given and whether or not it
    raises. *)
Lemma bind_fst {S A B} (m : SE S A) (k : A -> SE S B) s :
  fst (bind m k s)
  = match m s with
    | (s', Ok a) => fst (k a s')
    | (s', Raise _) => s'
    end.
Proof. unfold bind. destruct (m s) as [s' [a|e]]; reflexivity. Qed.

Lemma ipm_link_step m s :
  (store_ipmPrev m None ;;; ret (Some m)) s
  = match matrices s !! m with
    | Some x => (mkStore (handlers s) (<[m := mkIPM None (_pots x)]> (matrices s)),
                 Ok (Some m))
    | None => (s, Raise (RuntimeError msg_no_object))
    end.
Proof.
  unfold store_ipmPrev, bind, get_matrix, put_matrix, ret.
  destruct (matrices s !! m); reflexivity.
Qed.

Lemma ipm_init_links_ok im pots growM prev s :
  links_ok (mlinks s) ->
  links_ok (mlinks (fst (ipm_init im pots growM prev s))).
Proof.
  intros Hok. unfold ipm_init. rewrite bind_fst.
  destruct prev as [| |m|]; try assumption.
  - apply (ipm_alloc_links_ok None pots s Hok). discriminate.
  - rewrite ipm_link_step.
    destruct (matrices s !! m) as [x|] eqn:Hm; [|assumption].
    apply (ipm_alloc_links_ok (Some m) pots).
    + unfold mlinks. simpl. rewrite fmap_insert. simpl. now apply links_ok_clear.
    + intros m' [= <-]. unfold mlinks. simpl. rewrite fmap_insert. simpl.
      apply lookup_insert_eq.
Qed.

Lemma run_call_links_ok c s :
  links_ok (mlinks s) -> links_ok (mlinks (run_call c s)).
Proof.
  intros Hok. destruct c; simpl.
  - rewrite keeps_iph_init. assumption.
  - rewrite keeps_set_iphPrev. assumption.
  - rewrite keeps_set_ps. assumption.
  - rewrite keeps_set_rect. assumption.
  - rewrite keeps_increaseRect. assumption.
  - rewrite keeps_reduceRect. assumption.
  - rewrite keeps_mlinks_mask. assumption.
  - now apply ipm_init_links_ok.
  - rewrite keeps_addPot. assumption.
Qed.

Lemma reachable_matrix_chain s :
  reachable s -> matrix_links_closed s /\ matrix_chain_le_one s.
Proof.
  intros H. apply links_ok_matrix.
  induction H as [|s c _ IH].
  - intros a b Hab. unfold mlinks in Hab. simpl in Hab.
    rewrite fmap_empty, lookup_empty in Hab. discriminate.
  - now apply run_call_links_ok.
Qed.

End MatrixFacts.


(** ** Chains of handlers, and the two resizing methods *)

Section HandlerFacts.
Import Arr Pots.

(** The loop over [pots] reads the store and writes nothing. *)
Lemma pots_loop_store link pots : forall i s, fst (pots_loop link i pots s) = s.
Proof.
  induction pots as [|p pots IH]; intros i s; simpl; [reflexivity|].
  destruct p as [m|l|]; simpl; auto.
  destruct (Nat.eqb (length l) 2 || Nat.eqb (length l) 4); auto.
  destruct link as [pm|]; [|reflexivity].
  unfold bind, getPot, bind, get_matrix.
  destruct (matrices s !! pm) as [x|]; [|reflexivity].
  destruct (_pots x !! i); reflexivity.
Qed.

Lemma reachable_run_calls cs : forall s, reachable s -> reachable (run_calls cs s).
Proof.
  induction cs as [|c cs IH]; intros s Hs; simpl; [assumption|].
  apply IH. now constructor.
Qed.

(** C6, as the code has it.  Linking [b] under a handler (by the setter
    or at construction) or a matrix under a new matrix leaves the
    predecessor without a predecessor (and, for handlers, without a
    segmenter), so the chain from the linking object is one generation
    deep.  Chains of matrices are one generation deep in every reachable
    store.  Chains of handlers stay one generation deep when the handler
    that receives the link is nobody's predecessor. *)
Theorem link_clears_predecessor :
  (forall s a b ha hb,
     handlers s !! a = Some ha -> handlers s !! b = Some hb -> a <> b ->
     exists s', set_iphPrev a (RHandler b) s = (s', Ok tt)
       /\ handlers s' !! a = Some (with_iphPrev (Some b) ha)
       /\ handlers s' !! b = Some (linked hb)
       /\ ((forall x hx, handlers s !! x = Some hx -> _iphPrev hx = Some a -> x = b) ->
           handler_links_closed s -> handler_chain_le_one s ->
           handler_links_closed s' /\ handler_chain_le_one s'))
  /\
  (forall s potID rect im ps b hb,
     handlers s !! b = Some hb ->
     exists s' a, iph_init potID rect im ps (RHandler b) s = (s', Ok a)
       /\ handlers s !! a = None
       /\ handlers s' !! a = Some (mkIPH potID im rect ps (Some b) (unset_mask rect))
       /\ handlers s' !! b = Some (linked hb)
       /\ (handler_links_closed s -> handler_chain_le_one s ->
           handler_links_closed s' /\ handler_chain_le_one s'))
  /\
  (forall s im pots growM m xm,
     matrices s !! m = Some xm ->
     matrices (fst (ipm_init im pots growM (RMatrix m) s)) !! m
       = Some (mkIPM None (_pots xm))
     /\ exists s' n, ipm_init im [] growM (RMatrix m) s = (s', Ok n)
          /\ matrices s' !! n = Some (mkIPM (Some m) ∅)
          /\ matrices s' !! m = Some (mkIPM None (_pots xm)))
  /\
  (forall s, reachable s -> matrix_links_closed s /\ matrix_chain_le_one s).
Proof.
  split; [|split; [|split]].
  - intros s a b ha hb Ha Hb Hab.
    eexists. split; [apply (set_iphPrev_link_eq s a b ha hb Ha Hb Hab)|]. simpl.
    split; [rewrite lookup_insert_ne by done; apply lookup_insert_eq|].
    split; [apply lookup_insert_eq|].
    intros Hnopred Hclosed Hchain.
    destruct s as [hs mats]. simpl in *.
    now apply link_keeps_chain.
  - intros s potID rect im ps b hb Hb.
    pose proof (fresh_handler_None s) as Hf.
    assert (fresh_handler s <> b) as Hne by congruence.
    eexists. eexists. split; [apply (iph_init_link_eq potID rect im ps s b hb Hb)|]. simpl.
    split; [assumption|].
    split; [rewrite lookup_insert_ne by done; apply lookup_insert_eq|].
    split; [apply lookup_insert_eq|].
    intros Hclosed Hchain.
    remember (fresh_handler s) as a eqn:Ea. clear Ea.
    destruct s as [hs mats]. simpl in *.
    apply link_keeps_chain; auto.
    intros x hx Hx Hxa. destruct (Hclosed x hx _ Hx Hxa) as [h0 Hh0].
    simpl in Hh0. congruence.
  - intros s im pots growM m xm Hm.
    assert (fresh_matrix (mkStore (handlers s) (<[m := mkIPM None (_pots xm)]> (matrices s)))
            <> m) as Hne.
    { intros E.
      pose proof (fresh_matrix_None
        (mkStore (handlers s) (<[m := mkIPM None (_pots xm)]> (matrices s)))) as Hf.
      rewrite E in Hf. simpl in Hf. rewrite lookup_insert_eq in Hf. discriminate. }
    split.
    + unfold ipm_init. rewrite bind_fst, ipm_link_step, Hm. rewrite bind_fst.
      match goal with |- context [pots_loop ?l ?i ?p ?s0] =>
        pose proof (pots_loop_store l p i s0) as Hk;
        destruct (pots_loop l i p s0) as [s1 [[]|e]] end;
        simpl in Hk; subst s1; simpl.
      * rewrite lookup_insert_ne by done. apply lookup_insert_eq.
      * apply lookup_insert_eq.
    + eexists. eexists. split.
      * unfold ipm_init. unfold bind at 1. rewrite ipm_link_step, Hm.
        reflexivity.
      * simpl. split; [apply lookup_insert_eq|].
        rewrite lookup_insert_ne by done. apply lookup_insert_eq.
  - apply reachable_matrix_chain.
Qed.

End HandlerFacts.

Section HandlerExamples.
Import Arr Pots Samples.

Lemma link_clears_predecessor_witness :
  exists s', set_iphPrev 0 (RHandler 1) store_chain = (s', Ok tt)
    /\ (exists h0, handlers s' !! 0%nat = Some h0 /\ _iphPrev h0 = Some 1%nat)
    /\ (exists h1, handlers s' !! 1%nat = Some h1
                   /\ _iphPrev h1 = None /\ _ps h1 = None).
Proof.
  destruct link_clears_predecessor as [Hset _].
  destruct (Hset store_chain 0%nat 1%nat
              (mkIPH 1 im30 rect_a None None (unset_mask rect_a))
              (mkIPH 1 im30 rect_a None (Some 0%nat) (unset_mask rect_a)))
    as (s' & Hrun & H0 & H1 & _).
  - reflexivity.
  - reflexivity.
  - discriminate.
  - exists s'. split; [exact Hrun|]. split.
    + eexists. split; [exact H0|reflexivity].
    + eexists. split; [exact H1|]. split; reflexivity.
Defined.

(** C6 as stated fails for handlers: the setter, used on a handler that
    already is a predecessor, builds a chain of two generations
    (2 -> 1 -> 0) in a store reached by four calls. *)
Lemma handler_chain_two_generations :
  reachable store_chain
  /\ (exists h2 h1,
        handlers store_chain !! 2%nat = Some h2 /\ _iphPrev h2 = Some 1%nat /\
        handlers store_chain !! 1%nat = Some h1 /\ _iphPrev h1 = Some 0%nat)
  /\ ~ (forall s, reachable s -> handler_chain_le_one s).
Proof.
  assert (reachable store_chain) as Hr.
  { apply reachable_run_calls. constructor. }
  assert (handlers store_chain !! 2%nat
          = Some (mkIPH 1 im30 rect_a None (Some 1%nat) (unset_mask rect_a))) as H2
    by reflexivity.
  assert (handlers store_chain !! 1%nat
          = Some (mkIPH 1 im30 rect_a None (Some 0%nat) (unset_mask rect_a))) as H1
    by reflexivity.
  split; [exact Hr|]. split.
  - eexists. eexists. split; [exact H2|]. split; [reflexivity|].
    split; [exact H1|reflexivity].
  - intros Hall.
    specialize (Hall store_chain Hr _ _ _ _ H2 eq_refl H1). discriminate.
Qed.

(** C2, what the code does: [increaseRect] and [reduceRect] hand the
    [rect] setter an [ndarray], which the setter's list test refuses and
    its next test, [isinstance] with one argument, turns into a
    [TypeError]; the rectangle and the mask are left as they were. *)
Theorem increaseRect_reduceRect_raise s self h by_ :
  handlers s !! self = Some h ->
  increaseRect self by_ s = (s, Raise (TypeError msg_isinstance_arity))
  /\ reduceRect self by_ s = (s, Raise (TypeError msg_isinstance_arity)).
Proof.
  intros H.
  unfold increaseRect, reduceRect, set_rect, bind, get_handler.
  rewrite H. simpl. rewrite H. split; reflexivity.
Qed.

Lemma increaseRect_reduceRect_raise_witness :
  increaseRect 0 5 store_one = (store_one, Raise (TypeError msg_isinstance_arity))
  /\ reduceRect 0 5 store_one = (store_one, Raise (TypeError msg_isinstance_arity)).
Proof.
  apply (increaseRect_reduceRect_raise store_one 0%nat
           (mkIPH 1 im30 rect_a (Some seg_blank) None (unset_mask rect_a)) 5).
  reflexivity.
Defined.

(** The same rectangle, set from the list the two methods mean to pass,
    is accepted: the bounds [5, 5, 25, 25] lie inside the image. *)
Example set_rect_list_accepts :
  snd (set_rect 0 (RVSeq (PyList [5; 5; 25; 25])) store_one) = Ok tt.
Proof. reflexivity. Qed.

Lemma getSegmented_fallback_shape_witness :
  exists m, getSegmented 1 1%nat store_pair = (store_pair, Ok m)
            /\ m = fit_prev_mask (zeros 10 10) (zeros 4 7)
            /\ shape m = (10%nat, 10%nat)
            /\ wf m.
Proof.
  apply (getSegmented_fallback_shape 1 store_pair 1%nat
           (mkIPH 1 im30 rect_a (Some seg_blank) (Some 0%nat) (unset_mask rect_a))
           seg_blank
           (crop 10 20 10 20 (pix im30))
           0%nat store_pair (zeros 4 7)).
  - reflexivity.
  - reflexivity.
  - reflexivity.
  - reflexivity.
  - reflexivity.
  - reflexivity.
  - unfold wf, zeros, full. simpl. repeat constructor.
Defined.

End HandlerExamples.

(** ** [TimeStream.create] and the archive's name *)

Section CreateFacts.
Import OS Frame Archive.
Context {E : Externals}.


Lemma keeps_name_ret {T} (a : T) : keeps_name (ret a).
Proof. intros s. reflexivity. Qed.

Lemma keeps_name_raise {T} e : keeps_name (raise (A := T) e).
Proof. intros s. reflexivity. Qed.

Lemma keeps_name_bind {T U} (m : ArchiveM T) (k : T -> ArchiveM U) :
  keeps_name m -> (forall a, keeps_name (k a)) -> keeps_name (bind m k).
Proof.
  intros Hm Hk s. unfold bind. specialize (Hm s).
  destruct (m s) as [s' [a|e]]; simpl in *; [|assumption].
  rewrite Hk. assumption.
Qed.

Lemma keeps_name_get_ts : keeps_name get_ts.
Proof. intros s. reflexivity. Qed.

Lemma keeps_name_get_fs : keeps_name get_fs.
Proof. intros s. reflexivity. Qed.

Lemma keeps_name_fs_call op : keeps_name (fs_call op).
Proof. intros s. unfold fs_call. destruct (op (fs s)); reflexivity. Qed.

Lemma keeps_name_modify f :
  (forall t, _name (f t) = _name t) -> keeps_name (modify_ts f).
Proof. intros Hf s. simpl. apply Hf. Qed.

Ltac keeps_name_step :=
  first
    [ apply keeps_name_ret | apply keeps_name_raise
    | apply keeps_name_get_ts | apply keeps_name_get_fs | apply keeps_name_fs_call
    | apply keeps_name_modify; intros ?; reflexivity
    | apply keeps_name_bind; [|intros ?]
    | match goal with
      | |- keeps_name (match ?x with _ => _ end) => destruct x
      end ].

Lemma keeps_name_set_version v : keeps_name (set_version v).
Proof. unfold set_version. repeat keeps_name_step. Qed.

Lemma keeps_name_set_path p : keeps_name (set_path p).
Proof. unfold set_path. repeat keeps_name_step. Qed.

Lemma create_keeps_given_name ts_path version ext type_ start end_ name s :
  name <> PyNone ->
  _name (ts (fst (create ts_path version ext type_ start end_ name s)))
  = _name (ts s).
Proof.
  intros Hname. revert s.
  change (keeps_name (create ts_path version ext type_ start end_ name)).
  unfold create.
  apply keeps_name_bind; [apply keeps_name_set_version|intros _].
  destruct ts_path as [| |p0|]; try apply keeps_name_raise.
  apply keeps_name_bind; [apply keeps_name_get_fs|intros f].
  destruct (negb (exists_ f (dirname (normalize p0)))); [apply keeps_name_raise|].
  apply keeps_name_bind; [apply keeps_name_get_ts|intros t].
  apply keeps_name_bind; [repeat keeps_name_step|intros _].
  apply keeps_name_bind; [apply keeps_name_set_path|intros _].
  apply keeps_name_bind; [repeat keeps_name_step|intros _].
  apply keeps_name_bind; [repeat keeps_name_step|intros _].
  apply keeps_name_bind; [repeat keeps_name_step|intros _].
  apply keeps_name_bind; [|intros _].
  - destruct name; [congruence| | |]; apply keeps_name_ret.
  - repeat keeps_name_step.
Qed.

Lemma bind_Ok_inv {S T U} (m : SE S T) (k : T -> SE S U) s s' b :
  bind m k s = (s', Ok b) ->
  exists s1 a, m s = (s1, Ok a) /\ k a s1 = (s', Ok b).
Proof.
  unfold bind. destruct (m s) as [s1 [a|e]]; [eauto|discriminate].
Qed.

(** With [name] left at [None], a [create] that returns has named the
    archive after the last component of its path. *)
Lemma create_default_name ts_path version ext type_ start end_ s s' :
  create ts_path version ext type_ start end_ PyNone s = (s', Ok tt) ->
  exists p, ts_path = PyStr p /\ _name (ts s') = Some (basename (normalize p)).
Proof.
  unfold create. intros H.
  apply bind_Ok_inv in H as (s1 & [] & _ & H).
  destruct ts_path as [| |p0|]; try discriminate.
  exists p0. split; [reflexivity|].
  apply bind_Ok_inv in H as (s2 & f & _ & H).
  destruct (negb (exists_ f (dirname (normalize p0)))); [discriminate|].
  apply bind_Ok_inv in H as (s3 & t & _ & H).
  apply bind_Ok_inv in H as (s4 & [] & _ & H).
  apply bind_Ok_inv in H as (s5 & [] & _ & H).
  apply bind_Ok_inv in H as (s6 & [] & _ & H).
  apply bind_Ok_inv in H as (s7 & [] & _ & H).
  apply bind_Ok_inv in H as (s8 & [] & _ & H).
  apply bind_Ok_inv in H as (s9 & [] & Hn & H).
  assert (_name (ts s9) = Some (basename (normalize p0))) as Hs9.
  { unfold set_name in Hn.
    destruct (contains_char _ (basename (normalize p0))); [discriminate|].
    injection Hn as <-. reflexivity. }
  rewrite <- Hs9.
  match type of H with
  | ?m s9 = _ => assert (keeps_name m) as K by repeat keeps_name_step
  end.
  specialize (K s9). rewrite H in K. exact K.
Qed.

(** C10: [create] called with a [name] that is not [None] leaves the
    archive's name as it was (unset, on a new [TimeStream]): the name is
    assigned, to the basename of the path, only when [name] is [None]. *)
Theorem create_ignores_given_name ts_path version ext type_ start end_ name s :
  (name <> PyNone ->
   _name (ts (fst (create ts_path version ext type_ start end_ name s)))
   = _name (ts s))
  /\
  (forall s',
     create ts_path version ext type_ start end_ PyNone s = (s', Ok tt) ->
     exists p, ts_path = PyStr p /\ _name (ts s') = Some (basename (normalize p))).
Proof.
  split.
  - apply create_keeps_given_name.
  - intros s'. apply create_default_name.
Qed.

End CreateFacts.

Section CreateExamples.
Import OS Frame Archive Samples.

Lemma create_ignores_given_name_witness :
  _name (ts (fst (create (PyStr "/data/new") (PyInt 1) "png" None 0 0 (PyStr "mine")
                    (mkAS new_timestream fs0)))) = None.
Proof.
  apply (create_ignores_given_name (PyStr "/data/new") (PyInt 1) "png" None 0 0
           (PyStr "mine") (mkAS new_timestream fs0)).
  discriminate.
Defined.

Example create_default_name_example :
  _name (ts (fst (create (PyStr "/data/new") (PyInt 1) "png" None 0 0 PyNone
                    (mkAS new_timestream fs0)))) = Some "new".
Proof. reflexivity. Qed.

End CreateExamples.

(** ** [write_image] on an occupied target *)

Section WriteFacts.
Import OS Frame Archive.
Context {E : Externals}.

(** [write_image] once its checks have passed and the canonical path
    turns out to be occupied: what is left is the choice of the mode. *)
Lemma write_image_on_occupied t f i px d nm p rel mode :
  _name t = Some nm -> is_empty nm = false ->
  _path t = Some p -> is_empty p = false ->
  _version t = Some 1 ->
  _pixels i = Some px -> _datetime i = Some d ->
  ts_date_to_path (PyStr nm) (of_opt_str (extension t)) (PyDatetime d) 0 = Ok rel ->
  exists_ f (join p rel) = true ->
  bool_decide (mode ∈ overwrite_modes) = true ->
  write_image (PyStr mode) (mkWS (mkAS t f) i)
  = (if String.eqb mode "skip" then ret tt
     else if String.eqb mode "increment" then
       r <- increment_loop (S 100) 0 (join p rel) ;;
       f' <- on_archive get_fs ;;
       if exists_ f' (snd r) then
         dt' <- on_image datetime_get ;;
         _ <- lift (ts_format_date dt') ;;
         raise (ValueError msg_wi_too_many)
       else commit_image (snd r)
     else if String.eqb mode "overwrite" then commit_image (join p rel)
     else raise (ValueError msg_wi_exists)) (mkWS (mkAS t f) i).
Proof.
  intros Hn Hne Hp Hpe Hv Hpx Hd Hrel Hocc Hm. unfold write_image.
  unfold bind at 1. simpl. rewrite Hn, Hp. simpl. rewrite Hne, Hpe. simpl.
  rewrite Hm. simpl.
  unfold bind at 1. unfold on_image at 1, pixels_get. simpl. rewrite Hpx.
  rewrite Hv.
  unfold bind at 1. unfold on_image at 1, datetime_get, bind at 1. simpl.
  rewrite Hd. simpl.
  unfold bind at 1, lift at 1. rewrite Hrel.
  unfold bind at 1, lift at 1, join_opt.
  unfold bind at 1. simpl. rewrite Hocc. reflexivity.
Qed.

(** With every candidate occupied the loop of the [increment] mode stops
    at the counter 100, after at most 100 calls. *)
Lemma increment_loop_exhausted t f i d nm n :
  _name t = Some nm -> _datetime i = Some d ->
  (forall k, 1 <= k <= 100 ->
     exists pk, ts_date_to_path (PyStr nm) (PyDatetime d) (PyInt k) 0 = Ok pk
                /\ exists_ f pk = true) ->
  forall subsec fpath,
    0 <= subsec <= 100 -> exists_ f fpath = true ->
    100 - subsec < Z.of_nat n ->
    exists p, increment_loop n subsec fpath (mkWS (mkAS t f) i)
              = (mkWS (mkAS t f) i, Ok (100, p))
              /\ exists_ f p = true.
Proof.
  intros Hn Hd Hall.
  induction n as [|n IH]; intros subsec fpath Hs Hocc Hfuel; [lia|].
  cbn [increment_loop]. unfold bind at 1. simpl. rewrite Hocc. simpl.
  destruct (subsec <? 100) eqn:Hlt.
  - apply Z.ltb_lt in Hlt.
    destruct (Hall (subsec + 1)) as (pk & Hpk & Hpkocc); [lia|].
    unfold bind at 1. simpl.
    unfold bind at 1. unfold on_image at 1, datetime_get, bind at 1. simpl.
    rewrite Hd. simpl. rewrite Hn. simpl.
    unfold bind at 1, lift at 1. rewrite Hpk.
    apply IH; [lia|assumption|lia].
  - apply Z.ltb_ge in Hlt. assert (subsec = 100) as -> by lia.
    exists fpath. split; [reflexivity|assumption].
Qed.


(** When the canonical path and all hundred candidates are occupied,
    the [increment] mode gives up and nothing is written. *)
Lemma write_image_increment_exhausted t f i px d nm p rel key :
  _name t = Some nm -> is_empty nm = false ->
  _path t = Some p -> is_empty p = false ->
  _version t = Some 1 ->
  _pixels i = Some px -> _datetime i = Some d ->
  ts_date_to_path (PyStr nm) (of_opt_str (extension t)) (PyDatetime d) 0 = Ok rel ->
  exists_ f (join p rel) = true ->
  (forall k, 1 <= k <= 100 ->
     exists pk, ts_date_to_path (PyStr nm) (PyDatetime d) (PyInt k) 0 = Ok pk
                /\ exists_ f pk = true) ->
  ts_format_date (PyDatetime d) = Ok key ->
  write_image (PyStr "increment") (mkWS (mkAS t f) i)
  = (mkWS (mkAS t f) i, Raise (ValueError msg_wi_too_many)).
Proof.
  intros Hn Hne Hp Hpe Hv Hpx Hd Hrel Hocc Hall Hkey.
  rewrite (write_image_on_occupied t f i px d nm p rel "increment")
    by (assumption || reflexivity).
  cbn [String.eqb Ascii.eqb Bool.eqb].
  destruct (increment_loop_exhausted t f i d nm (S 100) Hn Hd Hall 0 (join p rel))
    as (q & Hq & Hqocc); [lia|assumption|lia|].
  unfold bind at 1. rewrite Hq.
  unfold bind at 1. simpl. rewrite Hqocc.
  unfold bind at 1. unfold on_image at 1, datetime_get, bind at 1. simpl.
  rewrite Hd. simpl.
  unfold bind at 1, lift at 1. rewrite Hkey. reflexivity.
Qed.

(** C7, what the code does when the canonical path of the image is
    occupied.  Under [skip] it returns and under [raise] it raises, and
    the archive, the files and the image are as before.  Under
    [increment] the first candidate is what [_ts_date_to_path] answers
    to the name, the datetime (where the extension belongs) and the
    counter 1 (where the date belongs): if that call raises, so does
    [write_image]; if it returns a free path, the image is written
    there, a path that was not joined to the archive's. *)
Theorem write_image_occupied_target t f i px d nm p rel :
  _name t = Some nm -> is_empty nm = false ->
  _path t = Some p -> is_empty p = false ->
  _version t = Some 1 ->
  _pixels i = Some px -> _datetime i = Some d ->
  ts_date_to_path (PyStr nm) (of_opt_str (extension t)) (PyDatetime d) 0 = Ok rel ->
  exists_ f (join p rel) = true ->
  let s := mkWS (mkAS t f) i in
  write_image (PyStr "skip") s = (s, Ok tt)
  /\ write_image (PyStr "raise") s = (s, Raise (ValueError msg_wi_exists))
  /\ (forall e,
        ts_date_to_path (PyStr nm) (PyDatetime d) (PyInt 1) 0 = Raise e ->
        write_image (PyStr "increment") s = (s, Raise e))
  /\ (forall p1,
        ts_date_to_path (PyStr nm) (PyDatetime d) (PyInt 1) 0 = Ok p1 ->
        exists_ f p1 = false ->
        write_image (PyStr "increment") s = commit_image p1 s).
Proof.
  intros Hn Hne Hp Hpe Hv Hpx Hd Hrel Hocc s.
  pose proof (fun mode => write_image_on_occupied t f i px d nm p rel mode
                            Hn Hne Hp Hpe Hv Hpx Hd Hrel Hocc) as Hmode.
  fold s in Hmode.
  split; [apply (Hmode "skip"); reflexivity|].
  split; [apply (Hmode "raise"); reflexivity|].
  assert (forall n, increment_loop (S n) 0 (join p rel) s
          = match ts_date_to_path (PyStr nm) (PyDatetime d) (PyInt 1) 0 with
            | Ok p1 => increment_loop n 1 p1 s
            | Raise e => (s, Raise e)
            end) as Hloop.
  { intros n. cbn [increment_loop].
    unfold bind at 1. simpl. rewrite Hocc. simpl.
    unfold bind at 1. simpl.
    unfold bind at 1. unfold on_image at 1, datetime_get, bind at 1. simpl.
    rewrite Hd. simpl. rewrite Hn. simpl.
    unfold bind at 1, lift at 1. change (0 + 1) with 1.
    destruct (ts_date_to_path (PyStr nm) (PyDatetime d) (PyInt 1) 0); reflexivity. }
  assert (forall n p1, exists_ f p1 = false ->
            increment_loop (S n) 1 p1 s = (s, Ok (1, p1))) as Hstop.
  { intros n p1 Hfree. cbn [increment_loop].
    unfold bind at 1. simpl. rewrite Hfree. reflexivity. }
  split.
  - intros e He. rewrite (Hmode "increment") by reflexivity.
    cbn [String.eqb Ascii.eqb Bool.eqb].
    unfold bind at 1. rewrite Hloop, He. reflexivity.
  - intros p1 Hp1 Hfree. rewrite (Hmode "increment") by reflexivity.
    cbn [String.eqb Ascii.eqb Bool.eqb].
    unfold bind at 1. rewrite Hloop, Hp1.
    change 100%nat with (S 99). rewrite (Hstop 99%nat p1 Hfree).
    unfold bind at 1. simpl. rewrite Hfree. reflexivity.
Qed.

End WriteFacts.

Section WriteExamples.
Import OS Frame Archive Samples.

Lemma write_image_occupied_target_witness :
  write_image (PyStr "skip") write1 = (write1, Ok tt)
  /\ write_image (PyStr "raise") write1 = (write1, Raise (ValueError msg_wi_exists))
  /\ write_image (PyStr "increment") write1
     = (write1, Raise (AttributeError "object has no attribute 'strftime'")).
Proof.
  destruct (write_image_occupied_target ts1 fs1 frame60 im30 60 "ts" "/data/ts"
              "ts_60_0.png")
    as (Hskip & Hraise & Hinc & _); try reflexivity.
  split; [exact Hskip|]. split; [exact Hraise|].
  apply Hinc. reflexivity.
Defined.

End WriteExamples.

(** ** [TimeStreamTraverser.next] and [prev] *)

Section TraverserFacts.
Import OS Frame Archive Traverser.
Context {E : Externals}.

Lemma curr_keeps_self self_id f self : fst (curr self_id f self) = self.
Proof. reflexivity. Qed.

(** C1, what the code does: [next] only resets the cursor from the last
    offset to 0 and [prev] only from 0 to the last offset; at any other
    offset they leave the cursor where it is and return the frame under
    it, as [curr] does. *)
Theorem next_prev_keep_cursor self_id f self :
  (_offset self <> Z.of_nat (length (_timestamps self)) - 1 ->
   next self_id f self = curr self_id f self
   /\ _offset (fst (next self_id f self)) = _offset self)
  /\
  (_offset self <> 0 ->
   prev self_id f self = curr self_id f self
   /\ _offset (fst (prev self_id f self)) = _offset self)
  /\
  (_offset self = Z.of_nat (length (_timestamps self)) - 1 ->
   next self_id f self = curr self_id f (with_offset 0 self))
  /\
  (_offset self = 0 ->
   prev self_id f self
   = curr self_id f (with_offset (Z.of_nat (length (_timestamps self)) - 1) self)).
Proof.
  unfold next, prev. repeat split.
  - destruct (Z.eqb_spec (_offset self) (Z.of_nat (length (_timestamps self)) - 1));
      [contradiction|reflexivity].
  - destruct (Z.eqb_spec (_offset self) (Z.of_nat (length (_timestamps self)) - 1));
      [contradiction|reflexivity].
  - destruct (Z.eqb_spec (_offset self) 0); [contradiction|reflexivity].
  - destruct (Z.eqb_spec (_offset self) 0); [contradiction|reflexivity].
  - intros ->. rewrite Z.eqb_refl. reflexivity.
  - intros ->. reflexivity.
Qed.

End TraverserFacts.

Section TraverserExamples.
Import OS Frame Archive Traverser Samples.

(** On the index [[0, 60, 120]] with the cursor at 0, [next] yields the
    frame of timestamp 0 again, not that of 60, and the cursor stays. *)
Lemma next_prev_keep_cursor_witness :
  next 7 fs1 (trav_at 0)
  = (trav_at 0,
     Ok (mkTSI (Some 0) (Some 7%nat) (Some "/data/ts/ts_0_0.png") None None ∅))
  /\ prev 7 fs1 (trav_at 2)
     = (trav_at 2,
        Ok (mkTSI (Some 120) (Some 7%nat) (Some "/data/ts/ts_120_0.png") None None ∅)).
Proof.
  destruct (next_prev_keep_cursor 7 fs1 (trav_at 0)) as (Hnext & _).
  destruct (next_prev_keep_cursor 7 fs1 (trav_at 2)) as (_ & Hprev & _).
  split.
  - destruct Hnext as [-> _]; [discriminate|]. reflexivity.
  - destruct Hprev as [-> _]; [discriminate|]. reflexivity.
Defined.

(** The two ends do wrap: [next] at the last offset yields the first
    frame, [prev] at offset 0 the last. *)
Example next_prev_wrap :
  (exists i, next 7 fs1 (trav_at 2) = (trav_at 0, Ok i) /\ _datetime i = Some 0)
  /\ (exists i, prev 7 fs1 (trav_at 0) = (trav_at 2, Ok i) /\ _datetime i = Some 120).
Proof. split; eexists; split; reflexivity. Qed.

End TraverserExamples.

(** ** The per-series driver *)

Section DriverFacts.
Import Frame Runner.
Variables (C D : Type).
Variable getImgByTimeStamp : Z -> result TimeStreamImage.
Variable running_after : nat -> bool.


Lemma process_from_ok frame pre : forall k args (s : run_state C) c1 out,
  run_stages C D pre (rctx C s) args = (c1, Ok out) ->
  process_from C D frame k pre args s
  = (mkRS C c1 (trace C s ++ calls frame k (length pre)), Ok out).
Proof.
  induction pre as [|st pre IH]; intros k args s c1 out Hrun; simpl in *.
  - injection Hrun as <- <-. destruct s. unfold ret, calls. simpl.
    rewrite app_nil_r. reflexivity.
  - unfold bind, emit, call_stage. simpl.
    destruct (st (rctx C s) args) as [c' [out'|e]]; [|discriminate].
    rewrite (IH (S k) out' (mkRS C c' (trace C s ++ [StageCalled frame k])) c1 out Hrun).
    simpl.
    unfold calls. simpl. rewrite <- app_assoc. reflexivity.
Qed.

(** A stage that raises ends the run of the frame: the stages after it
    are not called. *)
Lemma process_from_fail frame pre : forall k args (s : run_state C) c1 args1 st c2 e post,
  run_stages C D pre (rctx C s) args = (c1, Ok args1) ->
  st c1 args1 = (c2, Raise e) ->
  process_from C D frame k (pre ++ st :: post) args s
  = (mkRS C c2 (trace C s ++ calls frame k (S (length pre))), Raise e).
Proof.
  induction pre as [|st0 pre IH]; intros k args s c1 args1 st c2 e post Hrun Hst;
    simpl in *.
  - injection Hrun as <- <-.
    unfold bind, emit, call_stage. simpl. rewrite Hst. reflexivity.
  - unfold bind, emit, call_stage. simpl.
    destruct (st0 (rctx C s) args) as [c' [out'|e']]; [|discriminate].
    rewrite (IH (S k) out' (mkRS C c' (trace C s ++ [StageCalled frame k]))
               c1 args1 st c2 e post Hrun Hst).
    simpl.
    unfold calls. simpl. rewrite <- app_assoc. reflexivity.
Qed.

(** C8: when, for the frame of index [i], the stage after the stages
    [pre] raises a [PCException], the stages [post] behind it are not
    called for that frame, the driver logs the message of the exception
    and goes on with the timestamps that remain, exactly as a run that
    starts at index [i + 1]. *)
Theorem driver_continues_after_stage_failure
    (pre post : list (stage C D)) (st : stage C D) prsig i timestamp rest
    (s s1 : run_state C) v c1 args1 c2 msg :
  ((if prsig : bool then emit C (Progress i) else ret tt) ;;;
   resolve C D getImgByTimeStamp timestamp) s = (s1, Ok v) ->
  run_stages C D pre (rctx C s1) [v] = (c1, Ok args1) ->
  st c1 args1 = (c2, Raise (PCException msg)) ->
  let stages := pre ++ st :: post in
  let s2 := mkRS C c2 (trace C s1 ++ calls i 0 (S (length pre)) ++ [LogInfo msg]) in
  process C D i stages [v] s1
  = (mkRS C c2 (trace C s1 ++ calls i 0 (S (length pre))), Raise (PCException msg))
  /\ (forall j, StageCalled i j ∈ calls i 0 (S (length pre)) -> (j <= length pre)%nat)
  /\ run_from C D getImgByTimeStamp running_after stages prsig i (timestamp :: rest) s
     = run_from C D getImgByTimeStamp running_after stages prsig (S i) rest s2.
Proof.
  intros Hres Hrun Hst stages s2.
  assert (process C D i stages [v] s1
          = (mkRS C c2 (trace C s1 ++ calls i 0 (S (length pre))),
             Raise (PCException msg))) as Hproc.
  { unfold process, stages. now apply (process_from_fail i pre 0 [v] s1 c1 args1). }
  split; [exact Hproc|]. split.
  - intros j Hj. unfold calls in Hj.
    apply list_elem_of_fmap in Hj as (j' & [= ->] & Hin).
    apply elem_of_seq in Hin. lia.
  - cbn [run_from].
    unfold bind at 1. unfold bind at 1 in Hres.
    destruct prsig; simpl in Hres |- *; unfold bind at 1; rewrite Hres;
      fold stages; rewrite Hproc;
      unfold bind, emit; simpl; subst s2; rewrite <- app_assoc; reflexivity.
Qed.

End DriverFacts.

Section DriverExamples.
Import Frame Runner Samples.

Lemma driver_continues_after_stage_failure_witness :
  run_from nat unit get_blank never_cancelled three_stages true 0 [0; 60] (mkRS nat 0%nat [])
  = run_from nat unit get_blank never_cancelled three_stages true 1 [60]
      (mkRS nat 2%nat [Progress 0; LogInfo msg_process; StageCalled 0 0;
                       StageCalled 0 1; LogInfo "stage 2 failed"]).
Proof.
  destruct (driver_continues_after_stage_failure nat unit get_blank never_cancelled
              [stage_ok] [stage_ok] stage_bad true 0%nat 0 [60]
              (mkRS nat 0%nat [])
              (mkRS nat 0%nat [Progress 0; LogInfo msg_process])
              (VImage (mkTSI (Some 0) None None None None ∅))
              1%nat [VImage (mkTSI (Some 0) None None None None ∅)] 2%nat
              "stage 2 failed") as (_ & _ & Hrun);
    [reflexivity|reflexivity|reflexivity|exact Hrun].
Defined.

(** The whole run over two timestamps: the third stage is never called,
    both frames are visited, and the run ends with its two signals. *)
Example run_two_frames_trace :
  runPipeline nat unit get_blank never_cancelled three_stages [0; 60] true true
    (mkRS nat 0%nat [])
  = (mkRS nat 4%nat
       [Progress 0; LogInfo msg_process; StageCalled 0 0; StageCalled 0 1;
        LogInfo "stage 2 failed";
        Progress 1; LogInfo msg_process; StageCalled 1 0; StageCalled 1 1;
        LogInfo "stage 2 failed";
        LogInfo msg_done; Stopped], Ok tt).
Proof. reflexivity. Qed.

End DriverExamples.

(** * Further properties *)

(** * Further properties *)

(** ** [ImagePotRectangle]: what it accepts and what it gives back *)

Section RectMore.
Import Rect.

(** X1: Four corners that lie inside the image are stored as they are, and
    indexing reads each of them back. *)
Theorem init_getitem_round_trip a b c d h w rest growM :
  1 <= h -> 1 <= w ->
  0 <= a <= w -> 0 <= c <= w -> 0 <= b <= h -> 0 <= d <= h ->
  exists r, init (PyList [a; b; c; d]) (h :: w :: rest) growM = Ok r
    /\ getitem r 0 = Ok a /\ getitem r 1 = Ok b
    /\ getitem r 2 = Ok c /\ getitem r 3 = Ok d.
Proof.
  intros Hh Hw Ha Hc Hb Hd.
  exists (mkRect [a; b; c; d] w h). split.
  - unfold init.
    replace ((h <? 1) || (w <? 1)) with false
      by (symmetry; apply orb_false_iff; rewrite !Z.ltb_ge; lia).
    simpl. replace (outside _ w h) with false; [reflexivity|].
    symmetry. apply outside_false_iff. lia.
  - repeat split; reflexivity.
Qed.

Lemma init_getitem_round_trip_witness :
  exists r, init (PyList [2; 3; 7; 9]) [10; 20; 3] growM_default = Ok r
    /\ getitem r 0 = Ok 2 /\ getitem r 1 = Ok 3
    /\ getitem r 2 = Ok 7 /\ getitem r 3 = Ok 9.
Proof.
  apply (init_getitem_round_trip 2 3 7 9 10 20 [3] growM_default); lia.
Defined.

(** X2: The width and the height of a rectangle the constructor returns are
    the distances between its opposite bounds, whichever way round the
    corners were given, and never exceed the image. *)
Theorem width_height_within_image rectDesc imgSize growM r :
  init rectDesc imgSize growM = Ok r ->
  width r = Z.abs (right r - left r) /\ height r = Z.abs (bottom r - top r)
  /\ 0 <= width r <= _imgwidth r /\ 0 <= height r <= _imgheight r.
Proof.
  intros H.
  destruct (init_Ok_inv _ _ _ _ H)
    as (a & b & c & d & h & w & rest & Hr & _ & Hw & Hh & _ & _ & Ho).
  apply outside_false_iff in Ho.
  unfold width, height, left, right, top, bottom, at_. rewrite Hr, Hw, Hh. simpl.
  lia.
Qed.

Lemma width_height_within_image_witness :
  width (mkRect [7; 9; 2; 3] 20 10) = 5 /\ height (mkRect [7; 9; 2; 3] 20 10) = 6.
Proof.
  destruct (width_height_within_image (PyList [7; 9; 2; 3]) [10; 20; 3] growM_default
              (mkRect [7; 9; 2; 3] 20 10) eq_refl) as (Hw & Hh & _).
  split; [rewrite Hw|rewrite Hh]; reflexivity.
Defined.

(** X3: The constructor returns a rectangle only for a Python list of two or
    four numbers and an image size with two leading entries of at least 1. A
    numpy array is never accepted as descriptor, whatever it holds: every
    other input raises [TypeError]. *)
Theorem init_accepts_only_lists rectDesc imgSize growM :
  (forall r, init rectDesc imgSize growM = Ok r ->
     exists l h w rest,
       rectDesc = PyList l /\ (length l = 2%nat \/ length l = 4%nat)
       /\ imgSize = h :: w :: rest /\ 1 <= h /\ 1 <= w)
  /\ (forall e, init rectDesc imgSize growM = Raise e -> exists msg, e = TypeError msg)
  /\ (forall l, rectDesc = NdArray l -> exists msg, init rectDesc imgSize growM = Raise (TypeError msg)).
Proof.
  unfold init. repeat split.
  - intros r H.
    destruct imgSize as [|h [|w rest]]; try discriminate.
    destruct ((h <? 1) || (w <? 1)) eqn:Hsz; try discriminate.
    apply orb_false_iff in Hsz as [Hh Hw]. apply Z.ltb_ge in Hh, Hw.
    destruct rectDesc as [l|l]; try discriminate.
    exists l, h, w, rest. repeat split; auto.
    destruct (Nat.eqb_spec (length l) 2); [auto|].
    destruct (Nat.eqb_spec (length l) 4); [auto|]. discriminate.
  - intros e H.
    destruct imgSize as [|h [|w rest]]; try (injection H as <-; eauto).
    destruct ((h <? 1) || (w <? 1)); try (injection H as <-; eauto).
    destruct rectDesc as [l|l]; try (injection H as <-; eauto).
    destruct (negb (length l =? 2)%nat && negb (length l =? 4)%nat);
      try (injection H as <-; eauto).
    destruct (outside _ w h); [injection H as <-; eauto|discriminate].
  - intros l ->.
    destruct imgSize as [|h [|w rest]]; eauto.
    destruct ((h <? 1) || (w <? 1)); eauto.
Qed.

End RectMore.

Section RectMoreExamples.
Import Rect.

Lemma init_accepts_only_lists_witness :
  (exists l h w rest,
     PyList [2; 3; 7; 9] = PyList l /\ (length l = 2%nat \/ length l = 4%nat)
     /\ [10; 20; 3] = h :: w :: rest /\ 1 <= h /\ 1 <= w)
  /\ exists msg, init (NdArray [2; 3; 7; 9]) [10; 20; 3] growM_default
                 = Raise (TypeError msg).
Proof.
  split.
  - destruct (init_accepts_only_lists (PyList [2; 3; 7; 9]) [10; 20; 3] growM_default)
      as (H & _ & _).
    apply (H (mkRect [2; 3; 7; 9] 20 10)). reflexivity.
  - destruct (init_accepts_only_lists (NdArray [2; 3; 7; 9]) [10; 20; 3] growM_default)
      as (_ & _ & H).
    apply (H [2; 3; 7; 9]). reflexivity.
Defined.

End RectMoreExamples.

(** ** [ImagePotHandler]: links, masks and the rectangle *)

Section HandlerMore.
Import Arr Pots.

Lemma full_contains h w v u :
  contains u (full h w v) = true -> u = v /\ (0 < h)%nat /\ (0 < w)%nat.
Proof.
  unfold contains, full. simpl. intros H.
  apply existsb_exists in H as (row & Hrow & H).
  apply existsb_exists in H as (x & Hx & H).
  apply Z.eqb_eq in H. subst x.
  apply list_elem_of_In, elem_of_replicate in Hrow as [-> Hh].
  apply list_elem_of_In, elem_of_replicate in Hx as [-> Hw].
  repeat split; auto; lia.
Qed.

Lemma full_contains_self h w v :
  (0 < h)%nat -> (0 < w)%nat -> contains v (full h w v) = true.
Proof.
  intros Hh Hw. unfold contains, full. simpl.
  destruct h as [|h]; [lia|]. destruct w as [|w]; [lia|]. simpl.
  rewrite Z.eqb_refl. reflexivity.
Qed.

Lemma full_empty h w v u : (h = 0%nat \/ w = 0%nat) -> full h w v = full h w u.
Proof.
  unfold full. intros [-> | ->]; [reflexivity|]. reflexivity.
Qed.

Lemma mask_unset_without_segmenter d s a ha r :
  handlers s !! a = Some ha -> _ps ha = None -> _mask ha = unset_mask r ->
  mask (S d) a s
  = (s, Ok (zeros (Z.to_nat (Rect.height r)) (Z.to_nat (Rect.width r)))).
Proof.
  intros Ha Hps Hm. simpl. unfold bind, get_handler. rewrite Ha, Hm.
  unfold unset_mask.
  set (h := Z.to_nat (Rect.height r)). set (w := Z.to_nat (Rect.width r)).
  destruct (contains (-1) (full h w (-1))) eqn:Hc; simpl.
  - rewrite Hps. unfold ret, shape, full. simpl. rewrite length_replicate. reflexivity.
  - unfold ret. f_equal. f_equal. unfold zeros.
    apply full_empty.
    destruct h as [|h']; [auto|]. destruct w as [|w']; [auto|].
    rewrite full_contains_self in Hc by lia. discriminate.
Qed.

(** What the constructor returns, case by case of [iphPrev]. *)
Lemma iph_init_Ok_inv potID rect im ps prev s s' a :
  iph_init potID rect im ps prev s = (s', Ok a) ->
  a = fresh_handler s
  /\ exists link, handlers s' !! a = Some (mkIPH potID im rect ps link (unset_mask rect))
     /\ (prev = RNone /\ link = None
         \/ exists b, prev = RHandler b /\ link = Some b /\ is_Some (handlers s !! b)).
Proof.
  intros H. destruct prev as [|b| |]; try discriminate.
  - unfold iph_init, bind, put_handler, ret in H. simpl in H.
    injection H as <- <-. split; [reflexivity|]. simpl.
    exists None. split; [apply lookup_insert_eq|]. left. auto.
  - destruct (handlers s !! b) as [hb|] eqn:Hb.
    + rewrite (iph_init_link_eq potID rect im ps s b hb Hb) in H.
      injection H as <- <-. split; [reflexivity|]. simpl.
      exists (Some b). split.
      * pose proof (fresh_handler_None s) as Hf.
        rewrite lookup_insert_ne by congruence. apply lookup_insert_eq.
      * right. exists b. eauto.
    + exfalso.
      pose proof (fresh_handler_None s) as Hf.
      assert (fresh_handler s <> b \/ fresh_handler s = b) as [Hne|He] by lia.
      * unfold iph_init, clear_prev_of_prev, clear_ps_of_prev, store_iphPrev,
          store_ps, modify_handler, bind, get_handler, put_handler, ret in H.
        simpl in H. rewrite lookup_insert_eq in H. simpl in H.
        rewrite lookup_insert_ne in H by done. rewrite Hb in H. discriminate.
      * unfold iph_init, clear_prev_of_prev, clear_ps_of_prev, store_iphPrev,
          store_ps, modify_handler, bind, get_handler, put_handler, ret in H.
        simpl in H. rewrite lookup_insert_eq in H. simpl in H.
        rewrite <- He in H. rewrite lookup_insert_eq in H. simpl in H.
        rewrite lookup_insert_eq in H. simpl in H. discriminate.
Qed.

(** X4: A handler constructed without a segmenter: reading its mask gives
    the all-zero array of the rectangle's height and width, at any depth of
    at least 1, and caches nothing; this also holds for a rectangle without
    area, whose mask is empty. *)
Theorem mask_of_new_handler_without_segmenter d s potID rect im prev s' a :
  iph_init potID rect im None prev s = (s', Ok a) ->
  mask (S d) a s'
  = (s', Ok (zeros (Z.to_nat (Rect.height rect)) (Z.to_nat (Rect.width rect)))).
Proof.
  intros H. apply iph_init_Ok_inv in H as (_ & link & Ha & _).
  now apply (mask_unset_without_segmenter d s' a _ rect Ha).
Qed.

(** X5: The mask is computed once. The first read of a handler that has a
    segmenter, no predecessor and no mask yet returns the segmenter's answer
    and stores it; when that answer holds no -1, every later read returns it
    from the store and writes nothing, also after the segmenter has been
    taken away or replaced. *)
Theorem mask_computed_once d d' s a ha seg img ps' :
  handlers s !! a = Some ha ->
  _ps ha = Some seg -> _iphPrev ha = None -> image ha = Ok img ->
  contains (-1) (_mask ha) = true ->
  let s1 := mkStore (<[a := with_mask (seg img) ha]> (handlers s)) (matrices s) in
  mask (S d) a s = (s1, Ok (seg img))
  /\ (contains (-1) (seg img) = false ->
      mask (S d') a s1 = (s1, Ok (seg img))
      /\ mask (S d') a (fst (set_ps a ps' s1)) = (fst (set_ps a ps' s1), Ok (seg img))).
Proof.
  intros Ha Hps Hprev Himg Hstale s1. split.
  - simpl. unfold bind at 1. unfold get_handler at 1. rewrite Ha, Hstale. simpl.
    rewrite Hps.
    unfold getSegmented_with, modify_handler, bind, get_handler, lift, ret, put_handler.
    rewrite Ha, Hps, Himg, Hprev. simpl. rewrite Ha. reflexivity.
  - intros Hclean. split.
    + simpl. unfold bind, get_handler. subst s1. simpl.
      rewrite lookup_insert_eq. simpl. rewrite Hclean. reflexivity.
    + unfold set_ps, store_ps, modify_handler, bind, get_handler, put_handler.
      subst s1. simpl. rewrite lookup_insert_eq. simpl.
      unfold bind, get_handler. simpl.
      rewrite lookup_insert_eq. simpl. rewrite Hclean. reflexivity.
Qed.

Lemma getSegmented_with_eq mask_of s a ha seg img :
  handlers s !! a = Some ha -> _ps ha = Some seg -> image ha = Ok img ->
  getSegmented_with mask_of a s
  = match _iphPrev ha with
    | Some p =>
        if negb (contains 1 (seg img))
        then (pm <- mask_of p ;; ret (fit_prev_mask (seg img) pm)) s
        else (s, Ok (seg img))
    | None => (s, Ok (seg img))
    end.
Proof.
  intros Ha Hps Himg.
  unfold getSegmented_with, bind, get_handler, lift. rewrite Ha. simpl.
  rewrite Hps, Himg.
  destruct (_iphPrev ha); [destruct (negb (contains 1 (seg img)))|]; reflexivity.
Qed.

(** X6: [getSegmented] leaves every object as it is (its docstring: it does
    not change the internals of the instance) when the handler has no
    predecessor, when the segmenter found a plant, and when the predecessor
    has no segmenter, as linking leaves it; in the first two cases it
    returns the segmenter's mask. *)
Theorem getSegmented_keeps_store d s a ha seg img :
  handlers s !! a = Some ha ->
  _ps ha = Some seg -> image ha = Ok img ->
  (_iphPrev ha = None
   \/ contains 1 (seg img) = true
   \/ exists p hp, _iphPrev ha = Some p /\ handlers s !! p = Some hp /\ _ps hp = None) ->
  fst (getSegmented (S d) a s) = s
  /\ ((_iphPrev ha = None \/ contains 1 (seg img) = true) ->
      getSegmented (S d) a s = (s, Ok (seg img))).
Proof.
  intros Ha Hps Himg Hcase.
  unfold getSegmented. rewrite (getSegmented_with_eq _ s a ha seg img Ha Hps Himg).
  split.
  - destruct Hcase as [Hn | [Hone | (p & hp & Hp & Hhp & Hpps)]].
    + rewrite Hn. reflexivity.
    + destruct (_iphPrev ha); rewrite ?Hone; reflexivity.
    + rewrite Hp. destruct (negb (contains 1 (seg img))); [|reflexivity].
      destruct (mask_without_segmenter d p s hp Hhp Hpps) as (pm & Hpm & _).
      unfold bind. rewrite Hpm. reflexivity.
  - intros [Hn | Hone].
    + rewrite Hn. reflexivity.
    + destruct (_iphPrev ha); rewrite ?Hone; reflexivity.
Qed.

(** X7: Assigning a list of four numbers to [rect]: when they make a
    rectangle of the handler's image, the rectangle is replaced and the mask
    is reset to the unset one of the new height and width (holding -1 as
    soon as the rectangle has area), the identifier, the segmenter and the
    link being kept; when they do not, the constructor's error comes out and
    the handler keeps its rectangle and its mask. *)
Theorem set_rect_list s a ha l :
  handlers s !! a = Some ha -> length l = 4%nat ->
  (forall nr,
     Rect.init (PyList l) (image_shape (si ha)) Rect.growM_default = Ok nr ->
     set_rect a (RVSeq (PyList l)) s
     = (mkStore (<[a := mkIPH (_id ha) (si ha) nr (_ps ha) (_iphPrev ha) (unset_mask nr)]>
                   (handlers s)) (matrices s), Ok tt)
     /\ shape (unset_mask nr)
        = (Z.to_nat (Rect.height nr), Z.to_nat (Rect.width nr))
     /\ (0 < Rect.height nr -> 0 < Rect.width nr ->
         contains (-1) (unset_mask nr) = true))
  /\ (forall e,
        Rect.init (PyList l) (image_shape (si ha)) Rect.growM_default = Raise e ->
        set_rect a (RVSeq (PyList l)) s = (s, Raise e)).
Proof.
  intros Ha Hl. split.
  - intros nr Hnr. split; [|split].
    + unfold set_rect, bind, get_handler, lift, put_handler. rewrite Ha, Hl.
      cbn [Nat.eqb negb]. rewrite Hnr. reflexivity.
    + unfold shape, unset_mask, full. simpl. rewrite length_replicate. reflexivity.
    + intros Hh Hw. apply full_contains_self; lia.
  - intros e He.
    unfold set_rect, bind, get_handler, lift. rewrite Ha, Hl.
    cbn [Nat.eqb negb]. rewrite He. reflexivity.
Qed.

End HandlerMore.

Section HandlerMoreExamples.
Import Arr Pots Samples MoreSamples.

Lemma mask_of_new_handler_without_segmenter_witness :
  snd (mask 1 0%nat (fst (iph_init 1 rect_a im30 None RNone empty_store)))
  = Ok (zeros 10 10).
Proof.
  rewrite (mask_of_new_handler_without_segmenter 0 empty_store 1 rect_a im30 RNone
             (fst (iph_init 1 rect_a im30 None RNone empty_store)) 0%nat eq_refl).
  reflexivity.
Defined.

Lemma mask_computed_once_witness :
  snd (mask 1 0%nat store_one) = Ok (zeros 10 10)
  /\ mask 1 0%nat (fst (mask 1 0%nat store_one))
     = (fst (mask 1 0%nat store_one), Ok (zeros 10 10)).
Proof.
  destruct (mask_computed_once 0 0 store_one 0%nat handler_a seg_blank
              (crop 10 20 10 20 (pix im30)) None
              eq_refl eq_refl eq_refl eq_refl eq_refl) as [H1 H2].
  destruct (H2 eq_refl) as [H3 _].
  rewrite H1. split; [reflexivity|exact H3].
Defined.

Lemma getSegmented_keeps_store_witness :
  getSegmented 1 0%nat store_one = (store_one, Ok (zeros 10 10)).
Proof.
  destruct (getSegmented_keeps_store 0 store_one 0%nat handler_a seg_blank
              (crop 10 20 10 20 (pix im30)) eq_refl eq_refl eq_refl
              (or_introl eq_refl)) as [_ H].
  exact (H (or_introl eq_refl)).
Defined.

Lemma set_rect_list_witness :
  snd (set_rect 0%nat (RVSeq (PyList [5; 5; 25; 25])) store_one) = Ok tt
  /\ set_rect 0%nat (RVSeq (PyList [5; 5; 25; 45])) store_one
     = (store_one, Raise (TypeError Rect.msg_outside)).
Proof.
  destruct (set_rect_list store_one 0%nat handler_a [5; 5; 25; 25] eq_refl eq_refl)
    as [H1 _].
  destruct (set_rect_list store_one 0%nat handler_a [5; 5; 25; 45] eq_refl eq_refl)
    as [_ H2].
  destruct (H1 (Rect.mkRect [5; 5; 25; 25] 30 30) eq_refl) as [-> _].
  split; [reflexivity|]. apply H2. reflexivity.
Defined.

End HandlerMoreExamples.

(** ** [ImagePotMatrix]: the constructor, [getPot] and [addPot] *)

Section MatrixMore.
Import Arr Pots PotsMore.

Lemma pots_loop_Ok_inv link pots : forall i s s',
  pots_loop link i pots s = (s', Ok tt) -> Forall passed_over pots.
Proof.
  induction pots as [|p pots IH]; intros i s s' H; [constructor|].
  destruct p as [m|l|]; simpl in H.
  - discriminate.
  - destruct (Nat.eqb_spec (length l) 2) as [E2|N2]; simpl in H.
    { destruct link as [pm|]; [|discriminate].
      unfold bind in H. destruct (getPot pm i s) as [s1 [x|e]]; discriminate. }
    destruct (Nat.eqb_spec (length l) 4) as [E4|N4]; simpl in H.
    { destruct link as [pm|]; [|discriminate].
      unfold bind in H. destruct (getPot pm i s) as [s1 [x|e]]; discriminate. }
    constructor; [split; assumption|]. eauto.
  - constructor; [exact Logic.I|]. eauto.
Qed.

Lemma pots_loop_raises link pots : forall i s,
  ~ Forall passed_over pots ->
  exists e, snd (pots_loop link i pots s) = Raise e
            /\ (forall msg, e <> TypeError msg).
Proof.
  induction pots as [|p pots IH]; intros i s Hn.
  - exfalso. apply Hn. constructor.
  - destruct p as [m|l|]; simpl.
    + eexists. split; [reflexivity|]. discriminate.
    + destruct (Nat.eqb_spec (length l) 2) as [E2|N2]; simpl.
      { destruct link as [pm|]; [|eexists; split; [reflexivity|discriminate]].
        unfold bind, getPot, bind, get_matrix.
        destruct (matrices s !! pm) as [x|];
          [|eexists; split; [reflexivity|discriminate]].
        destruct (_pots x !! i); eexists; (split; [reflexivity|discriminate]). }
      destruct (Nat.eqb_spec (length l) 4) as [E4|N4]; simpl.
      { destruct link as [pm|]; [|eexists; split; [reflexivity|discriminate]].
        unfold bind, getPot, bind, get_matrix.
        destruct (matrices s !! pm) as [x|];
          [|eexists; split; [reflexivity|discriminate]].
        destruct (_pots x !! i); eexists; (split; [reflexivity|discriminate]). }
      apply IH. intros HF. apply Hn. constructor; [split; assumption|assumption].
    + apply IH. intros HF. apply Hn. constructor; [exact Logic.I|assumption].
Qed.

Lemma bind_Ok_step {S A B} (m : SE S A) (k : A -> SE S B) s s1 a :
  m s = (s1, Ok a) -> bind m k s = k a s1.
Proof. intros H. unfold bind. rewrite H. reflexivity. Qed.

Lemma bind_Raise_step {S A B} (m : SE S A) (k : A -> SE S B) s e :
  snd (m s) = Raise e -> snd (bind m k s) = Raise e.
Proof.
  intros H. unfold bind. destruct (m s) as [s1 [a|e1]]; simpl in *;
    [discriminate|injection H as ->; reflexivity].
Qed.

(** X8: The constructor never registers a pot. When it returns, the new
    matrix has an empty pot dictionary and every element of [pots] was
    passed over; a list of two or four numbers or a matrix among the
    elements makes it raise, and not the [TypeError] its last branch builds. *)
Theorem ipm_init_registers_nothing im pots growM prev s :
  (forall s' n,
     ipm_init im pots growM prev s = (s', Ok n) ->
     Forall passed_over pots
     /\ exists link, matrices s' !! n = Some (mkIPM link ∅)
                     /\ (prev = RNone /\ link = None
                         \/ exists m, prev = RMatrix m /\ link = Some m))
  /\ (~ Forall passed_over pots ->
      (prev = RNone \/ exists m, prev = RMatrix m /\ is_Some (matrices s !! m)) ->
      exists e, snd (ipm_init im pots growM prev s) = Raise e
                /\ (forall msg, e <> TypeError msg)).
Proof.
  split.
  - intros s' n H. unfold ipm_init in H.
    apply bind_Ok_inv in H as (s1 & link & Hlink & H).
    apply bind_Ok_inv in H as (s2 & [] & Hloop & H).
    split; [eapply pots_loop_Ok_inv; eauto|].
    unfold bind, put_matrix, ret in H. simpl in H. injection H as <- <-.
    exists link. simpl. split; [apply lookup_insert_eq|].
    destruct prev as [| |m|]; try discriminate.
    + left. unfold ret in Hlink. injection Hlink as _ <-. auto.
    + right. exists m. split; [reflexivity|].
      apply bind_Ok_inv in Hlink as (s0 & [] & _ & Hr).
      unfold ret in Hr. injection Hr as _ <-. reflexivity.
  - intros Hn Hprev. unfold ipm_init.
    destruct Hprev as [-> | (m & -> & [x Hx])].
    + destruct (pots_loop_raises None pots (-1) s Hn) as (e & He & Hne).
      exists e. split; [|assumption].
      rewrite (bind_Ok_step _ _ s s None) by reflexivity.
      now apply bind_Raise_step.
    + set (s0 := mkStore (handlers s) (<[m := mkIPM None (_pots x)]> (matrices s))).
      destruct (pots_loop_raises (Some m) pots (-1) s0 Hn) as (e & He & Hne).
      exists e. split; [|assumption].
      rewrite (bind_Ok_step _ _ s s0 (Some m)) by (rewrite ipm_link_step, Hx; reflexivity).
      now apply bind_Raise_step.
Qed.

Lemma get_matrix_Ok m s s' x :
  get_matrix m s = (s', Ok x) -> s' = s /\ matrices s !! m = Some x.
Proof.
  unfold get_matrix. destruct (matrices s !! m); [|discriminate].
  intros [= <- <-]. auto.
Qed.

Lemma get_handler_Ok a s s' h :
  get_handler a s = (s', Ok h) -> s' = s /\ handlers s !! a = Some h.
Proof.
  unfold get_handler. destruct (handlers s !! a); [|discriminate].
  intros [= <- <-]. auto.
Qed.

Lemma getPot_Ok m i s s' a :
  getPot m i s = (s', Ok a) ->
  s' = s /\ exists x, matrices s !! m = Some x /\ _pots x !! i = Some a.
Proof.
  unfold getPot. intros H.
  apply bind_Ok_inv in H as (s0 & x & Hx & H).
  apply get_matrix_Ok in Hx as [-> Hx].
  destruct (_pots x !! i) as [b|] eqn:Hi; [|discriminate].
  unfold ret in H. injection H as <- <-. eauto.
Qed.

Lemma keeps_matrices_bind {A B} (m : M A) (k : A -> M B) :
  keeps_matrices m -> (forall a, keeps_matrices (k a)) -> keeps_matrices (bind m k).
Proof.
  intros Hm Hk s. unfold bind. specialize (Hm s).
  destruct (m s) as [s' [a|e]]; simpl in *; [|assumption].
  rewrite Hk. assumption.
Qed.

Lemma keeps_matrices_modify_handler a f : keeps_matrices (modify_handler a f).
Proof.
  intros s. unfold modify_handler, bind, get_handler, put_handler.
  destruct (handlers s !! a); reflexivity.
Qed.

Lemma keeps_matrices_clear_prev a : keeps_matrices (clear_prev_of_prev a).
Proof.
  intros s. unfold clear_prev_of_prev, bind, get_handler.
  destruct (handlers s !! a) as [h|]; [|reflexivity].
  destruct (_iphPrev h); [apply keeps_matrices_modify_handler|reflexivity].
Qed.

Lemma keeps_matrices_clear_ps a : keeps_matrices (clear_ps_of_prev a).
Proof.
  intros s. unfold clear_ps_of_prev, bind, get_handler.
  destruct (handlers s !! a) as [h|]; [|reflexivity].
  destruct (_iphPrev h); [apply keeps_matrices_modify_handler|reflexivity].
Qed.

(** The setter of the link writes handlers only. *)
Lemma set_iphPrev_matrices p v s : matrices (fst (set_iphPrev p v s)) = matrices s.
Proof.
  revert s. change (keeps_matrices (set_iphPrev p v)).
  destruct v; simpl; try (intros s; reflexivity).
  - apply keeps_matrices_modify_handler.
  - apply keeps_matrices_bind; [apply keeps_matrices_modify_handler|intros _].
    apply keeps_matrices_bind; [apply keeps_matrices_clear_prev|intros _].
    apply keeps_matrices_clear_ps.
Qed.

(** X9: [addPot] and [getPot]. After [addPot] has returned, [getPot] finds
    the handler under its identifier, whatever was there before, and every
    other identifier is found as before. *)
Theorem addPot_getPot self p s s' :
  addPot self (RHandler p) s = (s', Ok tt) ->
  exists hp x x',
    handlers s !! p = Some hp /\ matrices s !! self = Some x
    /\ matrices s' !! self = Some x'
    /\ ipmPrev x' = ipmPrev x
    /\ _pots x' = <[_id hp := p]> (_pots x)
    /\ getPot self (_id hp) s' = (s', Ok p)
    /\ (forall i, i <> _id hp ->
        snd (getPot self i s') = snd (getPot self i s)).
Proof.
  intros H. unfold addPot in H.
  apply bind_Ok_inv in H as (s1 & x & Hx & H).
  apply get_matrix_Ok in Hx as [-> Hself].
  apply bind_Ok_inv in H as (s2 & hp & Hhp & H).
  apply get_handler_Ok in Hhp as [-> Hp].
  apply bind_Ok_inv in H as (s3 & v & Hv & H).
  apply bind_Ok_inv in H as (s4 & [] & Hset & H).
  apply bind_Ok_inv in H as (s5 & x' & Hx' & H).
  assert (s3 = s) as ->.
  { destruct (ipmPrev x) as [pm|].
    - apply bind_Ok_inv in Hv as (s0 & q & Hq & Hr).
      apply getPot_Ok in Hq as [-> _].
      unfold ret in Hr. injection Hr as <- _. reflexivity.
    - unfold ret in Hv. injection Hv as <- _. reflexivity. }
  assert (matrices s4 = matrices s) as Hm4.
  { pose proof (set_iphPrev_matrices p v s) as K. rewrite Hset in K. exact K. }
  apply get_matrix_Ok in Hx' as [-> Hx'].
  rewrite Hm4, Hself in Hx'. injection Hx' as <-.
  unfold put_matrix in H. injection H as <-.
  exists hp, x, (mkIPM (ipmPrev x) (<[_id hp := p]> (_pots x))).
  simpl. rewrite ?Hm4.
  repeat split; auto.
  - apply lookup_insert_eq.
  - unfold getPot, bind, get_matrix. simpl. rewrite ?Hm4, lookup_insert_eq.
    simpl. rewrite lookup_insert_eq. reflexivity.
  - intros i Hi. unfold getPot, bind, get_matrix. simpl.
    rewrite ?Hm4, lookup_insert_eq, Hself. simpl.
    rewrite lookup_insert_ne by congruence.
    destruct (_pots x !! i); reflexivity.
Qed.

(** X10: [addPot] wires the handler to the pot of the previous matrix that
    has the same identifier: that pot becomes its predecessor and loses its
    own predecessor and its segmenter. When the previous matrix has no pot
    of that identifier, [getPot] fails on building its message, with
    [NameError] and not the [IndexError] it means to raise, and the handler
    is neither linked nor added. *)
Theorem addPot_links_previous s self x pm xp p hp :
  matrices s !! self = Some x -> ipmPrev x = Some pm ->
  matrices s !! pm = Some xp -> handlers s !! p = Some hp ->
  (forall q hq,
     _pots xp !! _id hp = Some q -> handlers s !! q = Some hq -> q <> p ->
     exists s', addPot self (RHandler p) s = (s', Ok tt)
       /\ handlers s' !! p = Some (with_iphPrev (Some q) hp)
       /\ handlers s' !! q = Some (linked hq)
       /\ matrices s' !! self = Some (mkIPM (Some pm) (<[_id hp := p]> (_pots x))))
  /\ (_pots xp !! _id hp = None ->
      addPot self (RHandler p) s = (s, Raise (NameError msg_potNum))).
Proof.
  intros Hself Hprev Hpm Hp. split.
  - intros q hq Hq Hhq Hne.
    eexists. split.
    + unfold addPot.
      rewrite (bind_Ok_step _ _ s s x) by (unfold get_matrix; now rewrite Hself).
      rewrite (bind_Ok_step _ _ s s hp) by (unfold get_handler; now rewrite Hp).
      rewrite Hprev.
      rewrite (bind_Ok_step _ _ s s (RHandler q)).
      2:{ unfold getPot, bind, get_matrix, ret. rewrite Hpm. simpl. now rewrite Hq. }
      rewrite (bind_Ok_step _ _ s _ tt (set_iphPrev_link_eq s p q hp hq Hp Hhq (not_eq_sym Hne))).
      unfold bind, get_matrix, put_matrix. simpl. rewrite Hself. rewrite Hprev.
      reflexivity.
    + simpl. split; [rewrite lookup_insert_ne by auto; apply lookup_insert_eq|].
      split; [apply lookup_insert_eq|apply lookup_insert_eq].
  - intros Hnone. unfold addPot.
    rewrite (bind_Ok_step _ _ s s x) by (unfold get_matrix; now rewrite Hself).
    rewrite (bind_Ok_step _ _ s s hp) by (unfold get_handler; now rewrite Hp).
    rewrite Hprev.
    unfold bind, getPot, bind, get_matrix. rewrite Hpm. simpl. rewrite Hnone.
    reflexivity.
Qed.

End MatrixMore.

Section MatrixMoreExamples.
Import Arr Pots PotsMore Samples MoreSamples.

Lemma ipm_init_registers_nothing_witness :
  Forall passed_over [POtherArg; PListArg [1; 2; 3]]
  /\ exists e, snd (ipm_init im30 [PListArg [5; 5]] 100 RNone empty_store) = Raise e
               /\ forall msg, e <> TypeError msg.
Proof.
  split.
  - destruct (ipm_init_registers_nothing im30 [POtherArg; PListArg [1; 2; 3]] 100 RNone
                empty_store) as [H _].
    destruct (H (fst (ipm_init im30 [POtherArg; PListArg [1; 2; 3]] 100 RNone empty_store))
                0%nat eq_refl) as [HF _].
    exact HF.
  - destruct (ipm_init_registers_nothing im30 [PListArg [5; 5]] 100 RNone empty_store)
      as [_ H].
    apply H; [|left; reflexivity].
    intros HF. inversion HF as [|? ? Hp _]. destruct Hp as [Hp _]. apply Hp. reflexivity.
Defined.

Lemma addPot_getPot_witness :
  getPot 1%nat 1 (fst (addPot 1%nat (RHandler 1) store_trays))
  = (fst (addPot 1%nat (RHandler 1) store_trays), Ok 1%nat).
Proof.
  destruct (addPot_getPot 1%nat 1%nat store_trays
              (fst (addPot 1%nat (RHandler 1) store_trays)) eq_refl)
    as (hp & x & x' & Hhp & _ & _ & _ & _ & Hget & _).
  injection Hhp as <-. exact Hget.
Defined.

Lemma addPot_links_previous_witness :
  (exists s' h, addPot 1%nat (RHandler 1) store_trays = (s', Ok tt)
     /\ handlers s' !! 1%nat = Some h /\ _iphPrev h = Some 0%nat)
  /\ addPot 1%nat (RHandler 2) store_trays
     = (store_trays, Raise (NameError msg_potNum)).
Proof.
  split.
  - destruct (addPot_links_previous store_trays 1%nat
                (mkIPM (Some 0%nat) ∅) 0%nat (mkIPM None {[1 := 0%nat]}) 1%nat
                (mkIPH 1 im30 rect_a (Some seg_blank) None (unset_mask rect_a))
                eq_refl eq_refl eq_refl eq_refl) as [H _].
    destruct (H 0%nat (mkIPH 1 im30 rect_b (Some seg_blank) None (unset_mask rect_b))
                eq_refl eq_refl) as (s' & Hs' & Hp & _); [discriminate|].
    eexists s', _. split; [exact Hs'|]. split; [exact Hp|reflexivity].
  - destruct (addPot_links_previous store_trays 1%nat
                (mkIPM (Some 0%nat) ∅) 0%nat (mkIPM None {[1 := 0%nat]}) 2%nat
                (mkIPH 2 im30 rect_a (Some seg_blank) None (unset_mask rect_a))
                eq_refl eq_refl eq_refl eq_refl) as [_ H].
    apply H. reflexivity.
Defined.

End MatrixMoreExamples.

Section ImageShape.
Import Arr Pots PotsMore.

Lemma pyslice_length {A} (a b : nat) (l : list A) :
  (a <= b)%nat -> (b <= length l)%nat -> length (pyslice a b l) = (b - a)%nat.
Proof.
  intros Hab Hb. unfold pyslice. rewrite length_take, length_drop. lia.
Qed.

(** X11: The crop a handler returns as [image] has the height and the width
    of its rectangle, hence the shape of its mask, when the rectangle was
    built for the handler's super image with its corners in order. *)
Theorem image_shape_matches_mask h rectDesc growM :
  Rect.init rectDesc (image_shape (si h)) growM = Ok (Pots._rect h) ->
  Rect.left (Pots._rect h) <= Rect.right (Pots._rect h) ->
  Rect.top (Pots._rect h) <= Rect.bottom (Pots._rect h) ->
  exists img,
    image h = Ok img
    /\ shape img = (Z.to_nat (Rect.height (Pots._rect h)),
                    Z.to_nat (Rect.width (Pots._rect h)))
    /\ shape img = shape (unset_mask (Pots._rect h)).
Proof.
  intros Hinit Hlr Htb.
  destruct (init_Ok_inv _ _ _ _ Hinit)
    as (a & b & c & d & ih & iw & rest & Hr & Hsz & Hw & Hh & _ & _ & Ho).
  apply outside_false_iff in Ho.
  unfold image_shape in Hsz. injection Hsz as Hih Hiw _.
  unfold Rect.left, Rect.right, Rect.top, Rect.bottom, Rect.at_ in Hlr, Htb.
  rewrite Hr in Hlr, Htb. simpl in Hlr, Htb.
  unfold image, Rect.getitem, np_getitem. rewrite Hr. simpl.
  eexists. split; [reflexivity|].
  assert (shape (unset_mask (Pots._rect h))
          = (Z.to_nat (Rect.height (Pots._rect h)), Z.to_nat (Rect.width (Pots._rect h))))
    as Hm.
  { unfold shape, unset_mask, full. simpl. now rewrite length_replicate. }
  rewrite Hm.
  assert (shape (crop (Z.to_nat b) (Z.to_nat d) (Z.to_nat a) (Z.to_nat c) (pix (si h)))
          = (Z.to_nat (Rect.height (Pots._rect h)), Z.to_nat (Rect.width (Pots._rect h))))
    as Hs; [|split; exact Hs].
  unfold Rect.height, Rect.width, Rect.at_. rewrite Hr. simpl.
  unfold shape, crop. simpl. rewrite length_fmap.
  rewrite pyslice_length by lia. f_equal; lia.
Qed.

(** X12: Assigning a mask and reading it back. An array of the shape of the
    current mask is stored, and is what [mask] returns from then on when it
    holds no -1; an array that holds a -1 is stored but counts as unset, so
    a handler without segmenter answers with zeros. An array of another
    shape, and anything that is not a float64 array, raises [ValueError] and
    leaves the handler as it was. *)
Theorem set_mask_then_mask d s a ha m :
  handlers s !! a = Some ha ->
  (shape m = shape (_mask ha) ->
   let s1 := mkStore (<[a := with_mask m ha]> (handlers s)) (matrices s) in
   set_mask a (MVFloat64 m) s = (s1, Ok tt)
   /\ (contains (-1) m = false -> mask (S d) a s1 = (s1, Ok m))
   /\ (contains (-1) m = true -> _ps ha = None ->
       mask (S d) a s1 = (s1, Ok (zeros (fst (shape m)) (snd (shape m))))))
  /\ (shape m <> shape (_mask ha) ->
      set_mask a (MVFloat64 m) s = (s, Raise (ValueError msg_mask)))
  /\ set_mask a MVOther s = (s, Raise (ValueError msg_mask)).
Proof.
  intros Ha. split; [|split].
  - intros Hshape s1. split; [|split].
    + unfold set_mask, bind, get_handler, put_handler. rewrite Ha.
      rewrite bool_decide_eq_true_2 by exact Hshape. reflexivity.
    + intros Hclean. simpl. unfold bind, get_handler. simpl.
      rewrite lookup_insert_eq. simpl. rewrite Hclean. reflexivity.
    + intros Hunset Hps. simpl. unfold bind, get_handler. simpl.
      rewrite lookup_insert_eq. simpl. rewrite Hunset, Hps. reflexivity.
  - intros Hshape. unfold set_mask, bind, get_handler. rewrite Ha.
    rewrite bool_decide_eq_false_2 by exact Hshape. reflexivity.
  - unfold set_mask, bind, get_handler. rewrite Ha. reflexivity.
Qed.

End ImageShape.

Section ImageShapeExamples.
Import Arr Pots PotsMore Samples MoreSamples.

Lemma image_shape_matches_mask_witness :
  exists img, image handler_a = Ok img /\ shape img = (10%nat, 10%nat).
Proof.
  destruct (image_shape_matches_mask handler_a (PyList [10; 10; 20; 20])
              Rect.growM_default eq_refl) as (img & Himg & Hshape & _).
  - vm_compute. discriminate.
  - vm_compute. discriminate.
  - exists img. split; [exact Himg|exact Hshape].
Defined.

Lemma set_mask_then_mask_witness :
  snd (set_mask 0%nat (MVFloat64 (zeros 10 10)) store_one) = Ok tt
  /\ set_mask 0%nat (MVFloat64 (zeros 3 3)) store_one
     = (store_one, Raise (ValueError msg_mask)).
Proof.
  destruct (set_mask_then_mask 0 store_one 0%nat handler_a (zeros 10 10) eq_refl)
    as [H1 _].
  destruct (set_mask_then_mask 0 store_one 0%nat handler_a (zeros 3 3) eq_refl)
    as (_ & H2 & _).
  destruct (H1 eq_refl) as [-> _].
  split; [reflexivity|]. apply H2. discriminate.
Defined.

End ImageShapeExamples.

(** ** Paths of an archive *)

Section PathFacts.
Import OS Frame Archive.

Lemma rstrip_sep_cons c r :
  rstrip_sep (String c r)
  = if is_sep c && is_empty (rstrip_sep r) then EmptyString
    else String c (rstrip_sep r).
Proof. reflexivity. Qed.

Lemma rstrip_sep_idem s : rstrip_sep (rstrip_sep s) = rstrip_sep s.
Proof.
  induction s as [|c r IH]; [reflexivity|].
  rewrite rstrip_sep_cons.
  destruct (is_sep c && is_empty (rstrip_sep r)) eqn:Hc; [reflexivity|].
  rewrite rstrip_sep_cons, IH, Hc. reflexivity.
Qed.

(** A string without trailing separator, after one more character. *)
Lemma rstrip_sep_fixed_cons c r :
  rstrip_sep r = r -> is_empty r = false -> rstrip_sep (String c r) = String c r.
Proof.
  intros Hr Hne. rewrite rstrip_sep_cons, Hr, Hne, andb_false_r. reflexivity.
Qed.

Lemma startswith_refl_app pre s : startswith pre (pre +:+ s) = true.
Proof.
  unfold startswith. induction pre as [|c pre IH]; simpl.
  - destruct s; reflexivity.
  - destruct (ascii_dec c c); [assumption|congruence].
Qed.

(** The path the [path] setter and [create] store: normalising it again
    changes nothing, unless the path given consists of separators only. *)
Lemma normalize_idem p :
  is_empty (rstrip_sep p) = false -> normalize (normalize p) = normalize p.
Proof.
  intros Hne. unfold normalize.
  set (q := rstrip_sep p) in *.
  assert (rstrip_sep q = q) as Hq by apply rstrip_sep_idem.
  destruct (startswith (String sep EmptyString) q) eqn:H1.
  { rewrite Hq, H1. reflexivity. }
  destruct (startswith dotslash q) eqn:H2.
  { rewrite Hq, H1, H2. reflexivity. }
  assert (rstrip_sep (dotslash +:+ q) = dotslash +:+ q) as Hd.
  { change (dotslash +:+ q) with (String "."%char (String sep q)).
    rewrite (rstrip_sep_fixed_cons "." (String sep q)); [reflexivity| |reflexivity].
    now apply rstrip_sep_fixed_cons. }
  rewrite Hd.
  replace (startswith (String sep EmptyString) (dotslash +:+ q)) with false
    by reflexivity.
  rewrite startswith_refl_app. reflexivity.
Qed.

Lemma normalize_not_empty p : is_empty (normalize p) = false.
Proof.
  unfold normalize.
  destruct (startswith (String sep EmptyString) (rstrip_sep p)) eqn:H1.
  { destruct (rstrip_sep p); [discriminate|reflexivity]. }
  destruct (startswith dotslash (rstrip_sep p)) eqn:H2.
  { destruct (rstrip_sep p); [discriminate|reflexivity]. }
  reflexivity.
Qed.

Lemma normalize_rstrip p :
  is_empty (rstrip_sep p) = false ->
  rstrip_sep (normalize p) = normalize p.
Proof.
  intros Hne. unfold normalize.
  set (q := rstrip_sep p) in *.
  assert (rstrip_sep q = q) as Hq by apply rstrip_sep_idem.
  destruct (startswith (String sep EmptyString) q); [assumption|].
  destruct (startswith dotslash q); [assumption|].
  change (dotslash +:+ q) with (String "."%char (String sep q)).
  rewrite (rstrip_sep_fixed_cons "." (String sep q)); [reflexivity| |reflexivity].
  now apply rstrip_sep_fixed_cons.
Qed.

Lemma rstrip_fixed_tail c r :
  rstrip_sep (String c r) = String c r -> rstrip_sep r = r.
Proof.
  rewrite rstrip_sep_cons.
  destruct (is_sep c && is_empty (rstrip_sep r)); [discriminate|].
  intros [= H]. exact H.
Qed.

Lemma endswith_sep_fixed p : rstrip_sep p = p -> endswith_sep p = false.
Proof.
  induction p as [|c r IH]; [reflexivity|]. intros H.
  pose proof (rstrip_fixed_tail c r H) as Hr.
  destruct r as [|c' r'].
  - simpl in *. destruct (is_sep c); [discriminate|reflexivity].
  - change (endswith_sep (String c (String c' r')))
      with (endswith_sep (String c' r')). auto.
Qed.

Lemma join_fixed p b :
  rstrip_sep p = p -> is_empty p = false ->
  startswith (String sep EmptyString) b = false ->
  join p b = p +:+ String sep b.
Proof.
  intros Hp Hne Hb. unfold join.
  rewrite Hb, Hne, (endswith_sep_fixed p Hp). reflexivity.
Qed.

Lemma contains_sep_app p b :
  contains_char sep (p +:+ String sep b) = true.
Proof.
  induction p as [|c r IH]; simpl.
  - reflexivity.
  - rewrite IH. apply orb_true_r.
Qed.

Lemma head_of_app p b :
  contains_char sep b = false ->
  head_of (p +:+ String sep b) = p +:+ String sep EmptyString.
Proof.
  intros Hb. induction p as [|c r IH]; simpl.
  - rewrite Hb. reflexivity.
  - rewrite contains_sep_app, IH. reflexivity.
Qed.

Lemma rstrip_sep_app_sep p :
  rstrip_sep p = p -> is_empty p = false ->
  rstrip_sep (p +:+ String sep EmptyString) = p.
Proof.
  induction p as [|c r IH]; [discriminate|]. intros H _.
  pose proof (rstrip_fixed_tail c r H) as Hr.
  change (String c r +:+ String sep EmptyString)
    with (String c (r +:+ String sep EmptyString)).
  rewrite rstrip_sep_cons.
  destruct r as [|c' r'].
  - simpl in H |- *. destruct (is_sep c); [discriminate|reflexivity].
  - rewrite (IH Hr eq_refl). rewrite andb_false_r. reflexivity.
Qed.

(** The directory of a file name joined to a normalised path is that
    path. *)
Lemma dirname_join p b :
  rstrip_sep p = p -> is_empty p = false ->
  contains_char sep b = false ->
  startswith (String sep EmptyString) b = false ->
  dirname (join p b) = p.
Proof.
  intros Hp Hne Hb Hs. rewrite (join_fixed p b Hp Hne Hs).
  unfold dirname. rewrite (head_of_app p b Hb), (rstrip_sep_app_sep p Hp Hne).
  rewrite Hne. reflexivity.
Qed.

End PathFacts.


Section PathSetter.
Import OS Frame Archive.

Lemma rstrip_sep_empty_iff p :
  is_empty (rstrip_sep p) = true <-> forallb is_sep (String.list_ascii_of_string p) = true.
Proof.
  induction p as [|c r IH]; [split; reflexivity|].
  rewrite rstrip_sep_cons. simpl.
  destruct (is_sep c); simpl.
  - destruct (is_empty (rstrip_sep r)) eqn:Hr; simpl.
    + split; [intros _; now apply IH|reflexivity].
    + split; [discriminate|]. intros H. apply IH in H. discriminate.
  - split; discriminate.
Qed.

(** X13: What the [path] setter stores. For a path with a character other
    than the separator, the stored path has no trailing separator and starts
    with the separator or with [./]; the data directory is the stored path
    followed by [/_data], and exists afterwards when the path is a
    directory. Assigning the stored path again changes nothing. *)
Theorem set_path_normal_form p0 s s' :
  is_empty (rstrip_sep p0) = false ->
  set_path (PyStr p0) s = (s', Ok tt) ->
  exists p,
    _path (ts s') = Some p
    /\ rstrip_sep p = p
    /\ (startswith (String sep EmptyString) p = true \/ startswith dotslash p = true)
    /\ data_dir (ts s') = Some (p +:+ String sep "_data")
    /\ dirname (p +:+ String sep "_data") = p
    /\ (isdir (fs s) p = true -> isdir (fs s') (p +:+ String sep "_data") = true)
    /\ set_path (PyStr p) s' = (s', Ok tt).
Proof.
  intros Hne H.
  pose proof (normalize_rstrip p0 Hne) as Hfix.
  pose proof (normalize_not_empty p0) as Hnn.
  pose proof (normalize_idem p0 Hne) as Hidem.
  assert (join (normalize p0) "_data" = normalize p0 +:+ String sep "_data") as Hjoin
    by (apply join_fixed; auto).
  assert (dirname (normalize p0 +:+ String sep "_data") = normalize p0) as Hdir
    by (rewrite <- Hjoin; apply dirname_join; auto).
  exists (normalize p0).
  unfold set_path in H |- *. rewrite Hidem. rewrite Hjoin in H |- *.
  set (p := normalize p0) in *. set (d := p +:+ String sep "_data") in *.
  unfold bind, modify_ts, get_fs, fs_call, ret in H |- *. simpl in H |- *.
  assert (startswith (String sep EmptyString) p = true \/ startswith dotslash p = true)
    as Hstart.
  { subst p. unfold normalize.
    destruct (startswith (String sep EmptyString) (rstrip_sep p0)) eqn:H1; [auto|].
    destruct (startswith dotslash (rstrip_sep p0)) eqn:H2; [auto|].
    right. apply startswith_refl_app. }
  destruct (negb (isdir (fs s) d) && isdir (fs s) p) eqn:Hc; simpl in H.
  - apply andb_true_iff in Hc as [Hd Hp]. apply negb_true_iff in Hd.
    unfold mkdir in H. rewrite Hdir, Hp in H.
    destruct (exists_ (fs s) d) eqn:Hex; [discriminate|]. simpl in H.
    injection H as <-. simpl.
    assert (isdir (mkFS ({[d]} ∪ dirs (fs s)) (files (fs s))) d = true) as Hd'.
    { unfold isdir. simpl. apply bool_decide_eq_true.
      apply elem_of_union_l, elem_of_singleton. reflexivity. }
    rewrite Hd'. simpl. repeat split; auto.
  - injection H as <-. simpl. rewrite Hc. simpl. repeat split; auto.
    intros Hp. rewrite Hp, andb_true_r in Hc. now apply negb_false_iff in Hc.
Qed.

(** X14: A path made of separators only, the root directory among them, and
    the empty path are stored as [./], the current directory. *)
Theorem set_path_of_root p0 s :
  forallb is_sep (String.list_ascii_of_string p0) = true ->
  _path (ts (fst (set_path (PyStr p0) s))) = Some dotslash
  /\ data_dir (ts (fst (set_path (PyStr p0) s))) = Some "./_data".
Proof.
  intros H. apply rstrip_sep_empty_iff in H.
  assert (normalize p0 = dotslash) as Hn.
  { unfold normalize. destruct (rstrip_sep p0); [reflexivity|discriminate]. }
  unfold set_path. rewrite Hn.
  unfold bind, modify_ts, get_fs, fs_call, ret. simpl.
  destruct (negb (isdir (fs s) (join dotslash "_data")) && isdir (fs s) dotslash).
  - destruct (mkdir _ _); simpl; auto.
  - simpl. auto.
Qed.

End PathSetter.

Section PathSetterExamples.
Import OS Frame Archive Samples MoreSamples.

Lemma set_path_normal_form_witness :
  let s' := fst (set_path (PyStr "/data/ts/") (mkAS new_timestream fs_ts_dir)) in
  Archive._path (ts s') = Some "/data/ts"
  /\ isdir (fs s') "/data/ts/_data" = true
  /\ set_path (PyStr "/data/ts") s' = (s', Ok tt).
Proof.
  intros s'.
  destruct (set_path_normal_form "/data/ts/" (mkAS new_timestream fs_ts_dir) s'
              eq_refl eq_refl) as (p & Hp & _ & _ & _ & _ & Hdir & Hagain).
  injection Hp as <-.
  split; [reflexivity|]. split; [exact (Hdir eq_refl)|exact Hagain].
Defined.

Lemma set_path_of_root_witness :
  Archive._path (ts (fst (set_path (PyStr "/") (mkAS new_timestream fs0)))) = Some "./".
Proof.
  destruct (set_path_of_root "/" (mkAS new_timestream fs0) eq_refl) as [H _].
  exact H.
Defined.

End PathSetterExamples.

(** ** [TimeStream.create] *)

Section CreateMore.
Import OS Frame Archive ArchiveMore.
Context {E : Externals}.

Lemma app_cons_ne p c x : p +:+ String c x <> p.
Proof.
  induction p as [|a p IH]; simpl; [discriminate|].
  intros [= H]. exact (IH H).
Qed.

Lemma create_fresh_run p0 ext type_ start end_ s :
  is_empty (rstrip_sep p0) = false ->
  isdir (fs s) (dirname (normalize p0)) = true ->
  exists_ (fs s) (normalize p0) = false ->
  exists_ (fs s) (normalize p0 +:+ String sep "_data") = false ->
  contains_char "_" (basename (normalize p0)) = false ->
  create (PyStr p0) (PyInt 1) ext type_ start end_ PyNone s
  = (if truthy type_ then modify_ts (with_image_type type_)
     else match IMAGE_EXT_TO_TYPE ext with
          | Some ty => modify_ts (with_image_type (Some ty))
          | None => raise (ValueError msg_ext)
          end) (created (normalize p0) ext start end_ s).
Proof.
  intros Hne Hpar Hp Hd Hname.
  pose proof (normalize_rstrip p0 Hne) as Hfix.
  pose proof (normalize_not_empty p0) as Hnn.
  pose proof (normalize_idem p0 Hne) as Hidem.
  assert (join (normalize p0) "_data" = normalize p0 +:+ String sep "_data") as Hjoin
    by (apply join_fixed; auto).
  assert (dirname (normalize p0 +:+ String sep "_data") = normalize p0) as Hdir
    by (rewrite <- Hjoin; apply dirname_join; auto).
  unfold create, created, set_path. rewrite Hidem, Hjoin.
  set (p := normalize p0) in *. set (d := p +:+ String sep "_data") in *.
  assert (exists_ (fs s) (dirname p) = true) as Hpar'
    by (unfold exists_; rewrite Hpar; reflexivity).
  unfold set_version. simpl.
  unfold bind at 1. unfold modify_ts at 1.
  unfold bind at 1. unfold get_fs at 1. cbn [fs ts].
  rewrite Hpar'. cbn [negb].
  unfold bind at 1. unfold get_ts at 1.
  unfold bind at 1. cbn [fs ts]. rewrite Hp. cbn [negb].
  unfold with_version at 1. cbn [_version].
  unfold fs_call at 1. cbn [fs ts]. unfold mkdir at 1. rewrite Hp, Hpar.
  unfold bind at 1. unfold bind at 1. unfold bind at 1. unfold modify_ts at 1.
  unfold bind at 1. unfold get_fs at 1. cbn [fs ts].
  assert (isdir (mkFS ({[p]} ∪ dirs (fs s)) (files (fs s))) d = false) as Hd1.
  { unfold exists_ in Hd. apply orb_false_iff in Hd as [Hd _].
    unfold isdir in Hd |- *. cbn [dirs]. apply bool_decide_eq_false.
    apply bool_decide_eq_false in Hd. intros Hin. apply Hd.
    apply elem_of_union in Hin as [Hin|Hin]; [|exact Hin].
    apply elem_of_singleton in Hin. exfalso. exact (app_cons_ne _ _ _ Hin). }
  assert (isdir (mkFS ({[p]} ∪ dirs (fs s)) (files (fs s))) p = true) as Hp1.
  { unfold isdir. cbn [dirs]. apply bool_decide_eq_true.
    apply elem_of_union_l, elem_of_singleton. reflexivity. }
  rewrite Hd1, Hp1. cbn [negb andb].
  unfold bind at 1. unfold fs_call at 1. cbn [fs ts]. unfold mkdir at 1.
  assert (exists_ (mkFS ({[p]} ∪ dirs (fs s)) (files (fs s))) d = false) as Hex1.
  { unfold exists_. rewrite Hd1. unfold exists_ in Hd.
    apply orb_false_iff in Hd as [_ Hd]. exact Hd. }
  rewrite Hex1, Hdir, Hp1.
  unfold bind, modify_ts, set_name. cbn [fs ts dirs files].
  rewrite Hname. cbn [fs ts].
  reflexivity.
Qed.


(** X16: [create] is not atomic. When the parent directory is missing it
    raises [ValueError] with the version already assigned; when the
    extension has no image type and none is given, it raises [ValueError]
    after it has made the two directories and set the path and the name. *)
Theorem create_failure_leaves_traces p0 ext type_ start end_ s :
  (forall v name, 1 <= v <= 2 ->
     exists_ (fs s) (dirname (normalize p0)) = false ->
     create (PyStr p0) (PyInt v) ext type_ start end_ name s
     = (mkAS (with_version (Some v) (ts s)) (fs s), Raise (ValueError msg_parent)))
  /\ (is_empty (rstrip_sep p0) = false ->
      isdir (fs s) (dirname (normalize p0)) = true ->
      exists_ (fs s) (normalize p0) = false ->
      exists_ (fs s) (normalize p0 +:+ String sep "_data") = false ->
      contains_char "_" (basename (normalize p0)) = false ->
      truthy type_ = false -> IMAGE_EXT_TO_TYPE ext = None ->
      exists s',
        create (PyStr p0) (PyInt 1) ext type_ start end_ PyNone s
        = (s', Raise (ValueError msg_ext))
        /\ isdir (fs s') (normalize p0) = true
        /\ isdir (fs s') (normalize p0 +:+ String sep "_data") = true
        /\ Archive._path (ts s') = Some (normalize p0)
        /\ _name (ts s') = Some (basename (normalize p0))
        /\ image_type (ts s') = image_type (ts s)).
Proof.
  split.
  - intros v name Hv Hpar. unfold create, set_version.
    replace ((v <? 1) || (2 <? v)) with false
      by (symmetry; apply orb_false_iff; rewrite !Z.ltb_ge; lia).
    unfold bind, modify_ts, get_fs. simpl. rewrite Hpar. reflexivity.
  - intros Hne Hpar Hp Hd Hname Hty Hext.
    rewrite (create_fresh_run p0 ext type_ start end_ s Hne Hpar Hp Hd Hname).
    rewrite Hty, Hext. eexists. split; [reflexivity|]. simpl.
    repeat split; unfold isdir; simpl; apply bool_decide_eq_true; set_solver.
Qed.

(** X17: In version 2 [create] makes no directory: for a path where nothing
    exists the files and directories are as before, whatever the call
    returns or raises, while the path and the data directory of the archive
    are set when the parent exists. *)
Theorem create_v2_makes_no_directory p0 ext type_ start end_ name s :
  is_empty (rstrip_sep p0) = false ->
  exists_ (fs s) (normalize p0) = false ->
  let s' := fst (create (PyStr p0) (PyInt 2) ext type_ start end_ name s) in
  fs s' = fs s
  /\ _version (ts s') = Some 2
  /\ (exists_ (fs s) (dirname (normalize p0)) = true ->
      Archive._path (ts s') = Some (normalize p0)
      /\ data_dir (ts s') = Some (normalize p0 +:+ String sep "_data")).
Proof.
  intros Hne Hp s'.
  pose proof (normalize_rstrip p0 Hne) as Hfix.
  pose proof (normalize_not_empty p0) as Hnn.
  pose proof (normalize_idem p0 Hne) as Hidem.
  assert (join (normalize p0) "_data" = normalize p0 +:+ String sep "_data") as Hjoin
    by (apply join_fixed; auto).
  set (p := normalize p0) in *. set (d := p +:+ String sep "_data") in *.
  assert (isdir (fs s) p = false) as Hp'
    by (unfold exists_ in Hp; now apply orb_false_iff in Hp as [Hp _]).
  assert (exists s1 r,
            create (PyStr p0) (PyInt 2) ext type_ start end_ name s = (s1, r)
            /\ fs s1 = fs s /\ _version (ts s1) = Some 2
            /\ (exists_ (fs s) (dirname p) = true ->
                Archive._path (ts s1) = Some p /\ data_dir (ts s1) = Some d))
    as (s1 & r & Hrun & Hfs & Hv & Hpath).
  { unfold create, set_version, set_path. fold p. rewrite Hidem, Hjoin.
    change ((2 <? 1) || (2 <? 2)) with false. cbn iota.
    unfold bind at 1. unfold modify_ts at 1.
    unfold bind at 1. unfold get_fs at 1. cbn [fs ts].
    destruct (exists_ (fs s) (dirname p)) eqn:Hpar; cbn [negb].
    2:{ do 2 eexists. split; [reflexivity|]. simpl.
        repeat split; (reflexivity || discriminate). }
    unfold bind at 1. unfold get_ts at 1.
    unfold bind at 1. cbn [fs ts]. rewrite Hp. cbn [negb].
    unfold with_version at 1. cbn [_version]. unfold ret at 1.
    unfold bind at 1. unfold bind at 1. unfold bind at 1. unfold modify_ts at 1.
    unfold bind at 1. unfold get_fs at 1. cbn [fs ts].
    rewrite Hp', andb_false_r.
    unfold bind, modify_ts, ret, set_name. cbn [fs ts].
    destruct name as [| |n|]; try destruct (contains_char "_" (basename p));
      destruct (truthy type_); try destruct (IMAGE_EXT_TO_TYPE ext);
      do 2 eexists; (split; [reflexivity|]); simpl; repeat split; auto. }
  subst s'. rewrite Hrun. simpl. auto.
Qed.

End CreateMore.

Section CreateMoreExamples.
Import OS Frame Archive Samples MoreSamples.


Lemma create_failure_leaves_traces_witness :
  create (PyStr "/nowhere/new") (PyInt 1) "png" None 0 120 PyNone
    (mkAS new_timestream fs0)
  = (mkAS (with_version (Some 1) new_timestream) fs0, Raise (ValueError msg_parent))
  /\ exists s',
       create (PyStr "/data/new") (PyInt 1) "tiff" None 0 120 PyNone
         (mkAS new_timestream fs0) = (s', Raise (ValueError msg_ext))
       /\ isdir (fs s') "/data/new" = true.
Proof.
  split.
  - destruct (create_failure_leaves_traces (E := sample_externals) "/nowhere/new" "png" None 0 120
                (mkAS new_timestream fs0)) as [H _].
    apply (H 1 PyNone); [lia|reflexivity].
  - destruct (create_failure_leaves_traces (E := sample_externals) "/data/new" "tiff" None 0 120
                (mkAS new_timestream fs0)) as [_ H].
    destruct (H eq_refl eq_refl eq_refl eq_refl eq_refl eq_refl eq_refl)
      as (s' & Hc & Hdir & _).
    exists s'. split; [exact Hc|exact Hdir].
Defined.

Lemma create_v2_makes_no_directory_witness :
  fs (fst (create (PyStr "/data/new") (PyInt 2) "png" None 0 120 PyNone
             (mkAS new_timestream fs0))) = fs0.
Proof.
  destruct (create_v2_makes_no_directory (E := sample_externals) "/data/new" "png" None 0 120 PyNone
              (mkAS new_timestream fs0) eq_refl eq_refl) as [H _].
  exact H.
Defined.

End CreateMoreExamples.

(** ** Images on disk *)

Section ImageFiles.
Import OS Frame Archive.
Context {E : Externals}.

Lemma on_archive_Ok {T} (m : ArchiveM T) s s' a :
  on_archive m s = (s', Ok a) ->
  exists a', m (arch s) = (a', Ok a) /\ s' = mkWS a' (wimg s).
Proof.
  unfold on_archive. destruct (m (arch s)) as [a' r].
  intros [= <- ->]. eauto.
Qed.

Lemma on_image_Ok {T} (m : ImageM T) s s' a :
  on_image m s = (s', Ok a) ->
  exists i', m (mkIS (fs (arch s)) (wimg s)) = (i', Ok a)
             /\ s' = mkWS (mkAS (ts (arch s)) (ifs i')) (img i').
Proof.
  unfold on_image. destruct (m _) as [i' r].
  intros [= <- ->]. eauto.
Qed.

(** Reading [datetime] may fill in [_datetime]; it changes nothing else. *)
Lemma datetime_get_state s :
  ifs (fst (datetime_get s)) = ifs s
  /\ exists od, img (fst (datetime_get s)) = with_datetime od (img s)
       /\ (forall d, _datetime (img s) = Some d -> od = Some d).
Proof.
  unfold datetime_get, bind, get_img, get_ifs, lift, modify_img, ret.
  destruct s as [f i]. simpl.
  assert (i = with_datetime (_datetime i) i) as Hsame by (destruct i; reflexivity).
  destruct (_datetime i) as [d|] eqn:Hd; simpl; [eauto|].
  assert (forall od : option datetime, forall d : datetime, None = Some d -> od = Some d)
    as Hno by discriminate.
  destruct (Frame._path i) as [p|]; simpl; [|eauto].
  destruct (is_empty p); simpl; [eauto|].
  destruct (date_of_path f p) as [od|e]; simpl; eauto.
Qed.

Lemma strip_Ok s s' :
  strip s = (s', Ok tt) ->
  s' = mkIS (ifs s) (with_pixels None (img s)) /\ _ipm (img s) = None.
Proof.
  unfold strip, bind, modify_img, get_img, ret, raise. simpl.
  destruct (_ipm (img s)); [discriminate|]. intros [= <-]. auto.
Qed.

Lemma write_file_Ok p c f f' :
  write_file p c f = Ok f' ->
  dirs f' = dirs f /\ files f' = <[p := c]> (files f).
Proof.
  unfold write_file. destruct (isdir f p); [discriminate|].
  destruct (isdir f (dirname p)); [|discriminate]. intros [= <-]. auto.
Qed.

Lemma fs_call_Ok op s s' :
  fs_call op s = (s', Ok tt) -> exists f', op (fs s) = Ok f' /\ s' = mkAS (ts s) f'.
Proof.
  unfold fs_call. destruct (op (fs s)); [|discriminate]. intros [= <-]. eauto.
Qed.

Lemma lift_Ok {S T} (r : result T) (s s' : S) a :
  lift r s = (s', Ok a) -> r = Ok a /\ s' = s.
Proof. unfold lift. intros [= <- ->]. auto. Qed.

Lemma makedirs_upto_files n : forall p f, files (makedirs_upto n p f) = files f.
Proof.
  induction n as [|n IH]; intros p f; simpl; [reflexivity|].
  destruct (exists_ f p || is_empty p); [reflexivity|]. simpl. apply IH.
Qed.

(** What [write_pickled_image] does when it returns. *)
Lemma write_pickled_image_Ok overwrite s s' :
  write_pickled_image overwrite s = (s', Ok tt) ->
  exists dt od rel dd f',
    snd (on_image datetime_get s) = Ok dt
    /\ ts_date_to_path (of_opt_str (_name (ts (arch s)))) (PyStr "p") dt 0 = Ok rel
    /\ data_dir (ts (arch s)) = Some dd
    /\ (overwrite = false -> isfile (fs (arch s)) (join dd rel) = false)
    /\ _ipm (wimg s) = None
    /\ (forall d, _datetime (wimg s) = Some d -> od = Some d)
    /\ files f' = files (fs (arch s))
    /\ let i' := with_pixels None (with_datetime od (wimg s)) in
       s' = mkWS (mkAS (ts (arch s))
                   (mkFS (dirs f') (<[join dd rel := FPickle i']> (files f'))))
                 i'.
Proof.
  intros H. unfold write_pickled_image in H.
  apply bind_Ok_inv in H as (s1 & t & Ht & H).
  apply on_archive_Ok in Ht as (a1 & Ha1 & ->).
  unfold get_ts in Ha1. injection Ha1 as <- <-.
  apply bind_Ok_inv in H as (s2 & dt & Hdt & H).
  assert (snd (on_image datetime_get s) = Ok dt) as Hdt0.
  { unfold on_image in Hdt |- *. simpl in Hdt.
    destruct (datetime_get _) as [i' r]. simpl. now injection Hdt as _ ->. }
  apply on_image_Ok in Hdt as (i2 & Hi2 & ->). simpl in Hi2.
  destruct (datetime_get_state (mkIS (fs (arch s)) (wimg s)))
    as (Hfs2 & od & Himg2 & Hod).
  rewrite Hi2 in Hfs2, Himg2. simpl in Hfs2, Himg2.
  apply bind_Ok_inv in H as (s3 & rel & Hrel & H).
  apply lift_Ok in Hrel as [Hrel ->].
  apply bind_Ok_inv in H as (s4 & pPath & HpPath & H).
  apply lift_Ok in HpPath as [HpPath ->].
  destruct (data_dir (ts (arch s))) as [dd|] eqn:Hdd; [|discriminate].
  simpl in HpPath. injection HpPath as <-.
  apply bind_Ok_inv in H as (s5 & f & Hf & H).
  apply on_archive_Ok in Hf as (a5 & Ha5 & ->).
  unfold get_fs in Ha5. simpl in Ha5. injection Ha5 as <- <-.
  rewrite Hfs2 in H.
  destruct (isfile (fs (arch s)) (join dd rel) && negb overwrite) eqn:Hocc;
    [discriminate|].
  apply bind_Ok_inv in H as (s6 & [] & Hstrip & H).
  apply on_image_Ok in Hstrip as (i6 & Hi6 & ->). simpl in Hi6.
  apply strip_Ok in Hi6 as [-> Hipm]. simpl in Hipm, H.
  apply bind_Ok_inv in H as (s7 & [] & Hmk & H).
  assert (exists f7, s7 = mkWS (mkAS (ts (arch s)) f7) (with_pixels None (img i2))
                     /\ files f7 = files (fs (arch s))) as (f7 & -> & Hf7).
  { destruct (negb (exists_ (fs (arch s)) (dirname (join dd rel)))).
    - destruct (is_empty (dirname (join dd rel))); [discriminate|].
      apply on_archive_Ok in Hmk as (a7 & Ha7 & ->).
      unfold put_fs in Ha7. simpl in Ha7. injection Ha7 as <-. simpl.
      eexists. split; [reflexivity|]. apply makedirs_upto_files.
    - unfold ret in Hmk. injection Hmk as <-. eauto. }
  apply bind_Ok_inv in H as (s8 & i & Hi & H).
  apply on_image_Ok in Hi as (i8 & Hi8 & ->). simpl in Hi8.
  unfold get_img in Hi8. simpl in Hi8. injection Hi8 as <- <-. simpl in H.
  apply on_archive_Ok in H as (a9 & Ha9 & ->). simpl in Ha9.
  apply fs_call_Ok in Ha9 as (f9 & Hf9 & ->). simpl in Hf9.
  apply write_file_Ok in Hf9 as [Hd9 Hfl9].
  exists dt, od, rel, dd, f7. simpl.
  rewrite Himg2 in Hipm |- *.
  repeat split; auto.
  - intros ->. now rewrite andb_true_r in Hocc.
  - destruct f9 as [d9 fl9]. simpl in *. subst. rewrite Himg2. reflexivity.
Qed.

(** X18: The pickle round trip. After [write_pickled_image] has returned,
    [load_pickled_image] with the image's timestamp returns the image as it
    was left: without pixels, and otherwise as given but for a timestamp
    that reading it may have filled in. The archive object is not changed,
    and no other file is written or lost. *)
Theorem pickled_image_round_trip overwrite s s' :
  _timestream (wimg s) = None ->
  write_pickled_image overwrite s = (s', Ok tt) ->
  exists dt,
    snd (on_image datetime_get s) = Ok dt
    /\ load_pickled_image (ts (arch s')) (fs (arch s')) dt = Ok (Some (wimg s'))
    /\ _pixels (wimg s') = None
    /\ Frame.data (wimg s') = Frame.data (wimg s)
    /\ Frame._path (wimg s') = Frame._path (wimg s)
    /\ ts (arch s') = ts (arch s)
    /\ exists target,
         files (fs (arch s')) = <[target := FPickle (wimg s')]> (files (fs (arch s))).
Proof.
  intros _ H.
  apply write_pickled_image_Ok in H
    as (dt & od & rel & dd & f' & Hdt & Hrel & Hdd & _ & _ & _ & Hfiles & ->).
  exists dt. simpl in *. split; [exact Hdt|]. split.
  - unfold load_pickled_image. rewrite Hrel, Hdd. simpl.
    rewrite lookup_insert_eq. reflexivity.
  - repeat split; auto.
    exists (join dd rel). rewrite Hfiles. reflexivity.
Qed.

(** X19: An image that carries a pot matrix cannot be pickled: [strip] calls
    a method [ImagePotMatrix] does not have, so [write_pickled_image] never
    returns for it. *)
Theorem write_pickled_image_with_pots overwrite s m :
  _ipm (wimg s) = Some m ->
  exists e, snd (write_pickled_image overwrite s) = Raise e.
Proof.
  intros Hm.
  destruct (write_pickled_image overwrite s) as [s' [[]|e]] eqn:H; [|simpl; eauto].
  apply write_pickled_image_Ok in H as (dt & od & rel & dd & f' & _ & _ & _ & _ & Hn & _).
  congruence.
Qed.

End ImageFiles.

Section ImageFilesExamples.
Import OS Frame Archive Samples MoreSamples.

Lemma pickled_image_round_trip_witness :
  load_pickled_image ts1 (fs (arch (fst (write_pickled_image true write1))))
    (PyDatetime 60)
  = Ok (Some (with_pixels None frame60)).
Proof.
  destruct (pickled_image_round_trip (E := sample_externals) true write1
              (fst (write_pickled_image true write1)))
    as (dt & Hdt & Hload & _); [reflexivity|reflexivity|].
  injection Hdt as <-. exact Hload.
Defined.

Lemma write_pickled_image_with_pots_witness :
  exists e, snd (write_pickled_image true (mkWS (mkAS ts1 fs1) frame60_pots)) = Raise e.
Proof.
  apply (write_pickled_image_with_pots (E := sample_externals) true
           (mkWS (mkAS ts1 fs1) frame60_pots) 0%nat).
  reflexivity.
Defined.

End ImageFilesExamples.

Section WriteMore.
Import OS Frame Archive.
Context {E : Externals}.

Lemma image_set_path_str p s :
  image_set_path (PyStr p) s = (mkIS (ifs s) (with_path (Some p) (img s)), Ok tt).
Proof. reflexivity. Qed.

(** What [write] has done when it returns. *)
Lemma image_write_Ok fpath overwrite s s' :
  image_write fpath overwrite s = (s', Ok tt) ->
  exists target px,
    (is_empty fpath = false -> target = fpath)
    /\ _pixels (img s) = Some px
    /\ (overwrite = false -> exists_ (ifs s) target = false)
    /\ img s' = with_path (Some target) (img s)
    /\ (isdir (ifs s') target = false -> files (ifs s') !! target = Some (FImage px))
    /\ (forall q, q <> target -> files (ifs s') !! q = files (ifs s) !! q)
    /\ dirs (ifs s) ⊆ dirs (ifs s').
Proof.
  intros H. unfold image_write in H.
  apply bind_Ok_inv in H as (s1 & i & Hi & H).
  unfold get_img in Hi. injection Hi as <- <-.
  apply bind_Ok_inv in H as (s2 & target & Ht & H).
  assert (s2 = s /\ (is_empty fpath = false -> target = fpath)) as [-> Htarget].
  { destruct (is_empty fpath).
    - destruct (Frame._path (img s)); [|discriminate].
      unfold ret in Ht. injection Ht as <- <-. split; [reflexivity|discriminate].
    - unfold ret in Ht. injection Ht as <- <-. auto. }
  destruct (_pixels (img s)) as [px|] eqn:Hpx; [|discriminate].
  apply bind_Ok_inv in H as (s3 & f & Hf & H).
  unfold get_ifs in Hf. injection Hf as <- <-.
  destruct (exists_ (ifs s) target && negb overwrite) eqn:Hocc; [discriminate|].
  apply bind_Ok_inv in H as (s4 & [] & Hrm & H).
  assert (exists f4, s4 = mkIS f4 (img s) /\ dirs f4 = dirs (ifs s)
            /\ (forall q, q <> target -> files f4 !! q = files (ifs s) !! q))
    as (f4 & -> & Hd4 & Hf4).
  { destruct (isfile (ifs s) target).
    - unfold put_ifs in Hrm. injection Hrm as <-.
      eexists. split; [reflexivity|]. split; [reflexivity|].
      intros q Hq. simpl. now apply lookup_delete_ne.
    - unfold ret in Hrm. injection Hrm as <-. exists (ifs s). destruct s; auto. }
  apply bind_Ok_inv in H as (s5 & f1 & Hf1 & H).
  unfold get_ifs in Hf1. injection Hf1 as <- <-. simpl in H.
  apply bind_Ok_inv in H as (s6 & [] & Hmk & H).
  assert (exists f6, s6 = mkIS f6 (img s) /\ dirs f4 ⊆ dirs f6 /\ files f6 = files f4)
    as (f6 & -> & Hd6 & Hf6).
  { destruct (negb (exists_ f4 (dirname target))).
    - destruct (is_empty (dirname target)); [discriminate|].
      unfold put_ifs in Hmk. injection Hmk as <-. simpl.
      eexists. split; [reflexivity|]. split; [|apply makedirs_upto_files].
      unfold makedirs. generalize (S (String.length (dirname target))).
      generalize (dirname target). intros p n. revert p.
      induction n as [|n IH]; intros p; simpl; [reflexivity|].
      destruct (exists_ f4 p || is_empty p); [reflexivity|]. simpl.
      etrans; [exact (IH (dirname p))|apply union_subseteq_r].
    - unfold ret in Hmk. injection Hmk as <-. exists f4. auto. }
  apply bind_Ok_inv in H as (s7 & f2 & Hf2 & H).
  unfold get_ifs in Hf2. injection Hf2 as <- <-. simpl in H.
  apply bind_Ok_inv in H as (s8 & [] & Hw & H).
  cbv [image_set_path modify_img] in H. injection H as <-.
  exists target, px. simpl.
  split; [exact Htarget|]. split; [reflexivity|]. split.
  { intros ->. now rewrite andb_true_r in Hocc. }
  destruct (isdir f6 target) eqn:Hdir.
  - unfold ret in Hw. injection Hw as <-. simpl.
    split; [reflexivity|]. split; [rewrite Hdir; discriminate|].
    split; [intros q Hq; rewrite Hf6; auto|]. rewrite <- Hd4. exact Hd6.
  - unfold put_ifs in Hw. injection Hw as <-. simpl.
    split; [reflexivity|]. split; [intros _; apply lookup_insert_eq|].
    split; [|rewrite <- Hd4; exact Hd6].
    intros q Hq. rewrite lookup_insert_ne by congruence. rewrite Hf6. auto.
Qed.

(** X20: [TimeStreamImage.write] to a path that is given. When it returns,
    the image has pixels and keeps them, its path is the target, the target
    holds the pixels unless it is a directory, no other file has changed and
    no directory is gone; without [overwrite] nothing existed at the target
    before. When something exists there and [overwrite] is off, it raises
    [RuntimeError] and nothing changes. *)
Theorem image_write_to_path fpath overwrite s :
  is_empty fpath = false ->
  (forall s', image_write fpath overwrite s = (s', Ok tt) ->
     exists px,
       _pixels (img s) = Some px /\ _pixels (img s') = Some px
       /\ Frame._path (img s') = Some fpath
       /\ (isdir (ifs s') fpath = false -> files (ifs s') !! fpath = Some (FImage px))
       /\ (forall q, q <> fpath -> files (ifs s') !! q = files (ifs s) !! q)
       /\ dirs (ifs s) ⊆ dirs (ifs s')
       /\ (overwrite = false -> exists_ (ifs s) fpath = false))
  /\ (forall px, _pixels (img s) = Some px -> exists_ (ifs s) fpath = true ->
      image_write fpath false s = (s, Raise (RuntimeError msg_path_exists))).
Proof.
  intros Hne. split.
  - intros s' H.
    apply image_write_Ok in H as (target & px & Ht & Hpx & How & Himg & Hfile & Hrest & Hdirs).
    rewrite (Ht Hne) in *. exists px. rewrite Himg. simpl. repeat split; auto.
  - intros px Hpx Hocc. unfold image_write, bind, get_img, get_ifs, ret, raise.
    rewrite Hne, Hpx, Hocc. reflexivity.
Qed.

Lemma write_metadata_Ok a a' :
  write_metadata a = (a', Ok tt) ->
  ts a' = ts a
  /\ exists ip dp, image_db_path (ts a) = Some ip /\ db_path (ts a) = Some dp
       /\ files (fs a') = <[dp := FData (Archive.data (ts a))]>
                            (<[ip := FImageData (image_data (ts a))]> (files (fs a))).
Proof.
  intros H. unfold write_metadata in H.
  apply bind_Ok_inv in H as (s1 & t & Ht & H).
  unfold get_ts in Ht. injection Ht as <- <-.
  destruct (negb (truthy (Archive._path (ts a)))); [discriminate|].
  destruct (_version (ts a)) as [[|[| |]|]|]; try discriminate.
  destruct (image_db_path (ts a)) as [ip|]; [|discriminate].
  destruct (db_path (ts a)) as [dp|]; [|discriminate].
  apply bind_Ok_inv in H as (s2 & [] & H1 & H2).
  apply fs_call_Ok in H1 as (f1 & Hf1 & ->).
  apply fs_call_Ok in H2 as (f2 & Hf2 & ->). simpl in *.
  apply write_file_Ok in Hf1 as [_ Hf1]. apply write_file_Ok in Hf2 as [_ Hf2].
  split; [reflexivity|]. exists ip, dp. rewrite Hf2, Hf1. auto.
Qed.

Lemma datetime_get_known f i d :
  _datetime i = Some d -> datetime_get (mkIS f i) = (mkIS f i, Ok (PyDatetime d)).
Proof. intros H. unfold datetime_get, bind, get_img, ret. simpl. now rewrite H. Qed.

Lemma on_image_datetime_known a i d :
  _datetime i = Some d ->
  on_image datetime_get (mkWS a i) = (mkWS a i, Ok (PyDatetime d)).
Proof.
  intros H. unfold on_image. simpl. rewrite (datetime_get_known _ _ _ H).
  destruct a. reflexivity.
Qed.

(** What the last part of [write_image] has done when it returns, for
    an image whose timestamp is set. *)
Lemma commit_image_Ok fpath t f i d s' :
  _datetime i = Some d ->
  commit_image fpath (mkWS (mkAS t f) i) = (s', Ok tt) ->
  exists key a b target,
    ts_format_date (PyDatetime d) = Ok key
    /\ start_datetime t = Some a /\ end_datetime t = Some b
    /\ ts (arch s')
       = with_image_data (<[key := Frame.data i]> (image_data t))
           (with_start (Some (Z.min a d)) (with_end (Some (Z.max b d)) t))
    /\ wimg s' = with_pixels None (with_path (Some target) i)
    /\ (is_empty fpath = false -> target = fpath)
    /\ _ipm i = None
    /\ is_Some (_pixels i).
Proof.
  intros Hd H. unfold commit_image in H.
  apply bind_Ok_inv in H as (s1 & t1 & Ht1 & H).
  unfold on_archive, get_ts in Ht1. simpl in Ht1. injection Ht1 as <- <-.
  rewrite (bind_Ok_step _ _ _ _ _ (on_image_datetime_known _ _ _ Hd)) in H.
  apply bind_Ok_inv in H as (s2 & later & Hlater & H).
  apply lift_Ok in Hlater as [Hlater ->].
  destruct (end_datetime t) as [b|] eqn:Hb; [|discriminate].
  simpl in Hlater. injection Hlater as <-.
  apply bind_Ok_inv in H as (s3 & [] & Hend & H).
  set (t3 := with_end (Some (Z.max b d)) t).
  assert (s3 = mkWS (mkAS t3 f) i) as ->.
  { destruct (b <? d) eqn:Hlt.
    - rewrite (bind_Ok_step _ _ _ _ _ (on_image_datetime_known _ _ _ Hd)) in Hend.
      unfold on_archive, modify_ts in Hend. simpl in Hend. injection Hend as <-.
      apply Z.ltb_lt in Hlt. unfold t3. rewrite Z.max_r by lia. reflexivity.
    - unfold ret in Hend. injection Hend as <-.
      apply Z.ltb_ge in Hlt. unfold t3. rewrite Z.max_l by lia.
      destruct t; simpl in *; subst; reflexivity. }
  apply bind_Ok_inv in H as (s4 & t2 & Ht2 & H).
  unfold on_archive, get_ts in Ht2. simpl in Ht2. injection Ht2 as <- <-.
  rewrite (bind_Ok_step _ _ _ _ _ (on_image_datetime_known _ _ _ Hd)) in H.
  apply bind_Ok_inv in H as (s5 & earlier & Hearlier & H).
  apply lift_Ok in Hearlier as [Hearlier ->].
  destruct (start_datetime t) as [a|] eqn:Ha;
    [|unfold t3 in Hearlier; simpl in Hearlier; rewrite Ha in Hearlier; discriminate].
  unfold t3 in Hearlier. simpl in Hearlier. rewrite Ha in Hearlier.
  simpl in Hearlier. injection Hearlier as <-.
  apply bind_Ok_inv in H as (s6 & [] & Hstart & H).
  set (t6 := with_start (Some (Z.min a d)) t3).
  assert (s6 = mkWS (mkAS t6 f) i) as ->.
  { destruct (d <? a) eqn:Hlt.
    - rewrite (bind_Ok_step _ _ _ _ _ (on_image_datetime_known _ _ _ Hd)) in Hstart.
      unfold on_archive, modify_ts in Hstart. simpl in Hstart. injection Hstart as <-.
      apply Z.ltb_lt in Hlt. unfold t6. rewrite Z.min_r by lia. reflexivity.
    - unfold ret in Hstart. injection Hstart as <-.
      apply Z.ltb_ge in Hlt. unfold t6. rewrite Z.min_l by lia.
      unfold t3. destruct t; simpl in *; subst; reflexivity. }
  rewrite (bind_Ok_step _ _ _ _ _ (on_image_datetime_known _ _ _ Hd)) in H.
  apply bind_Ok_inv in H as (s7 & key & Hkey & H).
  apply lift_Ok in Hkey as [Hkey ->].
  apply bind_Ok_inv in H as (s8 & i8 & Hi8 & H).
  unfold on_image, get_img in Hi8. simpl in Hi8. injection Hi8 as <- <-.
  apply bind_Ok_inv in H as (s9 & [] & Hmod & H).
  unfold on_archive, modify_ts in Hmod. simpl in Hmod. injection Hmod as <-.
  apply bind_Ok_inv in H as (s10 & [] & Hmeta & H).
  apply on_archive_Ok in Hmeta as (a10 & Hmeta & ->). simpl in Hmeta.
  apply write_metadata_Ok in Hmeta as [Hts10 _]. simpl in Hts10.
  apply bind_Ok_inv in H as (s11 & [] & Hwr & H).
  apply on_image_Ok in Hwr as (i11 & Hwr & ->). simpl in Hwr.
  apply image_write_Ok in Hwr as (target & px & Htarget & Hpx & _ & Himg & _).
  simpl in Hpx, Himg.
  apply write_pickled_image_Ok in H
    as (dt & od & rel & dd & f' & Hdt & _ & _ & _ & Hipm & Hod & _ & ->).
  simpl in *. rewrite Himg in Hipm, Hdt, Hod |- *. simpl in Hipm, Hod.
  rewrite (Hod d Hd).
  exists key, a, b, target. rewrite Hts10.
  repeat split; auto.
  destruct i; simpl in *; subst; reflexivity.
Qed.

Lemma increment_loop_state t f i d n : forall subsec fpath s' r,
  _datetime i = Some d ->
  increment_loop n subsec fpath (mkWS (mkAS t f) i) = (s', Ok r) ->
  s' = mkWS (mkAS t f) i.
Proof.
  induction n as [|n IH]; intros subsec fpath s' r Hd H.
  - unfold increment_loop, ret in H. now injection H as <- _.
  - cbn [increment_loop] in H.
    apply bind_Ok_inv in H as (s1 & f1 & Hf1 & H).
    unfold on_archive, get_fs in Hf1. simpl in Hf1. injection Hf1 as <- <-.
    destruct (exists_ f fpath && (subsec <? 100)).
    + apply bind_Ok_inv in H as (s2 & t2 & Ht2 & H).
      unfold on_archive, get_ts in Ht2. simpl in Ht2. injection Ht2 as <- <-.
      rewrite (bind_Ok_step _ _ _ _ _ (on_image_datetime_known _ _ _ Hd)) in H.
      apply bind_Ok_inv in H as (s3 & p & Hp & H).
      apply lift_Ok in Hp as [_ ->]. eauto.
    + unfold ret in H. now injection H as <- _.
Qed.

(** X21: What a successful [write_image] leaves behind, for an image that
    has its pixels and its timestamp. Either the target existed and the mode
    was [skip], and nothing has changed; or the image was written: its
    metadata is in the archive's table under the formatted timestamp, the
    archive's interval has been widened to hold the timestamp, nothing else
    of the archive object has changed, and the image handed in has lost its
    pixels. *)
Theorem write_image_committed mode t f i px d s' :
  _pixels i = Some px -> _datetime i = Some d ->
  write_image mode (mkWS (mkAS t f) i) = (s', Ok tt) ->
  (mode = PyStr "skip" /\ s' = mkWS (mkAS t f) i)
  \/ exists key a b,
       ts_format_date (PyDatetime d) = Ok key
       /\ start_datetime t = Some a /\ end_datetime t = Some b
       /\ ts (arch s')
          = with_image_data (<[key := Frame.data i]> (image_data t))
              (with_start (Some (Z.min a d)) (with_end (Some (Z.max b d)) t))
       /\ image_data (ts (arch s')) !! key = Some (Frame.data i)
       /\ Z.min a d <= d <= Z.max b d
       /\ _pixels (wimg s') = None
       /\ is_Some (Frame._path (wimg s')).
Proof.
  intros Hpx Hd H.
  assert (forall fpath, commit_image fpath (mkWS (mkAS t f) i) = (s', Ok tt) ->
    exists key a b,
       ts_format_date (PyDatetime d) = Ok key
       /\ start_datetime t = Some a /\ end_datetime t = Some b
       /\ ts (arch s')
          = with_image_data (<[key := Frame.data i]> (image_data t))
              (with_start (Some (Z.min a d)) (with_end (Some (Z.max b d)) t))
       /\ image_data (ts (arch s')) !! key = Some (Frame.data i)
       /\ Z.min a d <= d <= Z.max b d
       /\ _pixels (wimg s') = None
       /\ is_Some (Frame._path (wimg s'))) as Hcommit.
  { intros fpath Hc.
    apply (commit_image_Ok fpath t f i d s' Hd) in Hc
      as (key & a & b & target & Hkey & Ha & Hb & Hts & Himg & _).
    exists key, a, b. rewrite Hts, Himg. simpl.
    repeat split; auto; try lia. apply lookup_insert_eq. }
  unfold write_image in H.
  apply bind_Ok_inv in H as (s1 & t1 & Ht1 & H).
  unfold on_archive, get_ts in Ht1. simpl in Ht1. injection Ht1 as <- <-.
  destruct (negb (truthy (_name t))); [discriminate|].
  destruct (negb (truthy (Archive._path t))); [discriminate|].
  destruct mode as [| |mode|]; try discriminate.
  destruct (negb (bool_decide (mode ∈ overwrite_modes))); [discriminate|].
  apply bind_Ok_inv in H as (s2 & opx & Hopx & H).
  unfold on_image, pixels_get in Hopx. simpl in Hopx. rewrite Hpx in Hopx.
  injection Hopx as <- <-.
  destruct (_version t) as [[|[| |]|]|]; try discriminate.
  rewrite (bind_Ok_step _ _ _ _ _ (on_image_datetime_known _ _ _ Hd)) in H.
  apply bind_Ok_inv in H as (s3 & rel & Hrel & H).
  apply lift_Ok in Hrel as [Hrel ->].
  apply bind_Ok_inv in H as (s4 & fpath & Hfpath & H).
  apply lift_Ok in Hfpath as [Hfpath ->].
  apply bind_Ok_inv in H as (s5 & f5 & Hf5 & H).
  unfold on_archive, get_fs in Hf5. simpl in Hf5. injection Hf5 as <- <-.
  destruct (exists_ f fpath); [|right; eauto].
  destruct (String.eqb_spec mode "skip") as [->|_].
  { left. unfold ret in H. injection H as <-. auto. }
  right.
  destruct (String.eqb mode "increment").
  - apply bind_Ok_inv in H as (s6 & r & Hr & H).
    apply (increment_loop_state t f i d) in Hr as ->; [|exact Hd].
    apply bind_Ok_inv in H as (s7 & f7 & Hf7 & H).
    unfold on_archive, get_fs in Hf7. simpl in Hf7. injection Hf7 as <- <-.
    destruct (exists_ f (snd r)); [|eauto].
    rewrite (bind_Ok_step _ _ _ _ _ (on_image_datetime_known _ _ _ Hd)) in H.
    apply bind_Ok_inv in H as (s8 & k & _ & H). discriminate.
  - destruct (String.eqb mode "overwrite"); [eauto|discriminate].
Qed.

(** X22: An archive created with a name of the caller's choice cannot take
    images: [create] leaves the name unset, and [write_image] refuses an
    archive without a name before it looks at the image. *)
Theorem create_with_name_then_write_image
    ts_path version ext type_ start end_ name s s1 mode i :
  name <> PyNone -> _name (ts s) = None ->
  create ts_path version ext type_ start end_ name s = (s1, Ok tt) ->
  write_image mode (mkWS s1 i) = (mkWS s1 i, Raise (RuntimeError msg_wi_name)).
Proof.
  intros Hname Hnone Hcreate.
  pose proof (create_keeps_given_name ts_path version ext type_ start end_ name s Hname)
    as Hkeep.
  rewrite Hcreate, Hnone in Hkeep. simpl in Hkeep.
  unfold write_image, bind, on_archive, get_ts. simpl. rewrite Hkeep.
  destruct s1. reflexivity.
Qed.

End WriteMore.

Section WriteMoreExamples.
Import OS Frame Archive Samples MoreSamples.

Lemma image_write_to_path_witness :
  (exists px,
     files (ifs (fst (image_write "/data/ts/x.png" false (mkIS fs1 frame60))))
       !! "/data/ts/x.png" = Some (FImage px))
  /\ image_write "/data/ts/ts_60_0.png" false (mkIS fs1 frame60)
     = (mkIS fs1 frame60, Raise (RuntimeError msg_path_exists)).
Proof.
  split.
  - destruct (image_write_to_path "/data/ts/x.png" false (mkIS fs1 frame60))
      as [H _]; [reflexivity|].
    destruct (H (fst (image_write "/data/ts/x.png" false (mkIS fs1 frame60))))
      as (px & _ & _ & _ & Hfile & _); [reflexivity|].
    exists px. apply Hfile. reflexivity.
  - destruct (image_write_to_path "/data/ts/ts_60_0.png" false (mkIS fs1 frame60))
      as [_ H]; [reflexivity|].
    apply (H im30); reflexivity.
Defined.

Lemma write_image_committed_witness :
  let s' := fst (write_image (PyStr "overwrite") write1) in
  _pixels (wimg s') = None
  /\ image_data (ts (arch s')) !! "60" = Some ∅.
Proof.
  intros s'.
  destruct (write_image_committed (E := sample_externals) (PyStr "overwrite")
              ts1 fs1 frame60 im30 60 s')
    as [[Hm _] | (key & a & b & Hkey & _ & _ & _ & Hdata & _ & Hpx & _)];
    [reflexivity|reflexivity|reflexivity| |].
  - discriminate Hm.
  - injection Hkey as <-. split; [exact Hpx|exact Hdata].
Defined.

Lemma create_with_name_then_write_image_witness :
  let s1 := fst (create (PyStr "/data/new") (PyInt 1) "png" None 0 120 (PyStr "mine")
                   (mkAS new_timestream fs0)) in
  write_image (PyStr "overwrite") (mkWS s1 frame60)
  = (mkWS s1 frame60, Raise (RuntimeError msg_wi_name)).
Proof.
  intros s1.
  apply (create_with_name_then_write_image (E := sample_externals)
           (PyStr "/data/new") (PyInt 1) "png" None
           0 120 (PyStr "mine") (mkAS new_timestream fs0) s1);
    [discriminate|reflexivity|reflexivity].
Defined.

End WriteMoreExamples.

Section ComponentFacts.
Import Component.
Variable V : Type.

Lemma init_step_Ok kwargs (entry : string * argspec V) attrs attrs' :
  init_step V kwargs entry attrs = (attrs', Ok tt) ->
  supplied V kwargs entry
  /\ exists v, value_of V kwargs entry = Some v /\ attrs' = <[entry.1 := v]> attrs.
Proof.
  unfold init_step, supplied, value_of. destruct entry as [k spec]. simpl.
  destruct (kwargs !! k) as [v|].
  - intros [= <-]. split; [left; eauto|eauto].
  - destruct (arg_required spec); simpl; [discriminate|].
    destruct (arg_default spec) as [d|]; [|discriminate].
    intros [= <-]. split; [right; eauto|eauto].
Qed.

Lemma init_step_supplied kwargs (entry : string * argspec V) attrs :
  supplied V kwargs entry -> exists attrs', init_step V kwargs entry attrs = (attrs', Ok tt).
Proof.
  unfold init_step, supplied. destruct entry as [k spec]. simpl.
  intros [[v Hv] | [Hreq [d Hd]]].
  - rewrite Hv. eauto.
  - destruct (kwargs !! k); [eauto|]. rewrite Hreq, Hd. simpl. eauto.
Qed.

(** X23: The constructor of a component. It returns exactly when every
    declared argument is given or is optional with a default, in whatever
    order the dictionary is walked; every declared argument is then an
    attribute, holding the value given or else the default, and nothing else
    is written: keyword arguments that are not declared are dropped without
    notice. *)
Theorem pc_init_sets_declared_arguments argNames kwargs attrs :
  NoDup argNames.*1 ->
  (Forall (supplied V kwargs) argNames
   <-> exists attrs', pc_init V argNames kwargs attrs = (attrs', Ok tt))
  /\ (forall attrs', pc_init V argNames kwargs attrs = (attrs', Ok tt) ->
      (forall entry, entry ∈ argNames ->
         is_Some (attrs' !! entry.1) /\ attrs' !! entry.1 = value_of V kwargs entry)
      /\ (forall k, k ∉ argNames.*1 -> attrs' !! k = attrs !! k)).
Proof.
  revert attrs. induction argNames as [|entry rest IH]; intros attrs Hnd.
  - split.
    + split; [intros _; eexists; reflexivity|constructor].
    + intros attrs' [= <-]. split; [intros e He; inversion He|reflexivity].
  - rewrite fmap_cons in Hnd. apply NoDup_cons in Hnd as [Hfresh Hnd].
    split; [split|].
    + intros HF. inversion HF as [|? ? He Hr]; subst.
      destruct (init_step_supplied kwargs entry attrs He) as [a1 Ha1].
      destruct (IH a1 Hnd) as [[Hex _] _]. destruct (Hex Hr) as [a2 Ha2].
      exists a2. simpl. unfold bind. rewrite Ha1. exact Ha2.
    + intros [attrs' H]. simpl in H.
      apply bind_Ok_inv in H as (a1 & [] & H1 & H2).
      apply init_step_Ok in H1 as [He _].
      constructor; [exact He|]. destruct (IH a1 Hnd) as [[_ Hex] _]. eauto.
    + intros attrs' H. simpl in H.
      apply bind_Ok_inv in H as (a1 & [] & H1 & H2).
      apply init_step_Ok in H1 as (_ & v & Hv & ->).
      destruct (IH (<[entry.1 := v]> attrs) Hnd) as [_ Hpost].
      destruct (Hpost attrs' H2) as [Hin Hout]. split.
      * intros e He. apply elem_of_cons in He as [->|He]; [|auto].
        rewrite (Hout _ Hfresh), lookup_insert_eq, Hv. eauto.
      * intros k Hk. rewrite fmap_cons in Hk. apply not_elem_of_cons in Hk as [Hk1 Hk2].
        rewrite (Hout k Hk2). now apply lookup_insert_ne.
Qed.

(** X24: How the constructor fails. With every required argument given, an
    optional argument that is declared without a default and not given makes
    it raise [IndexError], in whatever order the dictionary is walked; with
    a default for every optional argument, a required argument that is
    missing makes it raise the [PCException] of the class. *)
Theorem pc_init_failures argNames kwargs attrs (entry : string * argspec V) :
  entry ∈ argNames -> kwargs !! entry.1 = None ->
  (arg_required entry.2 = false -> arg_default entry.2 = None ->
   (forall e, e ∈ argNames -> arg_required e.2 = true -> is_Some (kwargs !! e.1)) ->
   snd (pc_init V argNames kwargs attrs) = Raise (IndexError msg_index_range))
  /\ (arg_required entry.2 = true ->
      (forall e, e ∈ argNames -> arg_required e.2 = false -> is_Some (arg_default e.2)) ->
      snd (pc_init V argNames kwargs attrs) = Raise (PCException msg_bad_run_expects)).
Proof.
  intros Hin Hmiss. split.
  - intros Hopt Hnone Hreq. revert attrs.
    induction argNames as [|e rest IH]; intros attrs; [inversion Hin|].
    simpl. unfold bind. unfold init_step at 1. destruct e as [k spec].
    destruct (kwargs !! k) as [v|] eqn:Hk.
    + apply elem_of_cons in Hin as [->|Hin]; [simpl in Hmiss; congruence|].
      apply IH; [exact Hin|]. intros e He. apply Hreq. now right.
    + destruct (arg_required spec) eqn:Hr; simpl.
      * destruct (Hreq (k, spec)) as [v Hv]; [now left|exact Hr|].
        simpl in Hv. congruence.
      * destruct (arg_default spec) as [d|] eqn:Hd; [|reflexivity].
        apply elem_of_cons in Hin as [->|Hin]; [simpl in Hnone; congruence|].
        apply IH; [exact Hin|]. intros e He. apply Hreq. now right.
  - intros Hreq Hdef. revert attrs.
    induction argNames as [|e rest IH]; intros attrs; [inversion Hin|].
    simpl. unfold bind. unfold init_step at 1. destruct e as [k spec].
    destruct (kwargs !! k) as [v|] eqn:Hk.
    + apply elem_of_cons in Hin as [->|Hin]; [simpl in Hmiss; congruence|].
      apply IH; [exact Hin|]. intros e He. apply Hdef. now right.
    + destruct (arg_required spec) eqn:Hr; simpl; [reflexivity|].
      destruct (Hdef (k, spec)) as [d Hd]; [now left|exact Hr|].
      simpl in Hd. rewrite Hd.
      apply elem_of_cons in Hin as [->|Hin]; [simpl in Hreq; congruence|].
      apply IH; [exact Hin|]. intros e He. apply Hdef. now right.
Qed.

End ComponentFacts.

Section PickleFacts.
Import OS Frame Pickle.

(** X25: [pickleload] never returns an image, and it destroys what it was to
    read: after a [pickledump] that has returned, the file holds the
    stripped image; [pickleload] on the same path raises [IOError] and
    leaves the file without it. *)
Theorem pickledump_then_pickleload filepath p overwrite s s' :
  (exists e, snd (pickleload filepath (ifs s)) = Raise e)
  /\ (pickledump (PyStr p) overwrite s = (s', Ok tt) ->
      _pixels (img s') = None
      /\ files (ifs s') !! p = Some (FPickle (img s'))
      /\ exists f'',
           pickleload (PyStr p) (ifs s') = (f'', Raise (IOError msg_bad_descriptor))
           /\ files f'' !! p = Some FOther).
Proof.
  split.
  - unfold pickleload. destruct filepath as [| |q|]; try (eexists; reflexivity).
    destruct (negb (exists_ (ifs s) q)); [eexists; reflexivity|].
    destruct (write_file q FOther (ifs s)); eexists; reflexivity.
  - intros H. unfold pickledump in H.
    apply bind_Ok_inv in H as (s1 & f & Hf & H).
    unfold get_ifs in Hf. injection Hf as <- <-.
    destruct (exists_ (ifs s) p && negb overwrite); [discriminate|].
    apply bind_Ok_inv in H as (s2 & [] & Hstrip & H).
    apply strip_Ok in Hstrip as [-> _].
    apply bind_Ok_inv in H as (s3 & i & Hi & H).
    unfold get_img in Hi. injection Hi as <- <-.
    apply bind_Ok_inv in H as (s4 & f1 & Hf1 & H).
    unfold get_ifs in Hf1. injection Hf1 as <- <-. simpl in H.
    unfold write_file in H.
    destruct (isdir (ifs s) p) eqn:Hdir; [discriminate|].
    destruct (isdir (ifs s) (dirname p)) eqn:Hpar; [|discriminate].
    unfold put_ifs in H. injection H as <-. simpl.
    split; [reflexivity|]. split; [apply lookup_insert_eq|].
    set (f1 := mkFS (dirs (ifs s))
                 (<[p := FPickle (with_pixels None (img s))]> (files (ifs s)))).
    assert (isfile f1 p = true) as Hfile
      by (unfold isfile, f1; simpl; now rewrite lookup_insert_eq).
    assert (isdir f1 p = false) as Hdir1 by exact Hdir.
    assert (isdir f1 (dirname p) = true) as Hpar1 by exact Hpar.
    unfold pickleload, exists_, write_file.
    rewrite Hfile, Hdir1, Hpar1. simpl.
    eexists. split; [reflexivity|]. simpl. apply lookup_insert_eq.
Qed.

End PickleFacts.

Section ComponentExamples.
Import Frame Component.

Lemma pc_init_sets_declared_arguments_witness :
  exists attrs',
    pc_init pyval Tester_argNames {["arg1" := PyStr "x"; "extra" := PyStr "y"]} ∅ = (attrs', Ok tt)
    /\ attrs' !! "arg1" = Some (PyStr "x") /\ attrs' !! "arg2" = Some (PyInt 4)
    /\ attrs' !! "extra" = None.
Proof.
  assert (NoDup (Tester_argNames.*1)) as Hnd.
  { apply NoDup_cons. split; [|apply NoDup_cons; split; [|apply NoDup_nil_2]].
    - intros H. apply list_elem_of_singleton in H. discriminate H.
    - intros H. inversion H. }
  destruct (pc_init_sets_declared_arguments pyval Tester_argNames
              {["arg1" := PyStr "x"; "extra" := PyStr "y"]} ∅ Hnd) as [_ H].
  destruct (H (fst (pc_init pyval Tester_argNames {["arg1" := PyStr "x"; "extra" := PyStr "y"]} ∅)))
    as [Hin Hout]; [reflexivity|].
  exists (fst (pc_init pyval Tester_argNames {["arg1" := PyStr "x"; "extra" := PyStr "y"]} ∅)).
  split; [reflexivity|].
  split; [|split].
  - destruct (Hin ("arg1", mkArg true "Argument 1 example" None)) as [_ Hv];
      [left|exact Hv].
  - destruct (Hin ("arg2", mkArg false "Argument 2 example" (Some (PyInt 4)))) as [_ Hv];
      [right; left|exact Hv].
  - rewrite Hout; [reflexivity|].
    intros H1. apply elem_of_cons in H1 as [H1|H1]; [discriminate H1|].
    apply list_elem_of_singleton in H1. discriminate H1.
Defined.

Lemma pc_init_failures_witness :
  snd (pc_init pyval ImageColorCorrector_argNames ∅ ∅)
  = Raise (IndexError msg_index_range)
  /\ snd (pc_init pyval Tester_argNames ∅ ∅)
     = Raise (PCException msg_bad_run_expects).
Proof.
  split.
  - destruct (pc_init_failures pyval ImageColorCorrector_argNames ∅ ∅
                ("mess", mkArg false "Correct image color" None)) as [H _];
      [left|reflexivity|].
    apply H; [reflexivity|reflexivity|].
    intros e He Hreq. apply list_elem_of_singleton in He. subst e. discriminate Hreq.
  - destruct (pc_init_failures pyval Tester_argNames ∅ ∅
                ("arg1", mkArg true "Argument 1 example" None)) as [_ H];
      [left|reflexivity|].
    apply H; [reflexivity|].
    intros e He Hopt. apply elem_of_cons in He as [->|He]; [discriminate Hopt|].
    apply list_elem_of_singleton in He. subst e. simpl. eauto.
Defined.

End ComponentExamples.

Section PickleExamples.
Import OS Frame Pickle Samples MoreSamples.

Lemma pickledump_then_pickleload_witness :
  let s' := fst (pickledump (PyStr "/data/ts/_data/f.p") false
                   (mkIS fs_empty_archive frame60)) in
  files (ifs s') !! "/data/ts/_data/f.p" = Some (FPickle (with_pixels None frame60))
  /\ exists f'',
       pickleload (PyStr "/data/ts/_data/f.p") (ifs s')
       = (f'', Raise (IOError msg_bad_descriptor))
       /\ files f'' !! "/data/ts/_data/f.p" = Some FOther.
Proof.
  intros s'.
  destruct (pickledump_then_pickleload (PyStr "/data/ts/_data/f.p") "/data/ts/_data/f.p"
              false (mkIS fs_empty_archive frame60) s') as [_ H].
  destruct H as (_ & Hfile & Hload); [reflexivity|].
  split; [exact Hfile|exact Hload].
Defined.

End PickleExamples.

Section TraverserMore.
Import OS Frame Archive Traverser.
Context {E : Externals}.

Lemma list_getitem_nil {X} i : list_getitem ([] : list X) i = Raise (IndexError msg_list_index).
Proof.
  unfold list_getitem. simpl.
  destruct (_ || _); reflexivity.
Qed.

Lemma curr_empty self_id f self :
  _timestamps self = [] ->
  curr self_id f self = (self, Raise (IndexError msg_list_index)).
Proof. intros Hnil. unfold curr. rewrite Hnil, list_getitem_nil. reflexivity. Qed.

(** X26: A traverser whose index is empty: [curr], [next] and [prev] raise
    [IndexError] wherever the cursor is, and [prev] called at cursor 0,
    where the constructor leaves it, has moved the cursor to -1 before it
    fails. *)
Theorem empty_index_raises self_id f self :
  _timestamps self = [] ->
  curr self_id f self = (self, Raise (IndexError msg_list_index))
  /\ snd (next self_id f self) = Raise (IndexError msg_list_index)
  /\ snd (prev self_id f self) = Raise (IndexError msg_list_index)
  /\ (_offset self = 0 -> fst (prev self_id f self) = with_offset (-1) self).
Proof.
  intros Hnil.
  split; [now apply curr_empty|].
  unfold next, prev. rewrite Hnil.
  change (Z.of_nat (length ([] : list datetime)) - 1) with (-1).
  split; [|split].
  - destruct (_offset self =? -1); rewrite curr_empty; auto.
  - destruct (_offset self =? 0); rewrite curr_empty; auto.
  - intros ->. cbn [Z.eqb]. rewrite curr_empty; auto.
Qed.





End TraverserMore.

Section TraverserMoreExamples.
Import OS Frame Archive Traverser Samples MoreSamples.

Lemma empty_index_raises_witness :
  snd (next 7 fs1 (mkTrav ts1 [] 0)) = Raise (IndexError msg_list_index)
  /\ fst (prev 7 fs1 (mkTrav ts1 [] 0)) = mkTrav ts1 [] (-1).
Proof.
  destruct (empty_index_raises (E := sample_externals) 7 fs1 (mkTrav ts1 [] 0))
    as (_ & Hn & _ & Hp); [reflexivity|].
  split; [exact Hn|exact (Hp eq_refl)].
Defined.


End TraverserMoreExamples.

Section DriverMore.
Import Frame Runner RunnerMore.
Variables (C D : Type).
Variable getImgByTimeStamp : Z -> result TimeStreamImage.
Variable running_after : nat -> bool.
Variable stages : list (stage C D).

(** X28: Cancellation. When the stages have returned for the first frame and
    [running] is found cleared after it, the loop ends there: the timestamps
    that remain are not visited, and [runPipeline] still logs its last
    message and emits the stop signal. *)
Theorem driver_stops_when_cancelled prsig stsig timestamp rest
    (s s1 s2 : run_state C) v out :
  ((if prsig : bool then emit C (Progress 0) else ret tt) ;;;
   resolve C D getImgByTimeStamp timestamp) s = (s1, Ok v) ->
  process C D 0 stages [v] s1 = (s2, Ok out) ->
  running_after 0%nat = false ->
  runPipeline C D getImgByTimeStamp running_after stages (timestamp :: rest)
    prsig stsig s
  = (mkRS C (rctx C s2)
       (trace C s2 ++ [LogInfo msg_done] ++ (if stsig then [Stopped] else [])), Ok tt).
Proof.
  intros Hres Hrun Hstop.
  unfold runPipeline. unfold bind at 1. cbn [run_from].
  unfold bind at 1. unfold bind at 1 in Hres.
  destruct prsig; simpl in Hres |- *; unfold bind at 1; rewrite Hres;
    rewrite Hrun, Hstop; unfold bind, emit, ret; simpl;
    destruct stsig; simpl; rewrite <- ?app_assoc; reflexivity.
Qed.


Lemma process_from_progress frame : forall sts k args (s : run_state C),
  progress_of (trace C (fst (process_from C D frame k sts args s)))
  = progress_of (trace C s).
Proof.
  induction sts as [|st sts IH]; intros k args s; simpl; [reflexivity|].
  unfold bind, emit, call_stage. simpl.
  destruct (st (rctx C s) args) as [c' [out|e]]; simpl.
  - rewrite IH. simpl. unfold progress_of. rewrite omap_app. simpl.
    now rewrite app_nil_r.
  - unfold progress_of. rewrite omap_app. simpl. now rewrite app_nil_r.
Qed.

Lemma resolve_progress timestamp (s : run_state C) :
  progress_of (trace C (fst (resolve C D getImgByTimeStamp timestamp s)))
  = progress_of (trace C s).
Proof.
  unfold resolve. destruct (getImgByTimeStamp timestamp) as [im|e].
  - unfold bind, emit, ret. simpl. unfold progress_of. rewrite omap_app. simpl.
    now rewrite app_nil_r.
  - destruct e; reflexivity.
Qed.

Lemma run_from_visits_all :
  (forall t, survivable (getImgByTimeStamp t)) ->
  (forall i v s, survivable (snd (process C D i stages [v] s))) ->
  (forall i, running_after i = true) ->
  forall timestamps i (s : run_state C),
  exists s',
    run_from C D getImgByTimeStamp running_after stages true i timestamps s = (s', Ok tt)
    /\ progress_of (trace C s') = progress_of (trace C s) ++ seq i (length timestamps).
Proof.
  intros Hget Hproc Hrun.
  induction timestamps as [|t rest IH]; intros i s.
  - exists s. simpl. unfold ret. now rewrite app_nil_r.
  - cbn [run_from]. unfold bind at 1. unfold emit at 1.
    set (s0 := mkRS C (rctx C s) (trace C s ++ [Progress i])).
    assert (progress_of (trace C s0) = progress_of (trace C s) ++ [i]) as H0.
    { unfold s0, progress_of. simpl. now rewrite omap_app. }
    unfold bind at 1.
    pose proof (resolve_progress t s0) as Hrp.
    assert (exists v, snd (resolve C D getImgByTimeStamp t s0) = Ok v) as [v Hv].
    { unfold resolve. specialize (Hget t).
      destruct (getImgByTimeStamp t) as [im|e]; [simpl; eauto|].
      destruct e; try contradiction. simpl. eauto. }
    destruct (resolve C D getImgByTimeStamp t s0) as [s1 r].
    cbn [fst] in Hrp. cbn [snd] in Hv. subst r.
    pose proof (process_from_progress i stages 0 [v] s1) as Hpp.
    specialize (Hproc i v s1). unfold process in Hproc |- *.
    destruct (process_from C D i 0 stages [v] s1) as [s2 [out|e]];
      cbn [fst] in Hpp; simpl in Hproc.
    + rewrite Hrun. destruct (IH (S i) s2) as (s' & Hs' & Htr).
      exists s'. split; [exact Hs'|].
      rewrite Htr, Hpp, Hrp, H0, <- app_assoc. reflexivity.
    + destruct e; try contradiction.
      unfold bind at 1. unfold emit at 1.
      match goal with
      | |- context [run_from _ _ _ _ _ _ _ _ ?st] =>
          destruct (IH (S i) st) as (s' & Hs' & Htr)
      end.
      exists s'. split; [exact Hs'|].
      rewrite Htr. simpl. unfold progress_of at 1. rewrite omap_app. simpl.
      rewrite app_nil_r. fold (progress_of (trace C s2)).
      rewrite Hpp, Hrp, H0, <- app_assoc. reflexivity.
Qed.

(** X30: The loop visits every timestamp once and in order. When the lookup
    of a frame and the stages only ever return or raise a [PCException], and
    nobody cancels, [runPipeline] returns, the progress signal has been
    emitted with the indices 0 to n - 1 in order, and the last message
    logged is the closing one. *)
Theorem runPipeline_visits_every_timestamp timestamps (s : run_state C) :
  (forall t, survivable (getImgByTimeStamp t)) ->
  (forall i v s, survivable (snd (process C D i stages [v] s))) ->
  (forall i, running_after i = true) ->
  exists s',
    runPipeline C D getImgByTimeStamp running_after stages timestamps true false s
    = (s', Ok tt)
    /\ progress_of (trace C s')
       = progress_of (trace C s) ++ seq 0 (length timestamps)
    /\ last (trace C s') = Some (LogInfo msg_done).
Proof.
  intros Hget Hproc Hrun.
  destruct (run_from_visits_all Hget Hproc Hrun timestamps 0%nat s) as (s1 & Hs1 & Htr).
  unfold runPipeline. unfold bind at 1. rewrite Hs1.
  unfold bind, emit, ret. simpl. eexists. split; [reflexivity|]. simpl.
  split.
  - unfold progress_of at 1. rewrite omap_app. simpl. rewrite app_nil_r. exact Htr.
  - apply last_snoc.
Qed.

End DriverMore.

Section DriverMoreExamples.
Import Frame Runner RunnerMore Samples MoreSamples.

Lemma driver_stops_when_cancelled_witness :
  runPipeline nat unit get_blank always_cancelled [stage_ok] [0; 60] true true
    (mkRS nat 0%nat [])
  = (mkRS nat 1%nat [Progress 0; LogInfo msg_process; StageCalled 0 0;
                     LogInfo msg_done; Stopped], Ok tt).
Proof.
  apply (driver_stops_when_cancelled nat unit get_blank always_cancelled [stage_ok]
           true true 0 [60] (mkRS nat 0%nat [])
           (mkRS nat 0%nat [Progress 0; LogInfo msg_process])
           (mkRS nat 1%nat [Progress 0; LogInfo msg_process; StageCalled 0 0])
           (VImage (mkTSI (Some 0) None None None None ∅))
           [VImage (mkTSI (Some 0) None None None None ∅)]);
    reflexivity.
Defined.


Lemma runPipeline_visits_every_timestamp_witness :
  exists s',
    runPipeline nat unit get_blank never_cancelled three_stages [0; 60; 120] true false
      (mkRS nat 0%nat []) = (s', Ok tt)
    /\ progress_of (trace nat s') = [0; 1; 2]%nat.
Proof.
  destruct (runPipeline_visits_every_timestamp nat unit get_blank never_cancelled
              three_stages [0; 60; 120] (mkRS nat 0%nat []))
    as (s' & Hrun & Htr & _).
  - intros t. exact Logic.I.
  - intros i v s. exact Logic.I.
  - intros i. reflexivity.
  - exists s'. split; [exact Hrun|exact Htr].
Defined.

End DriverMoreExamples.
